(** * FTPSync worker pool (ftpsyncworker.py): a shallow embedding

    The module has two classes.  [RunningCommand] is a thread that
    executes one command with a single retry and then reports to a
    callback; [Worker] owns the connection batches, admits commands to
    immediate dispatch or to a wait queue, and wakes one queued command
    whenever a command finishes.

    The Python objects are mutable and shared; the embedding threads one
    [World] value (the fields of the [Worker] object together with the
    part of the runtime the code talks to) through every method.
    A method is an [Action]: it takes a world and yields an [Outcome],
    which says whether the call returned, raised, blocked for ever on
    the semaphore, or exhausted the fuel given to its polling loops.

    Calls are modelled as atomic: one public call, or one executor
    thread running to completion, is one step.  The answers of the
    collaborators (commands, connection factory) are given by oracles,
    so every theorem holds for every behaviour they may show.  The
    config loader is a total function and [isRunning()] does not
    raise.  The teardown [__del__] is modelled apart from the steps,
    over the connection list it walks; [__commandName] only feeds the
    debug lines, which are kept without their formatting. *)

From Stdlib Require Import String Ascii.
From Stdlib Require Import List ZArith Lia Bool Arith Permutation.
Import ListNotations.
Local Open Scope Z_scope.

(** ** Python helpers *)

Module Py.

(** [l.pop()]: the last element and the list without it. *)
Definition pop {A : Type} (l : list A) : option (A * list A) :=
  match rev l with
  | [] => None
  | x :: r => Some (x, rev r)
  end.

(** [l[i]] with Python's negative indices; [None] is IndexError. *)
Definition getitem {A : Type} (l : list A) (i : Z) : option A :=
  let n := Z.of_nat (length l) in
  if (0 <=? i) && (i <? n) then nth_error l (Z.to_nat i)
  else if (- n <=? i) && (i <? 0) then nth_error l (Z.to_nat (n + i))
  else None.

(** [l.remove(x)]: drops the first element equal to [x]. *)
Fixpoint remove {A : Type} (eqb : A -> A -> bool) (x : A) (l : list A) : list A :=
  match l with
  | [] => []
  | y :: r => if eqb y x then r else y :: remove eqb x r
  end.

(** [s.lower()] on ASCII text. *)
Definition lower_ascii (a : ascii) : ascii :=
  let n := nat_of_ascii a in
  if (65 <=? n)%nat && (n <=? 90)%nat then ascii_of_nat (n + 32) else a.

Fixpoint lower (s : string) : string :=
  match s with
  | EmptyString => EmptyString
  | String a r => String (lower_ascii a) (lower r)
  end.

(** [s.find(sub)]: first position of [sub] in [s], or -1. *)
Definition find (s sub : string) : Z :=
  match String.index 0 sub s with
  | Some i => Z.of_nat i
  | None => -1
  end.

End Py.

(** ** Data *)

(** Commands, connections and configurations are opaque objects; a
    natural number stands for the identity of each ([is] on commands is
    equality of these numbers). *)
Definition Command := nat.
Definition Conn := nat.
Definition Config := nat.
Definition LoadedConfig := nat.

(** Exceptions carry their class and the text [str(e)] gives.  All of
    them are instances of [Exception], which is what the handlers of
    the module catch. *)
Inductive Exn : Type :=
| Exception (description : string)
| TypeError (description : string)
| IndexError (description : string).

Definition str (e : Exn) : string :=
  match e with
  | Exception s => s
  | TypeError s => s
  | IndexError s => s
  end.

(** What [makeConnection(...)] does on one call: it returns [None] or a
    batch (a list) of connections, or it raises. *)
Inductive FactoryResult : Type :=
| FReturn (r : option (list Conn))
| FRaise (e : Exn).

(** The factory may answer differently from call to call; its first
    argument is the number of calls made before this one. *)
Definition Factory := nat -> LoadedConfig -> FactoryResult.
Definition Loader := option Config -> LoadedConfig.

(** The fields of a [RunningCommand] thread (the callback is passed to
    [run] separately). *)
Record RunningCommand : Type := mkRunningCommand {
  rc_command : Command;
  rc_debug : bool;
  rc_id : nat
}.

(** The dict appended to [self.commands] for a dispatched command. *)
Record CommandRecord : Type := mkRecord {
  rec_command : Command;
  rec_config : option Config;
  rec_thread : RunningCommand;
  rec_index : Z;
  rec_threadId : nat
}.

(** Lines written by [_debugPrint], without their formatting. *)
Inductive Msg : Type :=
| MsgExecuting (tid : nat)
| MsgRetrying (tid : nat)
| MsgEnding (tid : nat)
| MsgIsRunning (tid : nat)
| MsgTooMany
| MsgException (e : Exn)
| MsgCreating (n : nat)
| MsgAdding (c : Command)
| MsgQueuing (c : Command) (total : nat)
| MsgRunning (c : Command) (total : nat)
| MsgScheduling (tid : nat) (c : Command) (index : Z)
| MsgRemoving (tid : nat)
| MsgSleeping (n : nat).

(** What the code does to the outside, most recent event first.
    Sleeps are in tenths of a time unit. *)
Inductive Event : Type :=
| EvPrint (m : Msg)
| EvSleep (tenths : nat)
| EvMakeConnection (call : nat) (cfg : LoadedConfig)
| EvSetConnection (c : Command) (batch : list Conn)
| EvStart (tid : nat) (c : Command)
| EvAcquire
| EvRelease
| EvExecute (c : Command)
| EvIsRunning (c : Command) (answer : bool)
| EvOnFinish (c : Command).

(** The [Worker] object ([threads] and [index], which the class never
    reads or writes after construction, are left out), followed by the
    runtime around it: how often the factory was called, the executor
    threads started and not yet finished, and the event trace. *)
Record World : Type := mkWorld {
  limit : Z;
  connections : list (list Conn);
  commands : list CommandRecord;
  waitingCommands : list Command;
  threadId : nat;
  semaphore : nat;
  makeConnection : Factory;
  makeConfig : Loader;
  freeConnections : list Z;
  debug : bool;
  factoryCalls : nat;
  live : list RunningCommand;
  trace : list Event
}.

Definition set_connections (v : list (list Conn)) (w : World) : World :=
  mkWorld (limit w) v (commands w) (waitingCommands w) (threadId w)
    (semaphore w) (makeConnection w) (makeConfig w) (freeConnections w)
    (debug w) (factoryCalls w) (live w) (trace w).

Definition set_commands (v : list CommandRecord) (w : World) : World :=
  mkWorld (limit w) (connections w) v (waitingCommands w) (threadId w)
    (semaphore w) (makeConnection w) (makeConfig w) (freeConnections w)
    (debug w) (factoryCalls w) (live w) (trace w).

Definition set_waitingCommands (v : list Command) (w : World) : World :=
  mkWorld (limit w) (connections w) (commands w) v (threadId w)
    (semaphore w) (makeConnection w) (makeConfig w) (freeConnections w)
    (debug w) (factoryCalls w) (live w) (trace w).

Definition set_threadId (v : nat) (w : World) : World :=
  mkWorld (limit w) (connections w) (commands w) (waitingCommands w) v
    (semaphore w) (makeConnection w) (makeConfig w) (freeConnections w)
    (debug w) (factoryCalls w) (live w) (trace w).

Definition set_semaphore (v : nat) (w : World) : World :=
  mkWorld (limit w) (connections w) (commands w) (waitingCommands w)
    (threadId w) v (makeConnection w) (makeConfig w) (freeConnections w)
    (debug w) (factoryCalls w) (live w) (trace w).

Definition set_makeConnection (v : Factory) (w : World) : World :=
  mkWorld (limit w) (connections w) (commands w) (waitingCommands w)
    (threadId w) (semaphore w) v (makeConfig w) (freeConnections w)
    (debug w) (factoryCalls w) (live w) (trace w).

Definition set_freeConnections (v : list Z) (w : World) : World :=
  mkWorld (limit w) (connections w) (commands w) (waitingCommands w)
    (threadId w) (semaphore w) (makeConnection w) (makeConfig w) v
    (debug w) (factoryCalls w) (live w) (trace w).

Definition set_debug (v : bool) (w : World) : World :=
  mkWorld (limit w) (connections w) (commands w) (waitingCommands w)
    (threadId w) (semaphore w) (makeConnection w) (makeConfig w)
    (freeConnections w) v (factoryCalls w) (live w) (trace w).

Definition set_factoryCalls (v : nat) (w : World) : World :=
  mkWorld (limit w) (connections w) (commands w) (waitingCommands w)
    (threadId w) (semaphore w) (makeConnection w) (makeConfig w)
    (freeConnections w) (debug w) v (live w) (trace w).

Definition set_live (v : list RunningCommand) (w : World) : World :=
  mkWorld (limit w) (connections w) (commands w) (waitingCommands w)
    (threadId w) (semaphore w) (makeConnection w) (makeConfig w)
    (freeConnections w) (debug w) (factoryCalls w) v (trace w).

(** Records one event. *)
Definition log (ev : Event) (w : World) : World :=
  mkWorld (limit w) (connections w) (commands w) (waitingCommands w)
    (threadId w) (semaphore w) (makeConnection w) (makeConfig w)
    (freeConnections w) (debug w) (factoryCalls w) (live w) (ev :: trace w).

(** ** Outcomes and control flow *)

Inductive Outcome : Type :=
| Returned (w : World)
| Raised (e : Exn) (w : World)
| Blocked (w : World)
| OutOfFuel.

Definition Action := World -> Outcome.

(** The world an outcome leaves behind, when it says so. *)
Definition world_of (o : Outcome) : option World :=
  match o with
  | Returned w => Some w
  | Raised _ w => Some w
  | Blocked w => Some w
  | OutOfFuel => None
  end.

Definition bind (o : Outcome) (k : Action) : Outcome :=
  match o with
  | Returned w => k w
  | Raised e w => Raised e w
  | Blocked w => Blocked w
  | OutOfFuel => OutOfFuel
  end.

Notation "o >>= k" := (bind o k) (at level 50, left associativity).

(** [try: body / except Exception as e: handler(e)]. *)
Definition try_except (body : Outcome) (handler : Exn -> Action) : Outcome :=
  match body with
  | Returned w => Returned w
  | Raised e w => handler e w
  | Blocked w => Blocked w
  | OutOfFuel => OutOfFuel
  end.

(** What becomes of an exception [e] that is pending while a
    [finally] block, or a handler that ends in a bare [raise], runs:
    it goes on unless that block ends otherwise. *)
Definition then_reraise (e : Exn) (o : Outcome) : Outcome :=
  match o with
  | Returned w => Raised e w
  | Raised e' w => Raised e' w
  | Blocked w => Blocked w
  | OutOfFuel => OutOfFuel
  end.

(** [try: body / finally: fin]. *)
Definition try_finally (body : Outcome) (fin : Action) : Outcome :=
  match body with
  | Returned w => fin w
  | Raised e w => then_reraise e (fin w)
  | Blocked w => Blocked w
  | OutOfFuel => OutOfFuel
  end.

(** ** The collaborators' behaviour

    The answers the outside gives to executor thread [tid]: whether its
    first ([attempt = 0]) and second call of [command.execute()] raise,
    what its [k]-th call of [command.isRunning()] returns, and whether
    [command.setConnection] and [thread.start()] raise when that thread
    is being dispatched. *)
Record Env : Type := mkEnv {
  execute_at : nat -> nat -> option Exn;
  isRunning_at : nat -> nat -> bool;
  setConnection_at : nat -> option Exn;
  start_at : nat -> option Exn
}.

Definition option_nat_eqb (a b : option nat) : bool :=
  match a, b with
  | Some x, Some y => Nat.eqb x y
  | None, None => true
  | _, _ => false
  end.

Definition thread_eqb (a b : RunningCommand) : bool :=
  Nat.eqb (rc_command a) (rc_command b) && Bool.eqb (rc_debug a) (rc_debug b)
  && Nat.eqb (rc_id a) (rc_id b).

(** [==] on the record dicts, which [list.remove] uses. *)
Definition record_eqb (a b : CommandRecord) : bool :=
  Nat.eqb (rec_command a) (rec_command b)
  && option_nat_eqb (rec_config a) (rec_config b)
  && thread_eqb (rec_thread a) (rec_thread b)
  && Z.eqb (rec_index a) (rec_index b)
  && Nat.eqb (rec_threadId a) (rec_threadId b).

Section Program.

Variable env : Env.

(** ** class RunningCommand *)

(** The argument of [RunningCommand._debugPrint] is a text in three
    calls and the caught exception object in one. *)
Inductive RcMessage : Type :=
| RcText (m : Msg)
| RcExn (e : Exn).

(** [_debugPrint]: with debugging on it prints
    ["[command {0}]".format(self.id) + message]; [+] between a string
    and an exception object is a TypeError. *)
Definition rc_debugPrint (rc : RunningCommand) (m : RcMessage) : Action :=
  fun w =>
    if rc_debug rc then
      match m with
      | RcText t => Returned (log (EvPrint t) w)
      | RcExn _ => Raised (TypeError "can only concatenate str to str") w
      end
    else Returned w.

(** One call of [self.command.execute()]. *)
Definition execute (rc : RunningCommand) (attempt : nat) : Action :=
  fun w =>
    let w' := log (EvExecute (rc_command rc)) w in
    match execute_at env (rc_id rc) attempt with
    | None => Returned w'
    | Some e => Raised e w'
    end.

(** [while self.command.isRunning(): ...; sleep(0.5)], at its [k]-th
    test of the condition. *)
Fixpoint poll (fuel : nat) (rc : RunningCommand) (k : nat) (w : World) : Outcome :=
  match fuel with
  | O => OutOfFuel
  | S f =>
      let b := isRunning_at env (rc_id rc) k in
      let w1 := log (EvIsRunning (rc_command rc) b) w in
      if b then
        rc_debugPrint rc (RcText (MsgIsRunning (rc_id rc))) w1 >>= fun w2 =>
        poll f rc (S k) (log (EvSleep 5) w2)
      else Returned w1
  end.

(** [RunningCommand.run]. *)
Definition RunningCommand_run (fuel : nat) (rc : RunningCommand)
    (onFinish : Command -> Action) : Action :=
  fun w =>
    try_finally
      (try_except
         (rc_debugPrint rc (RcText (MsgExecuting (rc_id rc))) w >>= execute rc 0)
         (fun e w1 =>
            rc_debugPrint rc (RcExn e) w1
            >>= rc_debugPrint rc (RcText (MsgRetrying (rc_id rc)))
            >>= execute rc 1))
      (fun w2 =>
         rc_debugPrint rc (RcText (MsgEnding (rc_id rc))) w2
         >>= poll fuel rc 0
         >>= onFinish (rc_command rc)).

(** ** class Worker *)

(** [Worker(limit, factory, loader)].  [BoundedSemaphore] refuses a
    negative value with ValueError, so no worker exists for one. *)
Definition Worker_init (lim : Z) (factory : Factory) (loader : Loader) : option World :=
  if lim <? 0 then None
  else Some (mkWorld lim [] [] [] 0 (Z.to_nat lim) factory loader [] false 0 [] []).

Definition debugPrint (m : Msg) (w : World) : World :=
  if debug w then log (EvPrint m) w else w.

Definition enableDebug (w : World) : World := set_debug true w.
Definition disableDebug (w : World) : World := set_debug false w.
Definition setConnectionFactory (factory : Factory) (w : World) : World :=
  set_makeConnection factory w.

Definition addConnection (batch : list Conn) (w : World) : World :=
  set_connections (connections w ++ [batch]) w.

(** The test [str(e).lower().find('too many connections') != -1]. *)
Definition too_many (e : Exn) : bool :=
  negb (Py.find (Py.lower (str e)) "too many connections" =? -1).

(** The end of [fillConnection], after the try block. *)
Definition fill_tail (connection : option (list Conn)) (w : World) : Outcome :=
  let w2 :=
    match connection with
    | Some batch =>
        if (0 <? length batch)%nat then
          let w1 := addConnection batch w in
          set_freeConnections
            (freeConnections w1 ++ [Z.of_nat (length (connections w1))]) w1
        else w
    | None => w
    end in
  Returned (debugPrint (MsgCreating (length (connections w2))) w2).

(** [Worker.fillConnection]. *)
Definition fillConnection (config : option Config) : Action :=
  fun w =>
    if Z.of_nat (length (connections w)) <=? limit w then
      let k := factoryCalls w in
      let loaded := makeConfig w config in
      let w1 := log (EvMakeConnection k loaded) (set_factoryCalls (S k) w) in
      match makeConnection w k loaded with
      | FReturn connection => fill_tail connection w1
      | FRaise e =>
          if too_many e then
            fill_tail None (log (EvSleep 15) (debugPrint MsgTooMany w1))
          else Raised e (debugPrint (MsgException e) w1)
      end
    else Returned w.

Definition isEmpty (w : World) : bool :=
  (length (commands w) =? 0)%nat && (length (waitingCommands w) =? 0)%nat.

Definition waitCommand (c : Command) (w : World) : World :=
  set_waitingCommands (waitingCommands w ++ [c]) w.

(** [while len(self.freeConnections) == 0: sleep(0.1); fillConnection]. *)
Fixpoint wait_free (fuel : nat) (config : option Config) (w : World) : Outcome :=
  match freeConnections w with
  | _ :: _ => Returned w
  | [] =>
      match fuel with
      | O => OutOfFuel
      | S f => fillConnection config (log (EvSleep 1) w) >>= wait_free f config
      end
  end.

Definition setConnection (c : Command) (batch : list Conn) : Action :=
  fun w =>
    let w' := log (EvSetConnection c batch) w in
    match setConnection_at env (threadId w) with
    | None => Returned w'
    | Some e => Raised e w'
    end.

Definition start (thread : RunningCommand) : Action :=
  fun w =>
    match start_at env (rc_id thread) with
    | None =>
        Returned (set_live (live w ++ [thread])
                    (log (EvStart (rc_id thread) (rc_command thread)) w))
    | Some e => Raised e w
    end.

(** The try block of [Worker.__run].  [acquire] on a semaphore without
    a free permit does not return. *)
Definition run_body (fuel : nat) (c : Command) (config : option Config) : Action :=
  fun w =>
    match semaphore w with
    | O => Blocked w
    | S s =>
        let w1 := log EvAcquire (set_semaphore s w) in
        let w2 := set_threadId (S (threadId w1)) w1 in
        fillConnection config w2 >>= wait_free fuel config >>= fun w3 =>
        match Py.pop (freeConnections w3) with
        | None => Raised (IndexError "pop from empty list") w3
        | Some (index, rest) =>
            let w4 := set_freeConnections rest w3 in
            let thread := mkRunningCommand c (debug w4) (threadId w4) in
            let w5 := debugPrint (MsgScheduling (threadId w4) c index) w4 in
            match Py.getitem (connections w5) (index - 1) with
            | None => Raised (IndexError "list index out of range") w5
            | Some batch =>
                setConnection c batch w5 >>= fun w6 =>
                start thread
                  (set_commands
                     (commands w6 ++ [mkRecord c config thread index (threadId w6)])
                     w6)
            end
        end
    end.

(** [semaphore.release()]; the bound of the [BoundedSemaphore] cannot
    be exceeded here, a release always follows the acquire of the same
    call. *)
Definition release : Action :=
  fun w => Returned (log EvRelease (set_semaphore (S (semaphore w)) w)).

(** The loop [for cmd in self.commands] of [__onFinish], which removes
    from the list it iterates over: the iterator holds a position [i],
    and after a removal the element that moved into place [i - 1] is
    never visited.  [n] bounds the iterations left; starting from the
    length of the list it is never the reason to stop. *)
Fixpoint scan (n i : nat) (c : Command) (config : option Config) (w : World)
  : World * option Config :=
  match n with
  | O => (w, config)
  | S n' =>
      match nth_error (commands w) i with
      | None => (w, config)
      | Some cmd =>
          if Nat.eqb (rec_command cmd) c then
            let w1 := set_freeConnections (freeConnections w ++ [rec_index cmd]) w in
            let w2 := set_commands (Py.remove record_eqb cmd (commands w1)) w1 in
            scan n' (S i) c (rec_config cmd)
              (debugPrint (MsgRemoving (rec_threadId cmd)) w2)
          else scan n' (S i) c config w
      end
  end.

(** [Worker.__onFinish], with the [__run] it calls as a parameter. *)
Definition onFinish_with (run_rec : Command -> option Config -> Action)
    (c : Command) : Action :=
  fun w =>
    let w0 := log (EvOnFinish c) w in
    let '(w1, config) := scan (length (commands w0)) 0 c None w0 in
    let w2 := debugPrint (MsgSleeping (length (waitingCommands w1))) w1 in
    if (0 <? length (waitingCommands w2))%nat then
      match Py.pop (waitingCommands w2) with
      | None => Raised (IndexError "pop from empty list") w2
      | Some (awakenCommand, rest) =>
          run_rec awakenCommand config (set_waitingCommands rest w2)
      end
    else Returned w2.

(** [Worker.__run]; a unit of fuel is spent on every call. *)
Fixpoint run (fuel : nat) (c : Command) (config : option Config) (w : World) : Outcome :=
  match fuel with
  | O => OutOfFuel
  | S f =>
      try_finally
        (try_except (run_body f c config w)
           (fun e w' => then_reraise e (onFinish_with (run f) c w')))
        release
  end.

Definition onFinish (fuel : nat) : Command -> Action :=
  onFinish_with (run fuel).

(** [Worker.addCommand]. *)
Definition addCommand (fuel : nat) (c : Command) (config : option Config) : Action :=
  fun w =>
    let w1 := debugPrint (MsgAdding c) w in
    if limit w1 <=? Z.of_nat (length (commands w1)) then
      Returned
        (waitCommand c
           (debugPrint (MsgQueuing c (length (waitingCommands w1) + 1)) w1))
    else
      run fuel c config
        (debugPrint (MsgRunning c (length (commands w1) + 1)) w1).

(** ** The pool at work *)

(** What can happen to a pool: a client calls [addCommand], or the
    executor thread with a given id runs to its end. *)
Inductive Step : Type :=
| AddCommand (c : Command) (config : option Config)
| ThreadRun (tid : nat).

Fixpoint take_thread (tid : nat) (l : list RunningCommand)
  : option (RunningCommand * list RunningCommand) :=
  match l with
  | [] => None
  | rc :: r =>
      if Nat.eqb (rc_id rc) tid then Some (rc, r)
      else match take_thread tid r with
           | Some (x, r') => Some (x, rc :: r')
           | None => None
           end
  end.

Definition step (fuel : nat) (s : Step) : Action :=
  fun w =>
    match s with
    | AddCommand c config => addCommand fuel c config w
    | ThreadRun tid =>
        match take_thread tid (live w) with
        | None => Returned w
        | Some (rc, rest) =>
            RunningCommand_run fuel rc (onFinish fuel) (set_live rest w)
        end
    end.

(** The world after a sequence of steps.  A step that raised or blocked
    leaves its world to the steps after it: the caller may catch the
    exception, and other threads go on beside a blocked one. *)
Fixpoint steps (fuel : nat) (l : list Step) (w : World) : option World :=
  match l with
  | [] => Some w
  | s :: r =>
      match world_of (step fuel s w) with
      | Some w' => steps fuel r w'
      | None => None
      end
  end.

End Program.

(** * Vocabulary of the properties *)

(** [sub] occurs somewhere in [s]. *)
Definition contains (s sub : string) : Prop :=
  exists pre post, s = (pre ++ sub ++ post)%string.

(** What filling and waiting keep: every field of the pool but the
    connection list, the free list and the call counter, of which the
    two lists only grow at their ends. *)
Record frame (w w' : World) : Prop := mkFrame {
  fr_limit : limit w' = limit w;
  fr_commands : commands w' = commands w;
  fr_waiting : waitingCommands w' = waitingCommands w;
  fr_threadId : threadId w' = threadId w;
  fr_semaphore : semaphore w' = semaphore w;
  fr_debug : debug w' = debug w;
  fr_live : live w' = live w;
  fr_connections : exists ext, connections w' = connections w ++ ext;
  fr_free : exists ext, freeConnections w' = freeConnections w ++ ext;
  fr_trace : exists evs, trace w' = evs ++ trace w
}.

(** The world a factory exception is handled in. *)
Definition after_factory_call (config : option Config) (w : World) : World :=
  log (EvMakeConnection (factoryCalls w) (makeConfig w config))
    (set_factoryCalls (S (factoryCalls w)) w).

(** The factory is reached and raises [e]. *)
Definition factory_raises (config : option Config) (w : World) (e : Exn) : Prop :=
  Z.of_nat (length (connections w)) <= limit w
  /\ makeConnection w (factoryCalls w) (makeConfig w config) = FRaise e.

(** A filled slot: the factory is reached and returns a batch that
    holds at least one connection. *)
Definition factory_returns (config : option Config) (w : World) (batch : list Conn) : Prop :=
  Z.of_nat (length (connections w)) <= limit w
  /\ makeConnection w (factoryCalls w) (makeConfig w config) = FReturn (Some batch)
  /\ batch <> [].

(** [w'] is [w] after command [c] was dispatched with [config] on the
    free index [index], whose batch is [batch]. *)
Record dispatched (c : Command) (config : option Config) (index : Z)
    (batch : list Conn) (w w' : World) : Prop := mkDispatched {
  d_limit : limit w' = limit w;
  d_commands :
    commands w' =
    commands w ++ [mkRecord c config (mkRunningCommand c (debug w) (S (threadId w)))
                     index (S (threadId w))];
  d_waiting : waitingCommands w' = waitingCommands w;
  d_live : live w' = live w ++ [mkRunningCommand c (debug w) (S (threadId w))];
  d_threadId : threadId w' = S (threadId w);
  d_debug : debug w' = debug w;
  d_connections : exists ext, connections w' = connections w ++ ext;
  d_batch : Py.getitem (connections w') (index - 1) = Some batch;
  d_trace : exists evs, trace w' = evs ++ trace w
              /\ In (EvSetConnection c batch) evs
              /\ In (EvStart (S (threadId w)) c) evs
}.

(** [w'] is [w] after a dispatch of [c] that raised: nothing was
    queued or started, and the record of [c] is there only if the
    failure came after it was appended. *)
Record failed (c : Command) (w w' : World) : Prop := mkFailed {
  f_limit : limit w' = limit w;
  f_commands :
    commands w' = commands w
    \/ exists r, rec_command r = c /\ commands w' = commands w ++ [r];
  f_waiting : waitingCommands w' = waitingCommands w;
  f_live : live w' = live w;
  f_debug : debug w' = debug w;
  f_connections : exists ext, connections w' = connections w ++ ext
}.

(** Filling and then waiting for a free index. *)
Definition provision (fuel : nat) (config : option Config) (w : World) : Outcome :=
  fillConnection config w >>= wait_free fuel config.

(** The world of [run_body] once the permit is taken. *)
Definition acquired (s : nat) (w : World) : World :=
  set_threadId (S (threadId (log EvAcquire (set_semaphore s w))))
    (log EvAcquire (set_semaphore s w)).

(** What the scan for [c] keeps of the pool: it only drops records of
    [c] and only adds to the end of the free list. *)
Record scanned (c : Command) (w w' : World) : Prop := mkScanned {
  s_limit : limit w' = limit w;
  s_connections : connections w' = connections w;
  s_waiting : waitingCommands w' = waitingCommands w;
  s_threadId : threadId w' = threadId w;
  s_semaphore : semaphore w' = semaphore w;
  s_debug : debug w' = debug w;
  s_live : live w' = live w;
  s_incl : forall r, In r (commands w') -> In r (commands w);
  s_keep : forall r, In r (commands w) -> rec_command r <> c -> In r (commands w');
  s_length : (length (commands w') <= length (commands w))%nat;
  s_free : exists ext, freeConnections w' = freeConnections w ++ ext
}.

(** The body of the loop at a record of [c]. *)
Definition scan_hit (cmd : CommandRecord) (w : World) : World :=
  debugPrint (MsgRemoving (rec_threadId cmd))
    (set_commands (Py.remove record_eqb cmd (commands w))
       (set_freeConnections (freeConnections w ++ [rec_index cmd]) w)).

(** The record of [c], when it is the only one: the scan drops it,
    frees its index and captures its config. *)
Definition only_record (r : CommandRecord) (c : Command) (w : World) : Prop :=
  exists before after,
    commands w = before ++ r :: after
    /\ rec_command r = c
    /\ forall r', In r' (before ++ after) -> rec_command r' <> c.

(** The scan of [__onFinish] for [c], from the beginning of the
    running list: the world it leaves and the config it captured. *)
Definition finish_scan (c : Command) (w : World) : World * option Config :=
  scan (length (commands w)) 0 c None (log (EvOnFinish c) w).

(** The config that scan captures. *)
Definition captured_config (c : Command) (w : World) : option Config :=
  snd (finish_scan c w).

(** The world of [__onFinish] when it looks at the wait queue. *)
Definition finish_scanned (c : Command) (w : World) : World :=
  debugPrint (MsgSleeping (length (waitingCommands (fst (finish_scan c w)))))
    (fst (finish_scan c w)).

(** The world [addCommand] hands to [__run] below the limit. *)
Definition admitted (c : Command) (w : World) : World :=
  debugPrint (MsgRunning c (length (commands (debugPrint (MsgAdding c) w)) + 1))
    (debugPrint (MsgAdding c) w).

(** A debug line of the executor, when its text is a string. *)
Definition rc_say (rc : RunningCommand) (m : Msg) (w : World) : World :=
  if rc_debug rc then log (EvPrint m) w else w.

(** The world after [n] polls answered [True] and one answered
    [False]. *)
Fixpoint polled (rc : RunningCommand) (n : nat) (w : World) : World :=
  match n with
  | O => log (EvIsRunning (rc_command rc) false) w
  | S n' =>
      polled rc n'
        (log (EvSleep 5)
           (rc_say rc (MsgIsRunning (rc_id rc))
              (log (EvIsRunning (rc_command rc) true) w)))
  end.

(** The calls of [execute()] on [c] among some events. *)
Definition executions (c : Command) (evs : list Event) : nat :=
  length (filter (fun ev => match ev with
                            | EvExecute c' => Nat.eqb c' c
                            | _ => false
                            end) evs).

(** The [n]-th poll of executor [tid], counted from the [k]-th, is the
    first answered [False]. *)
Definition stops_running (env : Env) (tid k n : nat) : Prop :=
  isRunning_at env tid (k + n) = false
  /\ forall j, (j < n)%nat -> isRunning_at env tid (k + j) = true.

(** The world the callback is given: after the calls of [execute()],
    [tries] of them, and the polling. *)
Definition finished (rc : RunningCommand) (tries n : nat) (w : World) : World :=
  polled rc n
    (rc_say rc (MsgEnding (rc_id rc))
       (Nat.iter tries (log (EvExecute (rc_command rc)))
          (rc_say rc (MsgExecuting (rc_id rc)) w))).

(** The commands recorded as running. *)
Definition record_commands (w : World) : list Command :=
  map rec_command (commands w).

(** The commands of the executors at work. *)
Definition live_commands (w : World) : list Command :=
  map rc_command (live w).

(** The pool when every command in it is there once: the executors at
    work run different commands and each has its record, and the
    commands waiting are different from each other and from the
    running ones. *)
Record sound (w : World) : Prop := mkSound {
  live_distinct : NoDup (live_commands w);
  live_recorded : forall c, In c (live_commands w) -> In c (record_commands w);
  waiting_distinct : NoDup (waitingCommands w);
  waiting_idle : forall c, In c (waitingCommands w) -> ~ In c (record_commands w)
}.

(** [c] is neither running nor waiting. *)
Definition fresh_command (c : Command) (w : World) : Prop :=
  ~ In c (record_commands w) /\ ~ In c (waitingCommands w).

(** A step that submits a command submits a fresh one. *)
Definition fresh_step (s : Step) (w : World) : Prop :=
  match s with
  | AddCommand c _ => fresh_command c w
  | ThreadRun _ => True
  end.

(** Along the steps, every command submitted is fresh when it is. *)
Fixpoint fresh_steps (env : Env) (fuel : nat) (l : list Step) (w : World) : Prop :=
  match l with
  | [] => True
  | s :: r =>
      fresh_step s w
      /\ match world_of (step env fuel s w) with
         | Some w' => fresh_steps env fuel r w'
         | None => True
         end
  end.

(** Two worlds with the same pool contents. *)
Record same_pool (w w' : World) : Prop := mkSamePool {
  sp_limit : limit w' = limit w;
  sp_connections : connections w' = connections w;
  sp_commands : commands w' = commands w;
  sp_waiting : waitingCommands w' = waitingCommands w;
  sp_live : live w' = live w
}.

(** What a dispatch with [fuel] does to a sound pool. *)
Definition run_keeps (env : Env) (fuel : nat) : Prop :=
  forall c config w w',
    sound w -> fresh_command c w ->
    world_of (run env fuel c config w) = Some w' ->
    sound w'
    /\ (length (commands w') <= S (length (commands w)))%nat
    /\ limit w' = limit w.

(** The try block of [RunningCommand.run] with its handler. *)
Definition executor_try (env : Env) (rc : RunningCommand) (w : World) : Outcome :=
  try_except
    (rc_debugPrint rc (RcText (MsgExecuting (rc_id rc))) w >>= execute env rc 0)
    (fun e w1 =>
       rc_debugPrint rc (RcExn e) w1
       >>= rc_debugPrint rc (RcText (MsgRetrying (rc_id rc)))
       >>= execute env rc 1).

(** The pool has limit [lim] and no more than [lim + 1] batches in its
    connection list. *)
Definition bounded (lim : Z) (w : World) : Prop :=
  limit w = lim /\ Z.of_nat (length (connections w)) <= lim + 1.

(** ** Scenarios *)

Module Scenario.

(** Commands that succeed at once and are never found running. *)
Definition quiet : Env :=
  mkEnv (fun _ _ => None) (fun _ _ => false) (fun _ => None) (fun _ => None).

(** Commands whose first [execute()] fails and whose second succeeds. *)
Definition flaky : Env :=
  mkEnv (fun _ attempt => match attempt with
                          | O => Some (Exception "550 Permission denied")
                          | S _ => None
                          end)
    (fun _ _ => false) (fun _ => None) (fun _ => None).

Definition loader : Loader := fun _ => O.

(** A factory that always delivers a batch of one connection. *)
Definition generous : Factory := fun k _ => FReturn (Some [k]).

(** A factory that delivers once and is refused from then on. *)
Definition once : Factory :=
  fun k _ =>
    match k with
    | O => FReturn (Some [O])
    | S _ => FRaise (Exception "530 Login incorrect")
    end.

(** A factory refused with the words of an FTP server. *)
Definition crowded : Factory :=
  fun _ _ => FRaise (Exception "421 Too many connections (8) from this IP").

Definition pool (lim : Z) (factory : Factory) : World :=
  mkWorld lim [] [] [] 0 (Z.to_nat lim) factory loader [] false 0 [] [].

(** A pool of one with command 1 running and commands 2 and 3 queued. *)
Definition busy : World :=
  mkWorld 1 [[O]]
    [mkRecord 1%nat None (mkRunningCommand 1%nat false 1%nat) 1 1%nat]
    [2%nat; 3%nat] 1 1 once loader [] false 1
    [mkRunningCommand 1%nat false 1%nat]
    [EvRelease; EvStart 1 1%nat; EvSetConnection 1%nat [O];
     EvMakeConnection 0 O; EvAcquire].

(** The same pool with a factory that goes on delivering, command 1
    having been given config 5. *)
Definition lively : World :=
  mkWorld 1 [[O]]
    [mkRecord 1%nat (Some 5%nat) (mkRunningCommand 1%nat false 1%nat) 1 1%nat]
    [2%nat; 3%nat] 1 1 generous loader [] false 1
    [mkRunningCommand 1%nat false 1%nat]
    [EvRelease; EvStart 1 1%nat; EvSetConnection 1%nat [O];
     EvMakeConnection 0 O; EvAcquire].

(** A pool of one that was handed two batches from outside. *)
Definition saturated : World :=
  addConnection [1%nat] (addConnection [O] (pool 1 generous)).

(** An executor with debugging on. *)
Definition verbose : RunningCommand := mkRunningCommand 1%nat true 1%nat.

(** Command 1 submitted twice among others to a pool of three. *)
Definition twice : list Step :=
  [AddCommand 1%nat None; AddCommand 2%nat None; AddCommand 1%nat None;
   AddCommand 3%nat None; AddCommand 4%nat None; ThreadRun 1%nat;
   AddCommand 5%nat None; ThreadRun 3%nat].

End Scenario.

(** * The rest of the module *)

(** ** Worker.__del__ *)

(** What the teardown does, first event first: it closes a connection,
    or prints its debug line. *)
Inductive TeardownEvent : Type :=
| TdClose (conn : Conn)
| TdPrint.

(** [connection.close()]: whether the call raises, for the number of
    calls of [close] made before it and the connection it is made on. *)
Definition Closer := nat -> Conn -> option Exn.

(** The inner loop [for connection in connections] from its [k]-th
    call of [close] on: the events, the calls made, and the exception
    that ended the loop if one did. *)
Fixpoint close_batch (close : Closer) (dbg : bool) (k : nat) (batch : list Conn)
  : list TeardownEvent * nat * option Exn :=
  match batch with
  | [] => ([], k, None)
  | conn :: rest =>
      match close k conn with
      | Some e => ([TdClose conn], S k, Some e)
      | None =>
          let '(evs, k', r) := close_batch close dbg (S k) rest in
          (TdClose conn :: (if dbg then TdPrint :: evs else evs), k', r)
      end
  end.

(** The outer loop [for connections in self.connections]. *)
Fixpoint close_all (close : Closer) (dbg : bool) (k : nat) (batches : list (list Conn))
  : list TeardownEvent * nat * option Exn :=
  match batches with
  | [] => ([], k, None)
  | batch :: rest =>
      match close_batch close dbg k batch with
      | (evs, k', Some e) => (evs, k', Some e)
      | (evs, k', None) =>
          let '(evs', k'', r) := close_all close dbg k' rest in
          (evs ++ evs', k'', r)
      end
  end.

(** [Worker.__del__]: the events and the exception that leaves it.  The
    interpreter reports an exception that leaves a finalizer and drops
    it; the loops are left all the same. *)
Definition Worker_del (close : Closer) (w : World) : list TeardownEvent * option Exn :=
  let '(evs, _, r) := close_all close (debug w) 0 (connections w) in (evs, r).

(** ** More vocabulary *)

(** What the teardown does for one connection when nothing raises:
    the close, then the debug line. *)
Definition close_script (dbg : bool) (conn : Conn) : list TeardownEvent :=
  TdClose conn :: (if dbg then [TdPrint] else []).

(** The connections [close] was called on among some teardown events,
    in order. *)
Fixpoint closed (evs : list TeardownEvent) : list Conn :=
  match evs with
  | [] => []
  | TdClose conn :: r => conn :: closed r
  | TdPrint :: r => closed r
  end.

(** The debug lines among some teardown events. *)
Fixpoint printed (evs : list TeardownEvent) : nat :=
  match evs with
  | [] => O
  | TdClose _ :: r => printed r
  | TdPrint :: r => S (printed r)
  end.

(** [w] with another trace. *)
Definition with_trace (tr : list Event) (w : World) : World :=
  mkWorld (limit w) (connections w) (commands w) (waitingCommands w)
    (threadId w) (semaphore w) (makeConnection w) (makeConfig w)
    (freeConnections w) (debug w) (factoryCalls w) (live w) tr.

(** An answer of the factory after which [fillConnection] returns
    without a new batch: [None], an empty batch, or the refusal it
    backs off from. *)
Definition soft (r : FactoryResult) : bool :=
  match r with
  | FReturn None => true
  | FReturn (Some batch) => negb (0 <? length batch)%nat
  | FRaise e => too_many e
  end.

(** From [w] on, the factory answers [n] calls for [config] softly and
    delivers [batch] on the next. *)
Definition delivers_after (config : option Config) (w : World) (n : nat)
    (batch : list Conn) : Prop :=
  Z.of_nat (length (connections w)) <= limit w
  /\ (forall j, (j < n)%nat ->
        soft (makeConnection w (factoryCalls w + j)%nat (makeConfig w config)) = true)
  /\ makeConnection w (factoryCalls w + n)%nat (makeConfig w config)
     = FReturn (Some batch)
  /\ batch <> [].

(** The indices the pool holds: those of the running records and the
    free ones. *)
Definition slots (w : World) : list Z :=
  map rec_index (commands w) ++ freeConnections w.

(** No index is held twice, and each is the place of a batch. *)
Definition tidy (w : World) : Prop :=
  NoDup (slots w)
  /\ forall i, In i (slots w) -> 1 <= i <= Z.of_nat (length (connections w)).

(** The commands given to [addCommand] along some steps, in order. *)
Fixpoint submitted (l : list Step) : list Command :=
  match l with
  | [] => []
  | AddCommand c _ :: r => c :: submitted r
  | ThreadRun _ :: r => submitted r
  end.

(** The executors at work have different ids, none above the counter. *)
Definition numbered (w : World) : Prop :=
  NoDup (map rc_id (live w))
  /\ forall rc, In rc (live w) -> (rc_id rc <= threadId w)%nat.

(** The permits after a dispatch: all back when it returned or
    raised, none left where it blocked. *)
Definition permits_kept (w : World) (o : Outcome) : Prop :=
  match o with
  | Returned w' => semaphore w' = semaphore w
  | Raised _ w' => semaphore w' = semaphore w
  | Blocked w' => semaphore w' = O
  | OutOfFuel => True
  end.

(** A batch that is in the connection list, at place [k] of the part
    [base] of it, without its index being held. *)
Definition unused (base : list (list Conn)) (k : Z) (w : World) : Prop :=
  (exists ext, connections w = base ++ ext)
  /\ k <= Z.of_nat (length base)
  /\ ~ In k (slots w).

(** The factory of the pool raises [e] on every call, and [e] is not
    the refusal [fillConnection] backs off from. *)
Definition refusing (e : Exn) (w : World) : Prop :=
  too_many e = false
  /\ forall k cfg, makeConnection w k cfg = FRaise e.

(** ** More scenarios *)

Module More.

(** Commands that never stop running. *)
Definition endless : Env :=
  mkEnv (fun _ _ => None) (fun _ _ => true) (fun _ => None) (fun _ => None).

(** Commands that refuse the connection they are given. *)
Definition unbindable : Env :=
  mkEnv (fun _ _ => None) (fun _ _ => false)
    (fun _ => Some (Exception "no such connection")) (fun _ => None).

(** A factory that is refused twice and then delivers. *)
Definition patient : Factory :=
  fun k _ =>
    match k with
    | O => FRaise (Exception "421 Too many connections (8) from this IP")
    | S O => FReturn None
    | S (S _) => FReturn (Some [k])
    end.

(** A factory that returns an empty batch. *)
Definition barren : Factory := fun _ _ => FReturn (Some []).

(** A closer that fails on its third call. *)
Definition third_fails : Closer :=
  fun k _ => match k with
             | S (S O) => Some (Exception "connection reset")
             | _ => None
             end.

(** A pool of one past its limit: two batches, command 1 running on
    the second, command 2 waiting. *)
Definition full : World :=
  mkWorld 1 [[O]; [1%nat]]
    [mkRecord 1%nat (Some 5%nat) (mkRunningCommand 1%nat false 1%nat) 2 1%nat]
    [2%nat] 1 1 Scenario.generous Scenario.loader [1] false 2
    [mkRunningCommand 1%nat false 1%nat] [].

(** Command 1 recorded twice in a row, by executors 1 and 2. *)
Definition doubled : World :=
  mkWorld 3 [[O]; [1%nat]]
    [mkRecord 1%nat None (mkRunningCommand 1%nat false 1%nat) 1 1%nat;
     mkRecord 1%nat None (mkRunningCommand 1%nat false 2%nat) 2 2%nat]
    [] 2 3 Scenario.generous Scenario.loader [] false 2
    [mkRunningCommand 1%nat false 1%nat; mkRunningCommand 1%nat false 2%nat] [].

(** A pool with two batches of two connections, debugging on. *)
Definition wired : World :=
  mkWorld 2 [[O; 1%nat]; [2%nat; 3%nat]] [] [] 0 2 Scenario.generous
    Scenario.loader [1; 2] true 2 [] [].

(** An executor with debugging off. *)
Definition silent : RunningCommand := mkRunningCommand 1%nat false 1%nat.

(** Steps of a pool of one: two commands, and the first finishes. *)
Definition relay : list Step :=
  [AddCommand 1%nat None; AddCommand 2%nat None; ThreadRun 1%nat].

(** A factory that is always refused. *)
Definition closed_door : Factory :=
  fun _ _ => FRaise (Exception "530 Login incorrect").

(** A pool of three with nothing running and two commands left waiting. *)
Definition stranded : World :=
  mkWorld 3 [] [] [2%nat; 3%nat] 0 3 closed_door Scenario.loader [] false 0 [] [].

End More.

(** * Properties *)

(** ** Lists and strings *)

Lemma pop_app {A : Type} (l : list A) (x : A) : Py.pop (l ++ [x]) = Some (x, l).
Proof.
  unfold Py.pop. rewrite rev_app_distr. simpl. now rewrite rev_involutive.
Qed.

Lemma pop_some {A : Type} (l r : list A) (x : A) :
  Py.pop l = Some (x, r) -> l = r ++ [x].
Proof.
  unfold Py.pop. destruct (rev l) as [|y t] eqn:E; intro H; [discriminate|].
  injection H as -> <-.
  rewrite <- (rev_involutive l), E. reflexivity.
Qed.

Lemma pop_none {A : Type} (l : list A) : Py.pop l = None -> l = [].
Proof.
  unfold Py.pop. destruct (rev l) eqn:E; [|discriminate].
  intros _. rewrite <- (rev_involutive l), E. reflexivity.
Qed.

Lemma getitem_last {A : Type} (l : list A) (x : A) :
  Py.getitem (l ++ [x]) (Z.of_nat (length (l ++ [x])) - 1) = Some x.
Proof.
  unfold Py.getitem. rewrite length_app. simpl.
  replace (Z.of_nat (length l + 1) - 1) with (Z.of_nat (length l)) by lia.
  replace (0 <=? Z.of_nat (length l)) with true by (symmetry; apply Z.leb_le; lia).
  replace (Z.of_nat (length l) <? Z.of_nat (length l + 1)) with true
    by (symmetry; apply Z.ltb_lt; lia).
  simpl. rewrite Nat2Z.id, nth_error_app2 by lia.
  now rewrite Nat.sub_diag.
Qed.

Lemma getitem_app {A : Type} (l ext : list A) (i : Z) (x : A) :
  0 <= i -> Py.getitem l i = Some x -> Py.getitem (l ++ ext) i = Some x.
Proof.
  unfold Py.getitem. intros Hi. rewrite length_app.
  replace (0 <=? i) with true by (symmetry; apply Z.leb_le; lia).
  replace (i <? 0) with false by (symmetry; apply Z.ltb_ge; lia).
  rewrite !andb_false_r. simpl.
  destruct (i <? Z.of_nat (length l)) eqn:E; [|discriminate].
  apply Z.ltb_lt in E.
  replace (i <? Z.of_nat (length l + length ext)) with true
    by (symmetry; apply Z.ltb_lt; lia).
  intro H. rewrite nth_error_app1 by lia. exact H.
Qed.

Lemma substring_prefix (m : nat) : forall s t,
  substring 0 m s = t -> String.length t = m -> exists post, s = (t ++ post)%string.
Proof.
  induction m as [|m IH]; intros s t H L.
  - destruct t; [|discriminate]. exists s. reflexivity.
  - destruct s as [|a s]; simpl in H.
    + subst t. discriminate.
    + subst t. simpl in L. injection L as L.
      destruct (IH s _ eq_refl L) as [post Hp].
      exists post. simpl. now rewrite <- Hp.
Qed.

Lemma substring_split (n : nat) : forall m s t,
  substring n m s = t -> String.length t = m -> contains s t.
Proof.
  induction n as [|n IH]; intros m s t H L.
  - destruct (substring_prefix m s t H L) as [post Hp].
    exists EmptyString, post. exact Hp.
  - destruct s as [|a s].
    + assert (t = EmptyString) by (destruct m; simpl in H; now subst).
      subst t. exists EmptyString, EmptyString. reflexivity.
    + simpl in H. destruct (IH m s t H L) as (pre & post & Hs).
      exists (String a pre), post. simpl. now rewrite <- Hs.
Qed.

Lemma substring_middle (pre sub post : string) :
  substring (String.length pre) (String.length sub) (pre ++ sub ++ post) = sub.
Proof.
  induction pre as [|a pre IH]; simpl; [|exact IH].
  induction sub as [|b sub IHs]; simpl.
  - destruct post; reflexivity.
  - now rewrite IHs.
Qed.

(** [find] answers -1 exactly when there is no occurrence. *)
Lemma find_contains (s sub : string) :
  sub <> EmptyString -> (Py.find s sub <> -1 <-> contains s sub).
Proof.
  intro Hne. unfold Py.find. split.
  - destruct (String.index 0 sub s) as [i|] eqn:E; [intros _|congruence].
    apply index_correct1 in E.
    eapply substring_split; [exact E|reflexivity].
  - intros (pre & post & ->).
    destruct (String.index 0 sub (pre ++ sub ++ post)) as [i|] eqn:E; [lia|].
    exfalso.
    apply (index_correct3 0 (String.length pre) _ _ E Hne); [lia|].
    apply substring_middle.
Qed.

Lemma lower_append (a b : string) :
  Py.lower (a ++ b) = (Py.lower a ++ Py.lower b)%string.
Proof. induction a as [|x a IH]; simpl; [reflexivity|now rewrite IH]. Qed.

Lemma too_many_spec (e : Exn) :
  too_many e = true <-> contains (Py.lower (str e)) "too many connections".
Proof.
  unfold too_many. rewrite negb_true_iff, Z.eqb_neq.
  apply find_contains. discriminate.
Qed.

(** A description with the words as they are written is also found
    after lowering. *)
Lemma contains_lower (s : string) :
  contains s "too many connections" ->
  contains (Py.lower s) "too many connections".
Proof.
  intros (pre & post & ->).
  exists (Py.lower pre), (Py.lower post).
  now rewrite !lower_append.
Qed.

(** ** What a world keeps through the debug print *)

Lemma debugPrint_fields (m : Msg) (w : World) :
  limit (debugPrint m w) = limit w
  /\ connections (debugPrint m w) = connections w
  /\ commands (debugPrint m w) = commands w
  /\ waitingCommands (debugPrint m w) = waitingCommands w
  /\ threadId (debugPrint m w) = threadId w
  /\ semaphore (debugPrint m w) = semaphore w
  /\ freeConnections (debugPrint m w) = freeConnections w
  /\ debug (debugPrint m w) = debug w
  /\ factoryCalls (debugPrint m w) = factoryCalls w
  /\ live (debugPrint m w) = live w
  /\ makeConnection (debugPrint m w) = makeConnection w
  /\ makeConfig (debugPrint m w) = makeConfig w.
Proof. unfold debugPrint. destruct (debug w) eqn:E; cbn; rewrite ?E; repeat (split; try reflexivity). Qed.

Lemma debugPrint_limit m w : limit (debugPrint m w) = limit w.
Proof. apply debugPrint_fields. Qed.
Lemma debugPrint_connections m w : connections (debugPrint m w) = connections w.
Proof. apply debugPrint_fields. Qed.
Lemma debugPrint_commands m w : commands (debugPrint m w) = commands w.
Proof. apply debugPrint_fields. Qed.
Lemma debugPrint_waitingCommands m w :
  waitingCommands (debugPrint m w) = waitingCommands w.
Proof. apply debugPrint_fields. Qed.
Lemma debugPrint_threadId m w : threadId (debugPrint m w) = threadId w.
Proof. apply debugPrint_fields. Qed.
Lemma debugPrint_semaphore m w : semaphore (debugPrint m w) = semaphore w.
Proof. apply debugPrint_fields. Qed.
Lemma debugPrint_freeConnections m w :
  freeConnections (debugPrint m w) = freeConnections w.
Proof. apply debugPrint_fields. Qed.
Lemma debugPrint_debug m w : debug (debugPrint m w) = debug w.
Proof. apply debugPrint_fields. Qed.
Lemma debugPrint_factoryCalls m w : factoryCalls (debugPrint m w) = factoryCalls w.
Proof. apply debugPrint_fields. Qed.
Lemma debugPrint_live m w : live (debugPrint m w) = live w.
Proof. apply debugPrint_fields. Qed.
Lemma debugPrint_makeConnection m w :
  makeConnection (debugPrint m w) = makeConnection w.
Proof. apply debugPrint_fields. Qed.
Lemma debugPrint_makeConfig m w : makeConfig (debugPrint m w) = makeConfig w.
Proof. apply debugPrint_fields. Qed.

Lemma debugPrint_trace m w : exists evs, trace (debugPrint m w) = evs ++ trace w.
Proof.
  unfold debugPrint. destruct (debug w); simpl.
  - now exists [EvPrint m].
  - now exists [].
Qed.

Create Rewrite HintDb world.

#[local] Hint Rewrite debugPrint_limit debugPrint_connections debugPrint_commands
  debugPrint_waitingCommands debugPrint_threadId debugPrint_semaphore
  debugPrint_freeConnections debugPrint_debug debugPrint_factoryCalls
  debugPrint_live debugPrint_makeConnection debugPrint_makeConfig : world.

Ltac fields := repeat (autorewrite with world in *; cbn [limit connections commands
  waitingCommands threadId semaphore makeConnection makeConfig freeConnections
  debug factoryCalls live trace set_connections set_commands set_waitingCommands
  set_threadId set_semaphore set_makeConnection set_freeConnections set_debug
  set_factoryCalls set_live log addConnection waitCommand] in *).

(** ** fillConnection *)

Lemma frame_refl (w : World) : frame w w.
Proof.
  constructor; try reflexivity; exists []; now rewrite ?app_nil_r.
Qed.

Lemma frame_trans (w1 w2 w3 : World) : frame w1 w2 -> frame w2 w3 -> frame w1 w3.
Proof.
  intros [A1 A2 A3 A4 A5 A6 A7 [x1 A8] [y1 A9] [z1 A10]]
         [B1 B2 B3 B4 B5 B6 B7 [x2 B8] [y2 B9] [z2 B10]].
  constructor; try congruence.
  - exists (x1 ++ x2). now rewrite B8, A8, app_assoc.
  - exists (y1 ++ y2). now rewrite B9, A9, app_assoc.
  - exists (z2 ++ z1). now rewrite B10, A10, app_assoc.
Qed.

Lemma frame_debugPrint (m : Msg) (w : World) : frame w (debugPrint m w).
Proof.
  constructor; fields; try reflexivity;
    try (exists []; now rewrite app_nil_r).
  apply debugPrint_trace.
Qed.

Lemma frame_log (ev : Event) (w : World) : frame w (log ev w).
Proof.
  constructor; fields; try reflexivity;
    try (exists []; now rewrite app_nil_r).
  now exists [ev].
Qed.

Lemma frame_factoryCalls (k : nat) (w : World) : frame w (set_factoryCalls k w).
Proof.
  constructor; fields; try reflexivity; exists []; now rewrite ?app_nil_r.
Qed.

Lemma fill_tail_frame (connection : option (list Conn)) (w : World) :
  exists w', fill_tail connection w = Returned w' /\ frame w w'.
Proof.
  unfold fill_tail. eexists. split; [reflexivity|].
  eapply frame_trans; [|apply frame_debugPrint].
  destruct connection as [batch|]; [|apply frame_refl].
  destruct (0 <? length batch)%nat; [|apply frame_refl].
  constructor; fields; try reflexivity; try (now eexists); now exists [].
Qed.

(** The worlds [fillConnection] can leave behind. *)
Lemma fillConnection_frame (config : option Config) (w w' : World) :
  world_of (fillConnection config w) = Some w' -> frame w w'.
Proof.
  unfold fillConnection.
  destruct (Z.of_nat (length (connections w)) <=? limit w).
  - set (w1 := log _ (set_factoryCalls _ w)).
    assert (F1 : frame w w1)
      by (eapply frame_trans; [apply frame_factoryCalls|apply frame_log]).
    destruct (makeConnection w _ _) as [connection|e].
    + destruct (fill_tail_frame connection w1) as (w2 & -> & F2).
      simpl. intros [= <-]. eapply frame_trans; eauto.
    + destruct (too_many e).
      * set (w2 := log _ (debugPrint _ w1)).
        destruct (fill_tail_frame None w2) as (w3 & -> & F3).
        simpl. intros [= <-].
        eapply frame_trans; [exact F1|].
        eapply frame_trans; [apply frame_debugPrint|].
        eapply frame_trans; [apply frame_log|exact F3].
      * simpl. intros [= <-].
        eapply frame_trans; [exact F1|apply frame_debugPrint].
  - simpl. intros [= <-]. apply frame_refl.
Qed.

(** [fillConnection] never blocks and never runs out of fuel. *)
Lemma fillConnection_total (config : option Config) (w : World) :
  (exists w', fillConnection config w = Returned w')
  \/ (exists e w', fillConnection config w = Raised e w').
Proof.
  unfold fillConnection.
  destruct (Z.of_nat (length (connections w)) <=? limit w); [|eauto].
  destruct (makeConnection w _ _) as [connection|e].
  - left. unfold fill_tail. eauto.
  - destruct (too_many e); [left; unfold fill_tail; eauto|right; eauto].
Qed.

(** A fill adds at most one batch, and none beyond [limit + 1]. *)
Lemma fillConnection_length (config : option Config) (w w' : World) :
  world_of (fillConnection config w) = Some w' ->
  Z.of_nat (length (connections w')) <= Z.max (Z.of_nat (length (connections w))) (limit w + 1).
Proof.
  unfold fillConnection.
  destruct (Z.of_nat (length (connections w)) <=? limit w) eqn:E.
  - apply Z.leb_le in E.
    assert (T : forall connection w1,
      connections w1 = connections w ->
      world_of (fill_tail connection w1) = Some w' ->
      Z.of_nat (length (connections w')) <= Z.max (Z.of_nat (length (connections w))) (limit w + 1)).
    { intros connection w1 Hc. unfold fill_tail. simpl. intros [= <-]. fields.
      destruct connection as [batch|]; [|rewrite Hc; lia].
      destruct (0 <? length batch)%nat; [|rewrite Hc; lia].
      fields. rewrite Hc, length_app. simpl. lia. }
    destruct (makeConnection w _ _) as [connection|e].
    + apply T. reflexivity.
    + destruct (too_many e).
      * apply T. fields. reflexivity.
      * simpl. intros [= <-]. fields. lia.
  - simpl. intros [= <-]. lia.
Qed.

(** C6, as amended.  When the factory raises [e]: if the lowered
    description of [e] contains the words, [fillConnection] sleeps 1.5
    and returns with the connection list and the free list as they
    were; if it does not, [e] is raised to the caller, the two lists
    again untouched. *)
Theorem C6_factory_failure (config : option Config) (w : World) (e : Exn) :
  factory_raises config w e ->
  (contains (Py.lower (str e)) "too many connections"
   /\ exists w' evs, fillConnection config w = Returned w'
        /\ connections w' = connections w
        /\ freeConnections w' = freeConnections w
        /\ trace w' = evs ++ trace (after_factory_call config w)
        /\ In (EvSleep 15) evs)
  \/ (~ contains (Py.lower (str e)) "too many connections"
      /\ exists w', fillConnection config w = Raised e w'
           /\ connections w' = connections w
           /\ freeConnections w' = freeConnections w).
Proof.
  intros [Hlen Hf]. unfold fillConnection.
  apply Z.leb_le in Hlen. rewrite Hlen, Hf.
  destruct (too_many e) eqn:T.
  - left. split; [now apply too_many_spec|].
    unfold fill_tail.
    set (w1 := log (EvMakeConnection _ _) _).
    destruct (debugPrint_trace MsgTooMany w1) as [ev1 H1].
    destruct (debugPrint_trace
                (MsgCreating (length (connections (log (EvSleep 15) (debugPrint MsgTooMany w1)))))
                (log (EvSleep 15) (debugPrint MsgTooMany w1))) as [ev2 H2].
    eexists. exists (ev2 ++ EvSleep 15 :: ev1).
    split; [reflexivity|]. fields.
    repeat split.
    + rewrite H2. simpl. rewrite H1. now rewrite <- app_assoc.
    + apply in_or_app. right. now left.
  - right. split.
    + intro C. apply too_many_spec in C. congruence.
    + eexists. split; [reflexivity|]. fields. now split.
Qed.

Lemma fillConnection_returns (config : option Config) (w : World) (batch : list Conn) :
  factory_returns config w batch ->
  exists w', fillConnection config w = Returned w'
    /\ connections w' = connections w ++ [batch]
    /\ freeConnections w' =
         freeConnections w ++ [Z.of_nat (length (connections w) + 1)].
Proof.
  intros (Hlen & Hf & Hne). unfold fillConnection.
  apply Z.leb_le in Hlen. rewrite Hlen, Hf. unfold fill_tail.
  destruct batch as [|x batch]; [congruence|]. simpl (0 <? _)%nat.
  eexists. split; [reflexivity|]. fields.
  split; [reflexivity|]. now rewrite length_app.
Qed.

(** ** Dispatch *)

Section Dispatch.

Variable env : Env.

Lemma wait_free_frame (config : option Config) (fuel : nat) : forall w w',
  world_of (wait_free fuel config w) = Some w' -> frame w w'.
Proof.
  induction fuel as [|f IH]; intros w w'; simpl;
    destruct (freeConnections w) eqn:E; simpl; try discriminate;
    try (intros [= <-]; apply frame_refl).
  destruct (fillConnection_total config (log (EvSleep 1) w)) as [[w1 H]|(e & w1 & H)];
    rewrite H; simpl; intro H'.
  - eapply frame_trans; [apply frame_log|].
    eapply frame_trans; [|apply IH; exact H'].
    apply (fillConnection_frame config). now rewrite H.
  - injection H' as <-.
    eapply frame_trans; [apply frame_log|].
    apply (fillConnection_frame config). now rewrite H.
Qed.

Lemma wait_free_returned (config : option Config) (fuel : nat) : forall w w',
  wait_free fuel config w = Returned w' -> freeConnections w' <> [].
Proof.
  induction fuel as [|f IH]; intros w w'; simpl;
    destruct (freeConnections w) eqn:E; try discriminate;
    try (intros [= <-]; congruence).
  destruct (fillConnection config (log (EvSleep 1) w)); simpl; try discriminate.
  apply IH.
Qed.

Lemma wait_free_not_blocked (config : option Config) (fuel : nat) : forall w w',
  wait_free fuel config w <> Blocked w'.
Proof.
  induction fuel as [|f IH]; intros w w'; simpl;
    destruct (freeConnections w); try discriminate.
  destruct (fillConnection_total config (log (EvSleep 1) w)) as [[w1 H]|(e & w1 & H)];
    rewrite H; simpl; [apply IH|discriminate].
Qed.

Lemma provision_frame fuel config w w' :
  world_of (provision fuel config w) = Some w' -> frame w w'.
Proof.
  unfold provision.
  destruct (fillConnection_total config w) as [[w1 H]|(e & w1 & H)];
    rewrite H; simpl; intro H'.
  - eapply frame_trans; [|eapply wait_free_frame; exact H'].
    apply (fillConnection_frame config). now rewrite H.
  - injection H' as <-. apply (fillConnection_frame config). now rewrite H.
Qed.

Lemma provision_returned fuel config w w' :
  provision fuel config w = Returned w' -> freeConnections w' <> [].
Proof.
  unfold provision. destruct (fillConnection config w); simpl; try discriminate.
  apply wait_free_returned.
Qed.

Lemma provision_not_blocked fuel config w w' :
  provision fuel config w <> Blocked w'.
Proof.
  unfold provision.
  destruct (fillConnection_total config w) as [[w1 H]|(e & w1 & H)];
    rewrite H; simpl; [apply wait_free_not_blocked|discriminate].
Qed.

(** The try block of [__run] blocks only at [acquire], and then has
    done nothing. *)
Lemma run_body_blocked fuel c config w w' :
  run_body env fuel c config w = Blocked w' -> semaphore w = O /\ w' = w.
Proof.
  unfold run_body. destruct (semaphore w) as [|s]; [now intros [= <-]|].
  fold (acquired s w). fold (provision fuel config (acquired s w)).
  destruct (provision fuel config (acquired s w)) as [w3|e w3|w3|] eqn:P;
    simpl; try discriminate.
  - destruct (Py.pop (freeConnections w3)) as [[index rest]|]; [|discriminate].
    destruct (Py.getitem _ _); [|discriminate].
    unfold setConnection. destruct (setConnection_at env _); simpl; [discriminate|].
    unfold start. destruct (start_at env _); discriminate.
  - now apply provision_not_blocked in P.
Qed.

Lemma run_body_returned fuel c config w w' :
  run_body env fuel c config w = Returned w' ->
  exists index batch,
    dispatched c config index batch w w' /\ semaphore w = S (semaphore w').
Proof.
  unfold run_body. destruct (semaphore w) as [|s] eqn:Es; [discriminate|].
  fold (acquired s w). fold (provision fuel config (acquired s w)).
  destruct (provision fuel config (acquired s w)) as [w3|e w3|w3|] eqn:P;
    simpl; try discriminate.
  assert (F : frame (acquired s w) w3) by (apply (provision_frame fuel config); now rewrite P).
  destruct F as [F1 F2 F3 F4 F5 F6 F7 [ext F8] _ [evs F10]].
  unfold acquired in *. fields.
  destruct (Py.pop (freeConnections w3)) as [[index rest]|]; [|discriminate].
  destruct (Py.getitem _ _) as [batch|] eqn:G; [|discriminate].
  unfold setConnection. destruct (setConnection_at env _); simpl; [discriminate|].
  unfold start. destruct (start_at env _); [discriminate|].
  intros [= <-]. exists index, batch. fields.
  split; [|congruence].
  constructor; fields; try congruence.
  - now exists ext.
  - destruct (debugPrint_trace (MsgScheduling (threadId w3) c index)
                (set_freeConnections rest w3)) as [ev2 H2].
    exists (EvStart (threadId w3) c :: EvSetConnection c batch :: ev2 ++ evs ++ [EvAcquire]).
    rewrite H2. fields. rewrite F10, F4. simpl.
    split; [now rewrite <- !app_assoc|].
    split; [right; now left|now left].
Qed.

Lemma run_body_raised fuel c config w e w' :
  run_body env fuel c config w = Raised e w' ->
  failed c w w' /\ semaphore w = S (semaphore w').
Proof.
  unfold run_body. destruct (semaphore w) as [|s] eqn:Es; [discriminate|].
  fold (acquired s w). fold (provision fuel config (acquired s w)).
  destruct (provision fuel config (acquired s w)) as [w3|e3 w3|w3|] eqn:P;
    simpl; try discriminate;
    (assert (F : frame (acquired s w) w3) by (apply (provision_frame fuel config); now rewrite P));
    destruct F as [F1 F2 F3 F4 F5 F6 F7 [ext F8] _ _];
    unfold acquired in *; fields.
  - destruct (Py.pop (freeConnections w3)) as [[index rest]|].
    + destruct (Py.getitem _ _) as [batch|] eqn:G.
      * unfold setConnection. destruct (setConnection_at env _); simpl.
        -- intros [= <- <-]. fields. split; [|congruence].
           constructor; fields; try congruence; eauto.
        -- unfold start. destruct (start_at env _); [|discriminate].
           intros [= <- <-]. fields. split; [|congruence].
           constructor; fields; try congruence; [|eauto].
           right. eexists. split; [|rewrite F2; reflexivity]. reflexivity.
      * intros [= <- <-]. fields. split; [|congruence].
        constructor; fields; try congruence; eauto.
    + intros [= <- <-]. split; [|congruence].
      constructor; fields; try congruence; eauto.
  - intros [= <- <-]. split; [|congruence].
    constructor; fields; try congruence; eauto.
Qed.

End Dispatch.

(** ** The scan of the finish callback *)

Lemma remove_incl {A : Type} (eqb : A -> A -> bool) (x y : A) (l : list A) :
  In y (Py.remove eqb x l) -> In y l.
Proof.
  induction l as [|a l IH]; simpl; [tauto|].
  destruct (eqb a x); simpl; tauto.
Qed.

Lemma remove_keep {A : Type} (eqb : A -> A -> bool) (x y : A) (l : list A) :
  In y l -> eqb y x = false -> In y (Py.remove eqb x l).
Proof.
  intros H E. induction l as [|a l IH]; simpl in *; [tauto|].
  destruct H as [->|H].
  - rewrite E. now left.
  - destruct (eqb a x); [exact H|right; auto].
Qed.

Lemma remove_length {A : Type} (eqb : A -> A -> bool) (x : A) (l : list A) :
  (forall a, eqb a a = true) -> In x l ->
  S (length (Py.remove eqb x l)) = length l.
Proof.
  intros R. induction l as [|a l IH]; simpl; [tauto|].
  destruct (eqb a x) eqn:E; [reflexivity|].
  intros [->|H]; [rewrite R in E; discriminate|].
  simpl. now rewrite IH.
Qed.

Lemma record_eqb_refl (r : CommandRecord) : record_eqb r r = true.
Proof.
  unfold record_eqb, thread_eqb, option_nat_eqb.
  rewrite !Nat.eqb_refl, Z.eqb_refl, Bool.eqb_reflx.
  destruct (rec_config r); [now rewrite Nat.eqb_refl|reflexivity].
Qed.

Lemma record_eqb_command (a b : CommandRecord) :
  record_eqb a b = true -> rec_command a = rec_command b.
Proof.
  unfold record_eqb. rewrite !andb_true_iff.
  intros [[[[H _] _] _] _]. now apply Nat.eqb_eq.
Qed.

Lemma scanned_refl c w : scanned c w w.
Proof. constructor; auto. exists []. now rewrite app_nil_r. Qed.

Lemma scanned_trans c w1 w2 w3 : scanned c w1 w2 -> scanned c w2 w3 -> scanned c w1 w3.
Proof.
  intros [A1 A2 A3 A4 A5 A6 A7 A8 A9 A10 [x A11]]
         [B1 B2 B3 B4 B5 B6 B7 B8 B9 B10 [y B11]].
  constructor; try congruence; auto; [lia|].
  exists (x ++ y). now rewrite B11, A11, app_assoc.
Qed.

Lemma scan_hit_scanned c cmd w :
  In cmd (commands w) -> rec_command cmd = c ->
  scanned c w (scan_hit cmd w)
  /\ S (length (commands (scan_hit cmd w))) = length (commands w).
Proof.
  intros Hin Hc. unfold scan_hit. split.
  - constructor; fields; try reflexivity.
    + intros r. apply remove_incl.
    + intros r Hr Hne. apply remove_keep; [exact Hr|].
      destruct (record_eqb r cmd) eqn:E; [|reflexivity].
      apply record_eqb_command in E. congruence.
    + rewrite <- (remove_length record_eqb cmd (commands w) record_eqb_refl Hin). lia.
    + now eexists.
  - fields. now apply remove_length; [apply record_eqb_refl|].
Qed.

Lemma scan_scanned c : forall n i config w,
  scanned c w (fst (scan n i c config w)).
Proof.
  induction n as [|n IH]; intros i config w; simpl; [apply scanned_refl|].
  destruct (nth_error (commands w) i) as [cmd|] eqn:E; [|apply scanned_refl].
  destruct (Nat.eqb (rec_command cmd) c) eqn:M; [|apply IH].
  apply Nat.eqb_eq in M. apply nth_error_In in E.
  eapply scanned_trans; [apply (scan_hit_scanned c cmd w E M)|].
  apply IH.
Qed.

(** Without a record of [c] from position [i] on, the scan changes
    nothing and captures nothing. *)
Lemma scan_no_record c : forall n i config w,
  (forall j r, (i <= j)%nat -> nth_error (commands w) j = Some r -> rec_command r <> c) ->
  scan n i c config w = (w, config).
Proof.
  induction n as [|n IH]; intros i config w H; simpl; [reflexivity|].
  destruct (nth_error (commands w) i) as [cmd|] eqn:E; [|reflexivity].
  destruct (Nat.eqb (rec_command cmd) c) eqn:M.
  - apply Nat.eqb_eq in M. exfalso. exact (H i cmd (le_n i) E M).
  - apply IH. intros j r Hj. apply H. lia.
Qed.

(** With a record of [c] ahead, at least one record goes. *)
Lemma scan_shrinks c : forall n i config w j r,
  (i <= j)%nat -> (j < i + n)%nat ->
  nth_error (commands w) j = Some r -> rec_command r = c ->
  (S (length (commands (fst (scan n i c config w)))) <= length (commands w))%nat.
Proof.
  induction n as [|n IH]; intros i config w j r Hij Hjn Hj Hc; [lia|].
  simpl.
  destruct (nth_error (commands w) i) as [cmd|] eqn:E.
  - destruct (Nat.eqb (rec_command cmd) c) eqn:M.
    + apply Nat.eqb_eq in M. apply nth_error_In in E.
      destruct (scan_hit_scanned c cmd w E M) as [_ L].
      pose proof (s_length _ _ _
        (scan_scanned c n (S i) (rec_config cmd) (scan_hit cmd w))) as L'.
      fold (scan_hit cmd w). lia.
    + assert (i <> j) by (intros ->; rewrite E in Hj; injection Hj as ->;
                          apply Nat.eqb_neq in M; congruence).
      apply (IH (S i) config w j r); auto; lia.
  - exfalso. apply nth_error_None in E.
    assert (nth_error (commands w) j <> None) by congruence.
    apply nth_error_Some in H. lia.
Qed.

Lemma remove_first_hit (r : CommandRecord) (c : Command) :
  forall before after,
  rec_command r = c ->
  (forall r', In r' before -> rec_command r' <> c) ->
  Py.remove record_eqb r (before ++ r :: after) = before ++ after.
Proof.
  induction before as [|a before IH]; intros after Hc H; simpl.
  - now rewrite record_eqb_refl.
  - destruct (record_eqb a r) eqn:E.
    + apply record_eqb_command in E. exfalso.
      apply (H a); [now left|congruence].
    + f_equal. apply IH; auto. intros r' Hr'. apply H. now right.
Qed.

Lemma scan_skip_prefix c : forall before n config w rest,
  commands w = before ++ rest ->
  (forall r', In r' before -> rec_command r' <> c) ->
  scan (length before + n) 0 c config w = scan n (length before) c config w.
Proof.
  intros before n config w rest Hw Hb.
  assert (G : forall k i, (i + k = length before)%nat ->
            scan (k + n) i c config w = scan n (length before) c config w).
  { induction k as [|k IH]; intros i Hi.
    - simpl. replace i with (length before) by lia. reflexivity.
    - simpl. destruct (nth_error (commands w) i) as [cmd|] eqn:E.
      + assert (In cmd before).
        { rewrite Hw, nth_error_app1 in E by lia. now apply nth_error_In in E. }
        destruct (Nat.eqb (rec_command cmd) c) eqn:M.
        * apply Nat.eqb_eq in M. exfalso. now apply (Hb cmd).
        * apply IH. lia.
      + apply nth_error_None in E. rewrite Hw, length_app in E. lia. }
  apply G. lia.
Qed.

Lemma scan_only_record c r w :
  only_record r c w ->
  exists w',
    scan (length (commands w)) 0 c None w = (w', rec_config r)
    /\ (forall before after, commands w = before ++ r :: after ->
        (forall r', In r' before -> rec_command r' <> c) ->
        commands w' = before ++ after)
    /\ freeConnections w' = freeConnections w ++ [rec_index r]
    /\ scanned c w w'.
Proof.
  intros (before & after & Hw & Hc & Hne).
  assert (Hb : forall r', In r' before -> rec_command r' <> c)
    by (intros r' Hr'; apply Hne, in_or_app; now left).
  assert (Ha : forall r', In r' after -> rec_command r' <> c)
    by (intros r' Hr'; apply Hne, in_or_app; now right).
  assert (L : length (commands w) = (length before + S (length after))%nat)
    by (rewrite Hw, length_app; reflexivity).
  assert (E : nth_error (commands w) (length before) = Some r)
    by (rewrite Hw, nth_error_app2, Nat.sub_diag by lia; reflexivity).
  rewrite L, (scan_skip_prefix c before _ None w (r :: after) Hw Hb).
  simpl. rewrite E, Hc, Nat.eqb_refl.
  fold (scan_hit r w).
  assert (Hin : In r (commands w)) by (rewrite Hw; apply in_or_app; right; now left).
  assert (Hcm : commands (scan_hit r w) = before ++ after).
  { unfold scan_hit. fields. rewrite Hw. now apply (remove_first_hit r c). }
  rewrite (scan_no_record c).
  - eexists. split; [reflexivity|]. split; [|split].
    + intros b a Hw' Hb'. rewrite Hcm.
      rewrite Hw in Hw'.
      assert (length before = length b).
      { destruct (Nat.lt_trichotomy (length before) (length b)) as [T|[T|T]]; [|exact T|].
        - exfalso. assert (E' : nth_error (before ++ r :: after) (length before) = Some r)
            by (rewrite nth_error_app2, Nat.sub_diag by lia; reflexivity).
          rewrite Hw', nth_error_app1 in E' by lia.
          apply nth_error_In in E'. now apply (Hb' r).
        - exfalso. assert (E' : nth_error (b ++ r :: a) (length b) = Some r)
            by (rewrite nth_error_app2, Nat.sub_diag by lia; reflexivity).
          rewrite <- Hw', nth_error_app1 in E' by lia.
          apply nth_error_In in E'. now apply (Hb r). }
      apply app_eq_app in Hw'.
      destruct Hw' as [l [[H1 H2]|[H1 H2]]].
      * destruct l; [rewrite app_nil_r in H1; subst; now injection H2 as ->|].
        rewrite H1, length_app in H. simpl in H. lia.
      * destruct l; [rewrite app_nil_r in H1; subst; now injection H2 as ->|].
        rewrite H1, length_app in H. simpl in H. lia.
    + unfold scan_hit. fields. reflexivity.
    + now apply scan_hit_scanned.
  - intros j r' _ Hj. apply nth_error_In in Hj. rewrite Hcm in Hj.
    apply in_app_or in Hj. destruct Hj; auto.
Qed.

(** ** The finish callback and the dispatch around it *)

Lemma finish_scanned_scanned c w : scanned c w (finish_scanned c w).
Proof.
  unfold finish_scanned, finish_scan.
  pose proof (scan_scanned c (length (commands w)) 0 None (log (EvOnFinish c) w)) as S.
  destruct S as [S1 S2 S3 S4 S5 S6 S7 S8 S9 S10 S11].
  constructor; fields; auto.
Qed.

(** The scan does not touch the factory, its counter or the loader. *)
Lemma scan_factory c : forall n i config w,
  makeConnection (fst (scan n i c config w)) = makeConnection w
  /\ factoryCalls (fst (scan n i c config w)) = factoryCalls w.
Proof.
  induction n as [|n IH]; intros i config w; simpl; [now split|].
  destruct (nth_error (commands w) i) as [cmd|]; [|now split].
  destruct (Nat.eqb (rec_command cmd) c); [|apply IH].
  fold (scan_hit cmd w).
  destruct (IH (S i) (rec_config cmd) (scan_hit cmd w)) as [A B].
  rewrite A, B. unfold scan_hit, debugPrint. destruct (debug _); now split.
Qed.

Lemma finish_scanned_factory c w :
  makeConnection (finish_scanned c w) = makeConnection w
  /\ factoryCalls (finish_scanned c w) = factoryCalls w.
Proof.
  unfold finish_scanned, finish_scan, debugPrint.
  destruct (scan_factory c (length (commands w)) 0 None (log (EvOnFinish c) w))
    as [A B].
  destruct (debug _); fields; now split.
Qed.

Lemma scan_loader c : forall n i config w,
  makeConfig (fst (scan n i c config w)) = makeConfig w.
Proof.
  induction n as [|n IH]; intros i config w; simpl; [reflexivity|].
  destruct (nth_error (commands w) i) as [cmd|]; [|reflexivity].
  destruct (Nat.eqb (rec_command cmd) c); [|apply IH].
  fold (scan_hit cmd w). rewrite IH.
  unfold scan_hit, debugPrint. now destruct (debug _).
Qed.

Lemma finish_scanned_loader c w :
  makeConfig (finish_scanned c w) = makeConfig w.
Proof.
  unfold finish_scanned, finish_scan, debugPrint.
  pose proof (scan_loader c (length (commands w)) 0 None (log (EvOnFinish c) w)) as A.
  destruct (debug _); fields; exact A.
Qed.

Section Finish.

Variable env : Env.

Lemma onFinish_with_unfold run_rec c w :
  onFinish_with run_rec c w =
  if (0 <? length (waitingCommands (finish_scanned c w)))%nat then
    match Py.pop (waitingCommands (finish_scanned c w)) with
    | None => Raised (IndexError "pop from empty list") (finish_scanned c w)
    | Some (awakenCommand, rest) =>
        run_rec awakenCommand (captured_config c w)
          (set_waitingCommands rest (finish_scanned c w))
    end
  else Returned (finish_scanned c w).
Proof.
  unfold onFinish_with, finish_scanned, captured_config, finish_scan.
  cbn [commands log].
  destruct (scan (length (commands w)) 0 c None (log (EvOnFinish c) w)) as [w1 config].
  reflexivity.
Qed.

(** With a command waiting, the callback pops the last one queued and
    runs it with the captured config. *)
Lemma onFinish_wake run_rec c w ws x :
  waitingCommands w = ws ++ [x] ->
  onFinish_with run_rec c w =
  run_rec x (captured_config c w) (set_waitingCommands ws (finish_scanned c w)).
Proof.
  intro H. rewrite onFinish_with_unfold.
  rewrite (s_waiting _ _ _ (finish_scanned_scanned c w)), H.
  rewrite length_app, pop_app. simpl.
  replace (0 <? length ws + 1)%nat with true by (symmetry; apply Nat.ltb_lt; lia).
  reflexivity.
Qed.

Lemma onFinish_idle run_rec c w :
  waitingCommands w = [] ->
  onFinish_with run_rec c w = Returned (finish_scanned c w).
Proof.
  intro H. rewrite onFinish_with_unfold.
  now rewrite (s_waiting _ _ _ (finish_scanned_scanned c w)), H.
Qed.

Lemma run_S fuel c config w :
  run env (S fuel) c config w =
  try_finally
    (try_except (run_body env fuel c config w)
       (fun e w' => then_reraise e (onFinish env fuel c w')))
    release.
Proof. reflexivity. Qed.

(** A dispatch that returns has recorded, bound and started the
    command and has given the permit back. *)
Lemma run_returned fuel c config w w' :
  run env fuel c config w = Returned w' ->
  exists index batch,
    dispatched c config index batch w w' /\ semaphore w' = semaphore w.
Proof.
  destruct fuel as [|f]; [discriminate|]. rewrite run_S.
  destruct (run_body env f c config w) as [w2|e w2|w2|] eqn:B; simpl;
    try discriminate.
  - intros [= <-].
    destruct (run_body_returned env f c config w w2 B) as (index & batch & D & Hs).
    exists index, batch. split; [|simpl; congruence].
    destruct D as [D1 D2 D3 D4 D5 D6 D7 D8 (evs & D9 & D10 & D11)].
    constructor; fields; auto.
    exists (EvRelease :: evs). rewrite D9. simpl. auto.
  - destruct (onFinish env f c w2); simpl; discriminate.
Qed.

(** A queued command: [addCommand] at or above the limit. *)
Lemma addCommand_queues fuel c config w :
  limit w <= Z.of_nat (length (commands w)) ->
  exists w',
    addCommand env fuel c config w = Returned w'
    /\ waitingCommands w' = waitingCommands w ++ [c]
    /\ commands w' = commands w
    /\ live w' = live w
    /\ connections w' = connections w
    /\ freeConnections w' = freeConnections w
    /\ semaphore w' = semaphore w
    /\ threadId w' = threadId w
    /\ factoryCalls w' = factoryCalls w.
Proof.
  intro H. unfold addCommand. fields.
  apply Z.leb_le in H. rewrite H.
  eexists. split; [reflexivity|]. fields. repeat split; reflexivity.
Qed.

Lemma addCommand_runs fuel c config w :
  Z.of_nat (length (commands w)) < limit w ->
  addCommand env fuel c config w = run env fuel c config (admitted c w).
Proof.
  intro H. unfold addCommand, admitted. fields.
  apply Z.leb_gt in H. now rewrite H.
Qed.

Lemma dispatched_admitted c config index batch w w' :
  dispatched c config index batch (admitted c w) w' ->
  dispatched c config index batch w w'.
Proof.
  intros [D1 D2 D3 D4 D5 D6 D7 D8 (evs & D9 & D10 & D11)].
  unfold admitted in *. fields.
  constructor; auto.
  destruct (debugPrint_trace (MsgAdding c) w) as [e1 H1].
  destruct (debugPrint_trace (MsgRunning c (length (commands w) + 1))
              (debugPrint (MsgAdding c) w)) as [e2 H2].
  exists (evs ++ e2 ++ e1). rewrite D9, H2, H1, <- !app_assoc.
  repeat split; auto using in_or_app.
Qed.

Lemma addCommand_returned fuel c config w w' :
  addCommand env fuel c config w = Returned w' ->
  (limit w <= Z.of_nat (length (commands w))
   /\ waitingCommands w' = waitingCommands w ++ [c]
   /\ commands w' = commands w)
  \/ (Z.of_nat (length (commands w)) < limit w
      /\ exists index batch, dispatched c config index batch w w').
Proof.
  intro H.
  destruct (Z_le_gt_dec (limit w) (Z.of_nat (length (commands w)))) as [L|L].
  - left. destruct (addCommand_queues fuel c config w L) as (w1 & E & Q1 & Q2 & _).
    rewrite E in H. injection H as <-. auto.
  - right. split; [lia|].
    rewrite addCommand_runs in H by lia.
    apply run_returned in H. destruct H as (index & batch & D & _).
    exists index, batch. now apply dispatched_admitted.
Qed.

(** With a permit free, a batch coming from the factory and no failure
    in binding or starting, the try block of [__run] returns. *)
Lemma run_body_succeeds fuel c config w batch :
  semaphore w <> O ->
  factory_returns config w batch ->
  setConnection_at env (S (threadId w)) = None ->
  start_at env (S (threadId w)) = None ->
  exists w',
    run_body env fuel c config w = Returned w'
    /\ dispatched c config (Z.of_nat (length (connections w) + 1)) batch w w'.
Proof.
  intros Hs Hf Hb Ht.
  assert (X : exists w',
    run_body env fuel c config w = Returned w'
    /\ connections w' = connections w ++ [batch]
    /\ exists thread tid,
         commands w' =
         commands w ++ [mkRecord c config thread
                          (Z.of_nat (length (connections w) + 1)) tid]).
  { unfold run_body.
    destruct (semaphore w) as [|s]; [congruence|].
    fold (acquired s w).
    assert (Hf' : factory_returns config (acquired s w) batch) by exact Hf.
    destruct (fillConnection_returns config _ batch Hf') as (w1 & E & C & F).
    rewrite E. simpl.
    assert (W : wait_free fuel config w1 = Returned w1).
    { destruct fuel; simpl; rewrite F;
        destruct (freeConnections (acquired s w)); reflexivity. }
    rewrite W. simpl. rewrite F, pop_app. fields.
    assert (Fr : frame (acquired s w) w1)
      by (apply (fillConnection_frame config); now rewrite E).
    assert (T : threadId w1 = S (threadId w))
      by (now rewrite (fr_threadId _ _ Fr)).
    replace (Z.of_nat (length (connections (acquired s w)) + 1) - 1)
      with (Z.of_nat (length (connections (acquired s w) ++ [batch])) - 1)
      by (rewrite length_app; reflexivity).
    rewrite C, getitem_last.
    unfold setConnection. fields. rewrite T, Hb. simpl.
    unfold start. cbn [rc_id]. fields. rewrite T, Ht.
    eexists. split; [reflexivity|]. fields.
    split; [exact C|].
    rewrite (fr_commands _ _ Fr). eauto. }
  destruct X as (w' & E & C & thread & tid & R).
  exists w'. split; [exact E|].
  destruct (run_body_returned env fuel c config w w' E) as (index & batch' & D & _).
  pose proof (d_commands _ _ _ _ _ _ D) as R'.
  rewrite R in R'. apply app_inj_tail in R'. destruct R' as [_ R'].
  injection R' as _ Hi _.
  pose proof (d_batch _ _ _ _ _ _ D) as G.
  rewrite <- Hi, C in G.
  replace (Z.of_nat (length (connections w) + 1))
    with (Z.of_nat (length (connections w ++ [batch]))) in G
    by (rewrite length_app; reflexivity).
  rewrite getitem_last in G. injection G as <-.
  now rewrite Hi.
Qed.

Lemma run_succeeds fuel c config w batch :
  semaphore w <> O ->
  factory_returns config w batch ->
  setConnection_at env (S (threadId w)) = None ->
  start_at env (S (threadId w)) = None ->
  exists w',
    run env (S fuel) c config w = Returned w'
    /\ dispatched c config (Z.of_nat (length (connections w) + 1)) batch w w'.
Proof.
  intros Hs Hf Hb Ht.
  destruct (run_body_succeeds fuel c config w batch Hs Hf Hb Ht) as (w1 & E & D).
  assert (R : exists w', run env (S fuel) c config w = Returned w').
  { rewrite run_S, E. unfold try_except, try_finally, release.
    eexists. reflexivity. }
  destruct R as [w' R]. exists w'. split; [exact R|].
  pose proof R as R0. rewrite run_S, E in R0. simpl in R0. injection R0 as <-.
  destruct D as [D1 D2 D3 D4 D5 D6 D7 D8 (evs & D9 & D10 & D11)].
  constructor; fields; auto.
  exists (EvRelease :: evs). rewrite D9. simpl. auto.
Qed.

End Finish.

(** ** Admission, wake-up and emptiness *)

Lemma isEmpty_spec (w : World) :
  isEmpty w = true <-> commands w = [] /\ waitingCommands w = [].
Proof.
  unfold isEmpty. rewrite andb_true_iff, !Nat.eqb_eq, !length_zero_iff_nil.
  tauto.
Qed.

Lemma dispatched_not_empty c config index batch w w' :
  dispatched c config index batch w w' -> isEmpty w' = false.
Proof.
  intros D. destruct (isEmpty w') eqn:E; [|reflexivity].
  apply isEmpty_spec in E. destruct E as [E _].
  rewrite (d_commands _ _ _ _ _ _ D) in E.
  now apply app_eq_nil in E.
Qed.

Section Claims.

Variable env : Env.

(** C3.  At or above the limit [addCommand] returns with the command
    appended to the wait queue, the running list and the started
    threads as they were.  Below the limit it is the dispatch of the
    command: whenever the call returns, the command is recorded as
    running, bound to the batch at its index and started; and the call
    does return when a permit is free, the factory delivers a batch and
    neither [setConnection] nor [start] raises. *)
Theorem C3_admission (fuel : nat) (c : Command) (config : option Config) (w : World) :
  (limit w <= Z.of_nat (length (commands w)) ->
     exists w', addCommand env fuel c config w = Returned w'
       /\ waitingCommands w' = waitingCommands w ++ [c]
       /\ commands w' = commands w
       /\ live w' = live w)
  /\ (Z.of_nat (length (commands w)) < limit w ->
        addCommand env fuel c config w = run env fuel c config (admitted c w)
        /\ (forall w', addCommand env fuel c config w = Returned w' ->
              exists index batch, dispatched c config index batch w w')
        /\ (forall batch,
              semaphore w <> O ->
              factory_returns config w batch ->
              setConnection_at env (S (threadId w)) = None ->
              start_at env (S (threadId w)) = None ->
              exists w',
                addCommand env (S fuel) c config w = Returned w'
                /\ dispatched c config
                     (Z.of_nat (length (connections w) + 1)) batch w w')).
Proof.
  split.
  - intro H. destruct (addCommand_queues env fuel c config w H)
      as (w' & E & Q1 & Q2 & Q3 & _). eauto.
  - intro H. split; [now apply addCommand_runs|]. split.
    + intros w' E. apply addCommand_returned in E.
      destruct E as [[L _]|[_ D]]; [lia|exact D].
    + intros batch Hs Hf Hb Ht.
      assert (Hf' : factory_returns config (admitted c w) batch).
      { unfold factory_returns, admitted in *. fields. exact Hf. }
      assert (Hs' : semaphore (admitted c w) <> O)
        by (unfold admitted; fields; exact Hs).
      assert (Ht' : threadId (admitted c w) = threadId w)
        by (unfold admitted; fields; reflexivity).
      assert (Hc : connections (admitted c w) = connections w)
        by (unfold admitted; fields; reflexivity).
      destruct (run_succeeds env fuel c config (admitted c w) batch Hs' Hf')
        as (w' & E & D); [now rewrite Ht'|now rewrite Ht'|].
      exists w'. split; [rewrite addCommand_runs by exact H; exact E|].
      rewrite Hc in D. now apply dispatched_admitted.
Qed.

(** The wake-up of the callback where the dispatch can succeed: with
    a permit free, a factory that delivers for the captured config and
    a command that takes its connection and starts, the callback
    returns with the last command queued running on the new batch. *)
Lemma onFinish_wake_succeeds fuel c x ws w batch :
  waitingCommands w = ws ++ [x] ->
  semaphore w <> O ->
  factory_returns (captured_config c w) w batch ->
  setConnection_at env (S (threadId w)) = None ->
  start_at env (S (threadId w)) = None ->
  exists w',
    onFinish env (S fuel) c w = Returned w'
    /\ waitingCommands w' = ws
    /\ dispatched x (captured_config c w)
         (Z.of_nat (length (connections w) + 1)) batch
         (set_waitingCommands ws (finish_scanned c w)) w'.
Proof.
  intros H Hs (Hl & Hm & Hb) Hc Ht.
  pose proof (finish_scanned_scanned c w) as Sc.
  destruct (finish_scanned_factory c w) as [M F].
  pose proof (finish_scanned_loader c w) as L.
  destruct (run_succeeds env fuel x (captured_config c w)
              (set_waitingCommands ws (finish_scanned c w)) batch)
    as (w' & E & D).
  - fields. now rewrite (s_semaphore _ _ _ Sc).
  - unfold factory_returns. fields.
    rewrite (s_connections _ _ _ Sc), (s_limit _ _ _ Sc), M, F, L. auto.
  - fields. now rewrite (s_threadId _ _ _ Sc).
  - fields. now rewrite (s_threadId _ _ _ Sc).
  - exists w'. unfold onFinish. rewrite (onFinish_wake _ c w ws x H).
    split; [exact E|]. split.
    + rewrite (d_waiting _ _ _ _ _ _ D). fields. reflexivity.
    + replace (connections w)
        with (connections (set_waitingCommands ws (finish_scanned c w)))
        by (fields; apply (s_connections _ _ _ Sc)).
      exact D.
Qed.

(** C4.  With the wait queue ending in [x], the finish callback for
    [c] is the dispatch of [x], taken off the end of the queue, with
    the config the scan captured; that config is the one in the record
    of [c] when [c] has one record; when the callback returns, [x] is
    running and the queue is what was queued before [x]; and the
    callback does return so, with [x] recorded, bound to the batch the
    factory delivers for the captured config and started, when a
    permit is free, the factory delivers and neither [setConnection]
    nor [start] raises. *)
Theorem C4_wake_last_queued (fuel : nat) (c x : Command) (ws : list Command)
    (w : World) :
  waitingCommands w = ws ++ [x] ->
  onFinish env fuel c w =
    run env fuel x (captured_config c w)
      (set_waitingCommands ws (finish_scanned c w))
  /\ (forall r, only_record r c w -> captured_config c w = rec_config r)
  /\ (forall w', onFinish env fuel c w = Returned w' ->
        waitingCommands w' = ws
        /\ exists index batch,
             dispatched x (captured_config c w) index batch
               (set_waitingCommands ws (finish_scanned c w)) w')
  /\ (forall batch,
        semaphore w <> O ->
        factory_returns (captured_config c w) w batch ->
        setConnection_at env (S (threadId w)) = None ->
        start_at env (S (threadId w)) = None ->
        exists w',
          onFinish env (S fuel) c w = Returned w'
          /\ waitingCommands w' = ws
          /\ dispatched x (captured_config c w)
               (Z.of_nat (length (connections w) + 1)) batch
               (set_waitingCommands ws (finish_scanned c w)) w').
Proof.
  intro H. split; [|split; [|split]].
  - unfold onFinish. now apply onFinish_wake.
  - intros r Hr.
    assert (Hr' : only_record r c (log (EvOnFinish c) w)) by exact Hr.
    destruct (scan_only_record c r _ Hr') as (w1 & E & _).
    unfold captured_config, finish_scan.
    cbn [commands log] in E. now rewrite E.
  - intros w' E. unfold onFinish in E.
    rewrite (onFinish_wake _ c w ws x H) in E.
    apply run_returned in E. destruct E as (index & batch & D & _).
    split; [|eauto].
    now rewrite (d_waiting _ _ _ _ _ _ D).
  - intros batch Hs Hf Hc Ht.
    exact (onFinish_wake_succeeds fuel c x ws w batch H Hs Hf Hc Ht).
Qed.

(** C8.  [isEmpty] holds exactly when nothing runs and nothing waits;
    it does not hold after an [addCommand] that returned; and after a
    finish callback that returned it holds only if nothing was queued
    and every record left was one of the finished command. *)
Theorem C8_isEmpty (fuel : nat) (c : Command) (config : option Config) (w : World) :
  (isEmpty w = true <-> commands w = [] /\ waitingCommands w = [])
  /\ (forall w', addCommand env fuel c config w = Returned w' -> isEmpty w' = false)
  /\ (forall w', onFinish env fuel c w = Returned w' -> isEmpty w' = true ->
        waitingCommands w = []
        /\ forall r, In r (commands w) -> rec_command r = c).
Proof.
  split; [apply isEmpty_spec|]. split.
  - intros w' E. apply addCommand_returned in E.
    destruct E as [(_ & Q & _)|(_ & index & batch & D)].
    + destruct (isEmpty w') eqn:I; [|reflexivity].
      apply isEmpty_spec in I. destruct I as [_ I].
      rewrite Q in I. now apply app_eq_nil in I.
    + eapply dispatched_not_empty; eauto.
  - intros w' E I. unfold onFinish in E.
    destruct (Py.pop (waitingCommands w)) as [[x ws]|] eqn:P.
    + apply pop_some in P.
      rewrite (onFinish_wake _ c w ws x P) in E.
      apply run_returned in E. destruct E as (index & batch & D & _).
      rewrite (dispatched_not_empty _ _ _ _ _ _ D) in I. discriminate.
    + apply pop_none in P. split; [exact P|].
      rewrite (onFinish_idle _ c w P) in E. injection E as <-.
      apply isEmpty_spec in I. destruct I as [I _].
      intros r Hr. destruct (Nat.eq_dec (rec_command r) c) as [|Hne]; [assumption|].
      pose proof (s_keep _ _ _ (finish_scanned_scanned c w) r Hr Hne) as K.
      rewrite I in K. destruct K.
Qed.

(** C9.  A factory call that delivers a batch, of whatever size, adds
    the batch to the connection list and exactly one index to the free
    list, the new length of the connection list, at which the batch is
    found; a dispatch that returns has bound the command to the whole
    batch at the index written in its record; and the dispatch for
    which the factory has just delivered a batch returns, when binding
    and starting do not raise, with the command bound to that batch. *)
Theorem C9_one_index_per_batch (fuel : nat) (c : Command) (config : option Config)
    (w : World) :
  (forall batch, factory_returns config w batch ->
     exists w', fillConnection config w = Returned w'
       /\ connections w' = connections w ++ [batch]
       /\ freeConnections w' =
            freeConnections w ++ [Z.of_nat (length (connections w'))]
       /\ Py.getitem (connections w') (Z.of_nat (length (connections w')) - 1)
          = Some batch)
  /\ (forall w', run env fuel c config w = Returned w' ->
        exists index batch thread evs,
          commands w' =
            commands w ++ [mkRecord c config thread index (S (threadId w))]
          /\ Py.getitem (connections w') (index - 1) = Some batch
          /\ trace w' = evs ++ trace w
          /\ In (EvSetConnection c batch) evs)
  /\ (forall batch,
        semaphore w <> O ->
        factory_returns config w batch ->
        setConnection_at env (S (threadId w)) = None ->
        start_at env (S (threadId w)) = None ->
        exists w',
          run env (S fuel) c config w = Returned w'
          /\ dispatched c config (Z.of_nat (length (connections w) + 1))
               batch w w').
Proof.
  split; [|split; [|now apply run_succeeds]].
  - intros batch Hf.
    destruct (fillConnection_returns config w batch Hf) as (w' & E & C & F).
    exists w'. split; [exact E|]. split; [exact C|]. split.
    + rewrite F, C, length_app. reflexivity.
    + rewrite C. apply getitem_last.
  - intros w' E. apply run_returned in E.
    destruct E as (index & batch & D & _).
    destruct D as [D1 D2 D3 D4 D5 D6 D7 D8 (evs & D9 & D10 & D11)].
    exists index, batch, (mkRunningCommand c (debug w) (S (threadId w))), evs.
    auto.
Qed.

(** C10.  When no record is one of [c], the scan of the finish
    callback leaves the running list and the free list as they are and
    captures no config; the callback then returns if nothing waits, and
    otherwise is the dispatch of the last command queued with config
    [None]; and that dispatch does happen: when a permit is free, the
    factory delivers for config [None] and neither [setConnection] nor
    [start] raises, the callback returns with the last command queued
    taken off the queue and added, with config [None], to a running
    list that lost no record, bound to the new batch and started. *)
Theorem C10_finish_without_record (fuel : nat) (c : Command) (w : World) :
  (forall r, In r (commands w) -> rec_command r <> c) ->
  commands (finish_scanned c w) = commands w
  /\ freeConnections (finish_scanned c w) = freeConnections w
  /\ captured_config c w = None
  /\ (waitingCommands w = [] ->
        onFinish env fuel c w = Returned (finish_scanned c w))
  /\ (forall ws x, waitingCommands w = ws ++ [x] ->
        onFinish env fuel c w =
          run env fuel x None (set_waitingCommands ws (finish_scanned c w)))
  /\ (forall ws x batch,
        waitingCommands w = ws ++ [x] ->
        semaphore w <> O ->
        factory_returns None w batch ->
        setConnection_at env (S (threadId w)) = None ->
        start_at env (S (threadId w)) = None ->
        exists w',
          onFinish env (S fuel) c w = Returned w'
          /\ waitingCommands w' = ws
          /\ commands w' =
               commands w ++
               [mkRecord x None (mkRunningCommand x (debug w) (S (threadId w)))
                  (Z.of_nat (length (connections w) + 1)) (S (threadId w))]
          /\ dispatched x None (Z.of_nat (length (connections w) + 1)) batch
               (set_waitingCommands ws (finish_scanned c w)) w').
Proof.
  intro H.
  assert (E : finish_scan c w = (log (EvOnFinish c) w, None)).
  { unfold finish_scan. apply scan_no_record.
    intros j r _ Hj. apply nth_error_In in Hj. now apply H. }
  assert (Hc : captured_config c w = None)
    by (unfold captured_config; now rewrite E).
  assert (Hk : commands (finish_scanned c w) = commands w)
    by (unfold finish_scanned; rewrite E; fields; reflexivity).
  assert (Hf : freeConnections (finish_scanned c w) = freeConnections w)
    by (unfold finish_scanned; rewrite E; fields; reflexivity).
  split; [exact Hk|]. split; [exact Hf|]. split; [exact Hc|].
  split; [|split].
  - intro Hw. unfold onFinish. now rewrite (onFinish_idle _ c w Hw).
  - intros ws x Hw. unfold onFinish. now rewrite (onFinish_wake _ c w ws x Hw), Hc.
  - intros ws x batch Hw Hs Hr Hb Ht.
    rewrite <- Hc in Hr.
    destruct (onFinish_wake_succeeds fuel c x ws w batch Hw Hs Hr Hb Ht)
      as (w' & R & W & D).
    rewrite Hc in D.
    pose proof (finish_scanned_scanned c w) as Sc.
    exists w'. split; [exact R|]. split; [exact W|]. split; [|exact D].
    rewrite (d_commands _ _ _ _ _ _ D). fields.
    now rewrite Hk, (s_debug _ _ _ Sc), (s_threadId _ _ _ Sc).
Qed.

End Claims.

(** ** The executor *)

Section Executor.

Variable env : Env.

Lemma rc_debugPrint_text rc m w :
  rc_debugPrint rc (RcText m) w = Returned (rc_say rc m w).
Proof. unfold rc_debugPrint, rc_say. now destruct (rc_debug rc). Qed.

Lemma rc_say_trace rc m w : exists evs,
  trace (rc_say rc m w) = evs ++ trace w /\ executions (rc_command rc) evs = O.
Proof.
  unfold rc_say.
  destruct (rc_debug rc); [exists [EvPrint m]|exists []]; split; reflexivity.
Qed.

Lemma poll_stops rc : forall n fuel k w,
  stops_running env (rc_id rc) k n -> (n < fuel)%nat ->
  poll env fuel rc k w = Returned (polled rc n w).
Proof.
  induction n as [|n IH]; intros fuel k w [Hf Ht] Hlt;
    (destruct fuel as [|fuel]; [lia|]); simpl.
  - rewrite Nat.add_0_r in Hf. now rewrite Hf.
  - rewrite <- (Nat.add_0_r k), (Ht O) by lia.
    rewrite rc_debugPrint_text. simpl. rewrite Nat.add_0_r.
    apply IH; [|lia]. split.
    + now rewrite Nat.add_succ_comm.
    + intros j Hj. rewrite Nat.add_succ_comm. apply Ht. lia.
Qed.

Lemma polled_trace rc : forall n w, exists evs,
  trace (polled rc n w) = evs ++ trace w /\ executions (rc_command rc) evs = O.
Proof.
  induction n as [|n IH]; intro w; simpl.
  - exists [EvIsRunning (rc_command rc) false]. split; reflexivity.
  - destruct (IH (log (EvSleep 5)
       (rc_say rc (MsgIsRunning (rc_id rc)) (log (EvIsRunning (rc_command rc) true) w))))
      as (e1 & H1 & X1).
    destruct (rc_say_trace rc (MsgIsRunning (rc_id rc))
                (log (EvIsRunning (rc_command rc) true) w)) as (e2 & H2 & X2).
    exists (e1 ++ EvSleep 5 :: e2 ++ [EvIsRunning (rc_command rc) true]).
    split.
    + rewrite H1. simpl. rewrite H2. simpl.
      rewrite <- !app_assoc. simpl. now rewrite <- !app_assoc.
    + unfold executions in *. rewrite !filter_app, !length_app in *. simpl.
      rewrite filter_app, length_app. simpl. lia.
Qed.

Lemma iter_log_trace (ev : Event) (k : nat) (w : World) :
  trace (Nat.iter k (log ev) w) = repeat ev k ++ trace w.
Proof. induction k as [|k IH]; simpl; [reflexivity|now rewrite IH]. Qed.

Lemma executions_repeat (c : Command) (k : nat) :
  executions c (repeat (EvExecute c) k) = k.
Proof.
  unfold executions. induction k as [|k IH]; simpl; [reflexivity|].
  rewrite Nat.eqb_refl. simpl. now rewrite IH.
Qed.

Lemma finished_trace rc tries n w : exists evs,
  trace (finished rc tries n w) = evs ++ trace w
  /\ executions (rc_command rc) evs = tries.
Proof.
  unfold finished.
  destruct (polled_trace rc n
    (rc_say rc (MsgEnding (rc_id rc))
       (Nat.iter tries (log (EvExecute (rc_command rc)))
          (rc_say rc (MsgExecuting (rc_id rc)) w)))) as (e1 & H1 & X1).
  destruct (rc_say_trace rc (MsgEnding (rc_id rc))
       (Nat.iter tries (log (EvExecute (rc_command rc)))
          (rc_say rc (MsgExecuting (rc_id rc)) w))) as (e2 & H2 & X2).
  destruct (rc_say_trace rc (MsgExecuting (rc_id rc)) w) as (e3 & H3 & X3).
  exists (e1 ++ e2 ++ repeat (EvExecute (rc_command rc)) tries ++ e3).
  split.
  - now rewrite H1, H2, iter_log_trace, H3, <- !app_assoc.
  - pose proof (executions_repeat (rc_command rc) tries) as R.
    unfold executions in *. rewrite !filter_app, !length_app, X1, X2, X3, R.
    lia.
Qed.

(** Without debugging the executor does what it is meant to do: one
    call of [execute()], a second one exactly when the first raised,
    the polling, and then the callback once; an exception of the second
    call goes on after the callback. *)
Lemma run_without_debug fuel rc onFinish w n :
  rc_debug rc = false ->
  stops_running env (rc_id rc) 0 n -> (n < fuel)%nat ->
  RunningCommand_run env fuel rc onFinish w =
  match execute_at env (rc_id rc) 0 with
  | None => onFinish (rc_command rc) (finished rc 1 n w)
  | Some _ =>
      match execute_at env (rc_id rc) 1 with
      | None => onFinish (rc_command rc) (finished rc 2 n w)
      | Some e2 => then_reraise e2 (onFinish (rc_command rc) (finished rc 2 n w))
      end
  end.
Proof.
  intros Hd Hn Hf. unfold RunningCommand_run, finished.
  rewrite !rc_debugPrint_text. simpl. unfold execute at 1.
  destruct (execute_at env (rc_id rc) 0) as [e|]; simpl.
  - unfold rc_debugPrint at 1. rewrite Hd. simpl.
    rewrite rc_debugPrint_text. simpl. unfold execute.
    assert (Q : forall m w0, rc_say rc m w0 = w0)
      by (intros; unfold rc_say; now rewrite Hd).
    destruct (execute_at env (rc_id rc) 1) as [e2|]; simpl;
      rewrite rc_debugPrint_text; simpl;
      rewrite (poll_stops rc n fuel 0 _ Hn Hf), !Q; reflexivity.
  - rewrite rc_debugPrint_text. simpl.
    rewrite (poll_stops rc n fuel 0 _ Hn Hf). reflexivity.
Qed.

(** C2, where the code departs from it.  With debugging on, a first
    [execute()] that raises is not followed by a second call: printing
    the exception is itself a TypeError, which leaves the handler.  The
    polling and the callback still take place, once, and the TypeError
    goes on after them. *)
Theorem C2_no_retry_when_debugging (fuel : nat) (rc : RunningCommand)
    (onFinish : Command -> Action) (w : World) (e : Exn) (n : nat) :
  rc_debug rc = true ->
  execute_at env (rc_id rc) 0 = Some e ->
  stops_running env (rc_id rc) 0 n -> (n < fuel)%nat ->
  RunningCommand_run env fuel rc onFinish w =
    then_reraise (TypeError "can only concatenate str to str")
      (onFinish (rc_command rc) (finished rc 1 n w))
  /\ exists evs, trace (finished rc 1 n w) = evs ++ trace w
       /\ executions (rc_command rc) evs = 1%nat.
Proof.
  intros Hd He Hn Hf. split; [|apply finished_trace].
  unfold RunningCommand_run, finished.
  rewrite !rc_debugPrint_text. simpl. unfold execute at 1.
  rewrite He. simpl.
  unfold rc_debugPrint at 1. rewrite Hd. simpl.
  rewrite rc_debugPrint_text. simpl.
  rewrite (poll_stops rc n fuel 0 _ Hn Hf). reflexivity.
Qed.

End Executor.

(** ** The bound on running commands *)

Lemma same_pool_refl w : same_pool w w.
Proof. now constructor. Qed.

Lemma same_pool_trans w1 w2 w3 : same_pool w1 w2 -> same_pool w2 w3 -> same_pool w1 w3.
Proof. intros [] []. constructor; congruence. Qed.

Lemma sound_same_pool w w' : same_pool w w' -> sound w -> sound w'.
Proof.
  intros [_ _ C W L] [S1 S2 S3 S4].
  unfold live_commands, record_commands in *.
  constructor; unfold live_commands, record_commands; rewrite ?C, ?W, ?L; auto.
Qed.

Lemma sound_scanned c w w' :
  scanned c w w' -> sound w -> ~ In c (live_commands w) -> sound w'.
Proof.
  intros Sc [S1 S2 S3 S4] Hc.
  unfold live_commands, record_commands in *.
  constructor; unfold live_commands, record_commands;
    rewrite ?(s_live _ _ _ Sc), ?(s_waiting _ _ _ Sc); auto.
  - intros x Hx. pose proof (S2 x Hx) as R.
    apply in_map_iff in R. destruct R as (r & Hr & Hin).
    apply in_map_iff. exists r. split; [exact Hr|].
    apply (s_keep _ _ _ Sc r Hin). congruence.
  - intros x Hx R. apply (S4 x Hx).
    apply in_map_iff in R. destruct R as (r & Hr & Hin).
    apply in_map_iff. exists r. split; [exact Hr|].
    now apply (s_incl _ _ _ Sc).
Qed.

Lemma sound_dispatched c config index batch w w' :
  dispatched c config index batch w w' -> sound w -> fresh_command c w -> sound w'.
Proof.
  intros D [S1 S2 S3 S4] [F1 F2].
  unfold live_commands, record_commands in *.
  constructor; unfold live_commands, record_commands;
    rewrite ?(d_live _ _ _ _ _ _ D), ?(d_commands _ _ _ _ _ _ D),
            ?(d_waiting _ _ _ _ _ _ D), ?map_app; simpl; auto.
  - apply NoDup_app; [exact S1|repeat constructor; auto|].
    intros x Hx [<-|[]]. auto.
  - intros x Hx. apply in_app_or in Hx. apply in_or_app.
    destruct Hx as [Hx|Hx]; [left; auto|right; exact Hx].
  - intros x Hx R. apply in_app_or in R.
    destruct R as [R|[<-|[]]]; [now apply (S4 x)|auto].
Qed.

Lemma sound_failed c w w' :
  failed c w w' -> sound w -> fresh_command c w ->
  sound w' /\ ~ In c (live_commands w').
Proof.
  intros Fl [S1 S2 S3 S4] [F1 F2].
  unfold live_commands, record_commands in *.
  rewrite (f_live _ _ _ Fl). split; [|auto].
  constructor; unfold live_commands, record_commands;
    rewrite ?(f_live _ _ _ Fl), ?(f_waiting _ _ _ Fl); auto.
  - intros x Hx. destruct (f_commands _ _ _ Fl) as [->|(r & Hr & ->)]; [auto|].
    rewrite map_app. apply in_or_app. left. auto.
  - intros x Hx R. destruct (f_commands _ _ _ Fl) as [E|(r & Hr & E)];
      rewrite E in R; [now apply (S4 x)|].
    rewrite map_app in R. apply in_app_or in R.
    destruct R as [R|[R|[]]]; [now apply (S4 x)|].
    simpl in R. congruence.
Qed.

(** With a record of [c], the scan of the callback frees a place. *)
Lemma finish_scanned_shrinks c w :
  In c (record_commands w) ->
  (S (length (commands (finish_scanned c w))) <= length (commands w))%nat.
Proof.
  intro H. apply in_map_iff in H. destruct H as (r & Hr & Hin).
  apply In_nth_error in Hin. destruct Hin as [j Hj].
  assert (j < length (commands w))%nat
    by (apply nth_error_Some; congruence).
  unfold finish_scanned, finish_scan. fields.
  apply (scan_shrinks c (length (commands w)) 0 None (log (EvOnFinish c) w) j r);
    auto; lia.
Qed.

Lemma take_thread_split tid : forall l rc rest,
  take_thread tid l = Some (rc, rest) ->
  exists l1 l2, l = l1 ++ rc :: l2 /\ rest = l1 ++ l2.
Proof.
  induction l as [|a l IH]; intros rc rest; simpl; [discriminate|].
  destruct (Nat.eqb (rc_id a) tid).
  - intros [= -> ->]. now exists [], rest.
  - destruct (take_thread tid l) as [[x r']|]; [|discriminate].
    intros [= -> <-]. destruct (IH rc r' eq_refl) as (l1 & l2 & -> & ->).
    now exists (a :: l1), l2.
Qed.

Section Bound.

Variable env : Env.

Lemma onFinish_keeps fuel :
  run_keeps env fuel ->
  forall c w w',
    sound w -> ~ In c (live_commands w) ->
    world_of (onFinish env fuel c w) = Some w' ->
    sound w'
    /\ (length (commands w') <= S (length (commands (finish_scanned c w))))%nat
    /\ limit w' = limit w.
Proof.
  intros IH c w w' Sw Hc H.
  pose proof (finish_scanned_scanned c w) as Sc.
  pose proof (sound_scanned c _ _ Sc Sw Hc) as Ss.
  unfold onFinish in H.
  destruct (Py.pop (waitingCommands w)) as [[x ws]|] eqn:P.
  - apply pop_some in P. rewrite (onFinish_wake _ c w ws x P) in H.
    assert (Wx : waitingCommands (finish_scanned c w) = ws ++ [x])
      by (now rewrite (s_waiting _ _ _ Sc)).
    destruct Ss as [S1 S2 S3 S4]. rewrite Wx in S3, S4.
    apply NoDup_remove in S3. rewrite app_nil_r in S3. destruct S3 as [S3 S3'].
    destruct (IH x (captured_config c w)
                (set_waitingCommands ws (finish_scanned c w)) w') as (A & B & C).
    + constructor; auto. intros y Hy. apply S4, in_or_app. now left.
    + split; [|exact S3'].
      apply S4, in_or_app. right. now left.
    + exact H.
    + split; [exact A|]. split; [exact B|].
      rewrite C. apply (s_limit _ _ _ Sc).
  - apply pop_none in P. rewrite (onFinish_idle _ c w P) in H.
    injection H as <-. split; [exact Ss|]. split; [lia|].
    apply (s_limit _ _ _ Sc).
Qed.

Lemma run_keeps_all : forall fuel, run_keeps env fuel.
Proof.
  induction fuel as [|f IH]; intros c config w w' Sw Fc H; [discriminate|].
  rewrite run_S in H.
  destruct (run_body env f c config w) as [w2|e w2|w2|] eqn:B; simpl in H.
  - injection H as <-.
    destruct (run_body_returned env f c config w w2 B) as (index & batch & D & _).
    assert (P : same_pool w2 (log EvRelease (set_semaphore (S (semaphore w2)) w2)))
      by now constructor.
    split; [apply (sound_same_pool _ _ P), (sound_dispatched _ _ _ _ _ _ D Sw Fc)|].
    fields. rewrite (d_commands _ _ _ _ _ _ D), length_app. simpl.
    split; [lia|apply (d_limit _ _ _ _ _ _ D)].
  - destruct (run_body_raised env f c config w e w2 B) as [Fl _].
    destruct (sound_failed c w w2 Fl Sw Fc) as [S2 L2].
    assert (Len : (length (commands (finish_scanned c w2)) <= length (commands w))%nat).
    { destruct (f_commands _ _ _ Fl) as [E|(r & Hr & E)].
      - rewrite <- E. apply (s_length _ _ _ (finish_scanned_scanned c w2)).
      - assert (In c (record_commands w2)).
        { unfold record_commands. rewrite E, map_app. apply in_or_app. right.
          simpl. auto. }
        apply finish_scanned_shrinks in H0. rewrite E, length_app in H0.
        simpl in H0. lia. }
    assert (K : forall w3, world_of (onFinish env f c w2) = Some w3 ->
                forall w4, same_pool w3 w4 ->
                sound w4 /\ (length (commands w4) <= S (length (commands w)))%nat
                /\ limit w4 = limit w).
    { intros w3 H3 w4 P.
      destruct (onFinish_keeps f IH c w2 w3 S2 L2 H3) as (A & B' & C).
      split; [now apply (sound_same_pool w3)|].
      rewrite (sp_commands _ _ P), (sp_limit _ _ P), C, (f_limit _ _ _ Fl).
      split; [lia|reflexivity]. }
    destruct (onFinish env f c w2) as [w3|e3 w3|w3|]; simpl in H;
      try discriminate; injection H as <-;
      apply (K w3 eq_refl); try apply same_pool_refl; now constructor.
  - injection H as <-.
    destruct (run_body_blocked env f c config w w2 B) as [_ ->].
    split; [exact Sw|]. split; [lia|reflexivity].
  - discriminate.
Qed.

(** The executor changes the pool only through its callback. *)
Lemma poll_same_pool rc : forall fuel k w w',
  poll env fuel rc k w = Returned w' -> same_pool w w'.
Proof.
  induction fuel as [|f IH]; intros k w w'; simpl; [discriminate|].
  destruct (isRunning_at env (rc_id rc) k).
  - rewrite rc_debugPrint_text. simpl. intro H. apply IH in H.
    eapply same_pool_trans; [|exact H].
    unfold rc_say. destruct (rc_debug rc); now constructor.
  - intros [= <-]. now constructor.
Qed.

Lemma poll_outcome rc : forall fuel k w,
  (exists w', poll env fuel rc k w = Returned w') \/ poll env fuel rc k w = OutOfFuel.
Proof.
  induction fuel as [|f IH]; intros k w; simpl; [now right|].
  destruct (isRunning_at env (rc_id rc) k); [|eauto].
  rewrite rc_debugPrint_text. simpl. apply IH.
Qed.

Lemma world_of_then_reraise e o : world_of (then_reraise e o) = world_of o.
Proof. now destruct o. Qed.

Lemma same_pool_log ev w : same_pool w (log ev w).
Proof. now constructor. Qed.

Lemma rc_say_same_pool rc m w : same_pool w (rc_say rc m w).
Proof. unfold rc_say. destruct (rc_debug rc); now constructor. Qed.

(** It returns or raises, and touches nothing of the pool. *)
Lemma executor_body rc w :
  exists w1, same_pool w w1
    /\ (executor_try env rc w = Returned w1 \/ exists e, executor_try env rc w = Raised e w1).
Proof.
  remember (executor_try env rc w) as o eqn:H. unfold executor_try in H.
  rewrite rc_debugPrint_text in H. simpl in H. unfold execute at 1 in H.
  pose proof (rc_say_same_pool rc (MsgExecuting (rc_id rc)) w) as P0.
  destruct (execute_at env (rc_id rc) 0) as [e|]; simpl in H.
  - unfold rc_debugPrint at 1 in H. destruct (rc_debug rc) eqn:Hd; simpl in H.
    + subst o. eexists. split; [|right; eexists; reflexivity].
      eapply same_pool_trans; [exact P0|now constructor].
    + rewrite rc_debugPrint_text in H. simpl in H. unfold execute in H.
      assert (P1 : same_pool w
                (log (EvExecute (rc_command rc))
                   (rc_say rc (MsgRetrying (rc_id rc))
                      (log (EvExecute (rc_command rc))
                         (rc_say rc (MsgExecuting (rc_id rc)) w))))).
      { eapply same_pool_trans; [exact P0|].
        eapply same_pool_trans; [apply same_pool_log|].
        eapply same_pool_trans; [apply rc_say_same_pool|apply same_pool_log]. }
      destruct (execute_at env (rc_id rc) 1) as [e2|]; simpl in H; subst o;
        eexists; (split; [exact P1|]); [right; eexists|left]; reflexivity.
  - subst o. eexists. split; [|left; reflexivity].
    eapply same_pool_trans; [exact P0|now constructor].
Qed.

(** The finally block reaches the callback whenever it leaves a world. *)
Lemma executor_finally fuel rc onF w1 w' :
  world_of (rc_debugPrint rc (RcText (MsgEnding (rc_id rc))) w1
            >>= poll env fuel rc 0 >>= onF (rc_command rc)) = Some w' ->
  exists w2, same_pool w1 w2 /\ world_of (onF (rc_command rc) w2) = Some w'.
Proof.
  rewrite rc_debugPrint_text. simpl.
  destruct (poll_outcome rc fuel 0 (rc_say rc (MsgEnding (rc_id rc)) w1))
    as [[w2 E]|E]; rewrite E; simpl; [|discriminate].
  intro H. exists w2. split; [|exact H].
  eapply same_pool_trans; [apply rc_say_same_pool|].
  eapply poll_same_pool; eauto.
Qed.

Lemma executor_world fuel rc onF w w' :
  world_of (RunningCommand_run env fuel rc onF w) = Some w' ->
  exists w1, same_pool w w1 /\ world_of (onF (rc_command rc) w1) = Some w'.
Proof.
  unfold RunningCommand_run. fold (executor_try env rc w).
  destruct (executor_body rc w) as (w1 & P & [B|[e B]]); rewrite B; simpl;
    rewrite ?world_of_then_reraise; intro H;
    apply executor_finally in H; destruct H as (w2 & P2 & H);
    exists w2; (split; [eapply same_pool_trans; eauto|exact H]).
Qed.

End Bound.

Section Steps.

Variable env : Env.

Lemma step_keeps fuel s w w' :
  sound w -> Z.of_nat (length (commands w)) <= limit w -> fresh_step s w ->
  world_of (step env fuel s w) = Some w' ->
  sound w' /\ Z.of_nat (length (commands w')) <= limit w' /\ limit w' = limit w.
Proof.
  intros Sw Hl Hf H. destruct s as [c config|tid]; simpl in H.
  - destruct Hf as [F1 F2].
    destruct (Z_le_gt_dec (limit w) (Z.of_nat (length (commands w)))) as [E|E].
    + unfold addCommand in H. fields.
      apply Z.leb_le in E. rewrite E in H.
      injection H as <-. fields. split; [|split; [exact Hl|reflexivity]].
      destruct Sw as [S1 S2 S3 S4].
      unfold live_commands, record_commands in *.
      constructor; unfold live_commands, record_commands; fields; auto.
      * apply NoDup_app; [exact S3|repeat constructor; auto|].
        intros x Hx [<-|[]]. auto.
      * intros x Hx. apply in_app_or in Hx.
        destruct Hx as [Hx|[<-|[]]]; auto.
    + rewrite addCommand_runs in H by lia.
      assert (P : same_pool w (admitted c w))
        by (unfold admitted; constructor; fields; reflexivity).
      destruct (run_keeps_all env fuel c config (admitted c w) w') as (A & B & C).
      * now apply (sound_same_pool w).
      * unfold fresh_command, record_commands in *.
        now rewrite (sp_commands _ _ P), (sp_waiting _ _ P).
      * exact H.
      * rewrite (sp_commands _ _ P) in B. rewrite (sp_limit _ _ P) in C.
        split; [exact A|]. rewrite C. split; [lia|reflexivity].
  - destruct (take_thread tid (live w)) as [[rc rest]|] eqn:T.
    + destruct (take_thread_split tid _ _ _ T) as (l1 & l2 & Hl1 & ->).
      apply executor_world in H. destruct H as (w1 & P & H).
      destruct Sw as [S1 S2 S3 S4].
      unfold live_commands, record_commands in *.
      rewrite Hl1, map_app in S1, S2. simpl in S1, S2.
      assert (S0 : sound (set_live (l1 ++ l2) w)).
      { constructor; unfold live_commands, record_commands; fields; auto.
        - rewrite map_app. now apply NoDup_remove_1 in S1.
        - intros x Hx. apply S2. rewrite map_app in Hx.
          apply in_app_or in Hx. apply in_or_app.
          destruct Hx; [now left|right; now right]. }
      assert (Hc : ~ In (rc_command rc) (live_commands w1)).
      { unfold live_commands. rewrite (sp_live _ _ P). fields.
        rewrite map_app. now apply NoDup_remove_2 in S1. }
      assert (Hr : In (rc_command rc) (record_commands w1)).
      { unfold record_commands. rewrite (sp_commands _ _ P). fields.
        apply S2, in_or_app. right. now left. }
      destruct (onFinish_keeps env fuel (run_keeps_all env fuel) _ w1 w'
                  (sound_same_pool _ _ P S0) Hc H) as (A & B & C).
      apply finish_scanned_shrinks in Hr.
      rewrite (sp_commands _ _ P) in Hr. rewrite (sp_limit _ _ P) in C.
      fields. split; [exact A|]. rewrite C. split; [lia|reflexivity].
    + injection H as <-. auto.
Qed.

Lemma steps_keep fuel : forall l w w',
  sound w -> Z.of_nat (length (commands w)) <= limit w ->
  fresh_steps env fuel l w ->
  steps env fuel l w = Some w' ->
  sound w' /\ Z.of_nat (length (commands w')) <= limit w' /\ limit w' = limit w.
Proof.
  induction l as [|s l IH]; intros w w' Sw Hl Hf H; simpl in *.
  - injection H as <-. auto.
  - destruct Hf as [Hs Hf].
    destruct (world_of (step env fuel s w)) as [w1|] eqn:E; [|discriminate].
    destruct (step_keeps fuel s w w1 Sw Hl Hs E) as (A & B & C).
    destruct (IH w1 w' A B Hf H) as (A' & B' & C').
    split; [exact A'|]. split; [exact B'|congruence].
Qed.

Lemma Worker_init_sound lim factory loader w :
  Worker_init lim factory loader = Some w ->
  sound w /\ commands w = [] /\ limit w = lim /\ 0 <= lim.
Proof.
  unfold Worker_init. destruct (lim <? 0) eqn:E; [discriminate|].
  apply Z.ltb_ge in E. intros [= <-]. simpl.
  repeat split; auto; try constructor; simpl; tauto.
Qed.

(** C1, as amended.  Start from a new pool and take steps one at a
    time, in any order: calls of [addCommand], each for a command that
    is then neither running nor waiting, and executor threads running
    to their end.  The running list never holds more than [limit]
    records. *)
Theorem C1_running_bounded (fuel : nat) (lim : Z) (factory : Factory)
    (loader : Loader) (l : list Step) (w0 w : World) :
  Worker_init lim factory loader = Some w0 ->
  fresh_steps env fuel l w0 ->
  steps env fuel l w0 = Some w ->
  Z.of_nat (length (commands w)) <= lim.
Proof.
  intros Hi Hf Hs.
  destruct (Worker_init_sound _ _ _ _ Hi) as (S0 & C0 & L0 & Hlim).
  destruct (steps_keep fuel l w0 w S0) as (_ & B & C); auto.
  - rewrite C0, L0. simpl. exact Hlim.
  - lia.
Qed.

End Steps.

(** ** The growth of the connection list *)

Lemma fillConnection_bounded lim config w w' :
  world_of (fillConnection config w) = Some w' -> bounded lim w -> bounded lim w'.
Proof.
  intros H [L B]. split.
  - now rewrite (fr_limit _ _ (fillConnection_frame config w w' H)).
  - apply fillConnection_length in H. lia.
Qed.

Lemma wait_free_bounded lim config : forall fuel w w',
  world_of (wait_free fuel config w) = Some w' -> bounded lim w -> bounded lim w'.
Proof.
  induction fuel as [|f IH]; intros w w'; simpl;
    destruct (freeConnections w) eqn:E; simpl; try discriminate;
    try (now intros [= <-]).
  destruct (fillConnection_total config (log (EvSleep 1) w)) as [[w1 H]|(e & w1 & H)];
    rewrite H; simpl; intros H' B.
  - apply (IH w1 w' H').
    apply (fillConnection_bounded lim config (log (EvSleep 1) w));
      [now rewrite H|exact B].
  - injection H' as <-.
    apply (fillConnection_bounded lim config (log (EvSleep 1) w));
      [now rewrite H|exact B].
Qed.

Lemma provision_bounded lim fuel config w w' :
  world_of (provision fuel config w) = Some w' -> bounded lim w -> bounded lim w'.
Proof.
  unfold provision.
  destruct (fillConnection_total config w) as [[w1 H]|(e & w1 & H)];
    rewrite H; simpl; intros H' B.
  - apply (wait_free_bounded lim config fuel w1 w' H').
    apply (fillConnection_bounded lim config w); [now rewrite H|exact B].
  - injection H' as <-.
    apply (fillConnection_bounded lim config w); [now rewrite H|exact B].
Qed.

Lemma finish_scanned_bounded lim c w :
  bounded lim w -> bounded lim (finish_scanned c w).
Proof.
  unfold bounded. pose proof (finish_scanned_scanned c w) as Sc.
  now rewrite (s_connections _ _ _ Sc), (s_limit _ _ _ Sc).
Qed.

Lemma same_pool_bounded lim w w' : same_pool w w' -> bounded lim w -> bounded lim w'.
Proof.
  intros P. unfold bounded.
  now rewrite (sp_connections _ _ P), (sp_limit _ _ P).
Qed.

Section Growth.

Variable env : Env.
Variable lim : Z.

Lemma run_body_bounded fuel c config w w' :
  world_of (run_body env fuel c config w) = Some w' ->
  bounded lim w -> bounded lim w'.
Proof.
  unfold run_body. destruct (semaphore w) as [|s]; [now intros [= <-]|].
  fold (acquired s w). fold (provision fuel config (acquired s w)).
  intros H B.
  assert (B0 : bounded lim (acquired s w)) by exact B.
  destruct (provision fuel config (acquired s w)) as [w3|e3 w3|w3|] eqn:P;
    simpl in H; try discriminate;
    (assert (B3 : bounded lim w3)
       by (apply (provision_bounded lim fuel config (acquired s w));
           [now rewrite P|exact B0]));
    try (now injection H as <-).
  destruct (Py.pop (freeConnections w3)) as [[index rest]|];
    [|now injection H as <-].
  destruct (Py.getitem _ _) as [batch|];
    [|injection H as <-; unfold bounded in *; fields; exact B3].
  unfold setConnection in H.
  destruct (setConnection_at env _); simpl in H;
    [injection H as <-; unfold bounded in *; fields; exact B3|].
  unfold start in H.
  destruct (start_at env _); simpl in H;
    injection H as <-; unfold bounded in *; fields; exact B3.
Qed.

Lemma run_bounded : forall fuel c config w w',
  world_of (run env fuel c config w) = Some w' -> bounded lim w -> bounded lim w'.
Proof.
  induction fuel as [|f IH]; intros c config w w' H B; [discriminate|].
  rewrite run_S in H.
  assert (R : forall w2, bounded lim w2 ->
              bounded lim (log EvRelease (set_semaphore (S (semaphore w2)) w2)))
    by (intros w2 B2; exact B2).
  destruct (run_body env f c config w) as [w2|e w2|w2|] eqn:E; simpl in H;
    try discriminate;
    (assert (B2 : bounded lim w2)
       by (apply (run_body_bounded f c config w); [now rewrite E|exact B])).
  - injection H as <-. now apply R.
  - assert (K : forall w3, world_of (onFinish env f c w2) = Some w3 ->
                bounded lim w3).
    { intros w3 H3. unfold onFinish in H3.
      pose proof (finish_scanned_bounded lim c w2 B2) as Bs.
      destruct (Py.pop (waitingCommands w2)) as [[x ws]|] eqn:P.
      - apply pop_some in P. rewrite (onFinish_wake _ c w2 ws x P) in H3.
        apply (IH _ _ _ _ H3). exact Bs.
      - apply pop_none in P. rewrite (onFinish_idle _ c w2 P) in H3.
        now injection H3 as <-. }
    destruct (onFinish env f c w2) as [w3|e3 w3|w3|]; simpl in H;
      try discriminate; injection H as <-;
      try apply R; now apply K.
  - now injection H as <-.
Qed.

Lemma onFinish_bounded fuel c w w' :
  world_of (onFinish env fuel c w) = Some w' -> bounded lim w -> bounded lim w'.
Proof.
  intros H B. unfold onFinish in H.
  pose proof (finish_scanned_bounded lim c w B) as Bs.
  destruct (Py.pop (waitingCommands w)) as [[x ws]|] eqn:P.
  - apply pop_some in P. rewrite (onFinish_wake _ c w ws x P) in H.
    apply (run_bounded _ _ _ _ _ H). exact Bs.
  - apply pop_none in P. rewrite (onFinish_idle _ c w P) in H.
    now injection H as <-.
Qed.

Lemma step_bounded fuel s w w' :
  world_of (step env fuel s w) = Some w' -> bounded lim w -> bounded lim w'.
Proof.
  intros H B. destruct s as [c config|tid]; simpl in H.
  - unfold addCommand in H.
    destruct (limit (debugPrint (MsgAdding c) w) <=? _).
    + injection H as <-. unfold bounded in *. fields. exact B.
    + apply (run_bounded _ _ _ _ _ H). unfold bounded in *. fields. exact B.
  - destruct (take_thread tid (live w)) as [[rc rest]|]; [|now injection H as <-].
    apply executor_world in H. destruct H as (w1 & P & H).
    apply (onFinish_bounded _ _ _ _ H).
    apply (same_pool_bounded lim _ _ P). exact B.
Qed.

Lemma steps_bounded fuel : forall l w w',
  steps env fuel l w = Some w' -> bounded lim w -> bounded lim w'.
Proof.
  induction l as [|s l IH]; intros w w' H B; simpl in H.
  - now injection H as <-.
  - destruct (world_of (step env fuel s w)) as [w1|] eqn:E; [|discriminate].
    apply (IH w1 w' H). now apply (step_bounded fuel s w).
Qed.

End Growth.

(** C5.  Past the limit [fillConnection] does nothing at all; a call
    that reaches the factory found at most [limit] batches; the list a
    fill leaves holds at most [limit + 1] batches if the list it found
    did; and in a pool that was created empty and is driven by
    [addCommand] and its executors, the connection list never holds
    more than [limit + 1] batches. *)
Theorem C5_fill_bounded (config : option Config) (w : World) :
  (limit w < Z.of_nat (length (connections w)) ->
     fillConnection config w = Returned w)
  /\ (forall w', world_of (fillConnection config w) = Some w' ->
        factoryCalls w' <> factoryCalls w ->
        Z.of_nat (length (connections w)) <= limit w)
  /\ (forall w', world_of (fillConnection config w) = Some w' ->
        Z.of_nat (length (connections w)) <= limit w + 1 ->
        Z.of_nat (length (connections w')) <= limit w + 1)
  /\ (forall env fuel lim factory loader l w0 w',
        Worker_init lim factory loader = Some w0 ->
        steps env fuel l w0 = Some w' ->
        Z.of_nat (length (connections w')) <= lim + 1).
Proof.
  split; [|split; [|split]].
  - intro H. unfold fillConnection.
    apply Z.leb_gt in H. now rewrite H.
  - intros w' H Hcalls. unfold fillConnection in H.
    destruct (Z.of_nat (length (connections w)) <=? limit w) eqn:E.
    + now apply Z.leb_le.
    + simpl in H. injection H as <-. congruence.
  - intros w' H Hle. apply fillConnection_length in H. lia.
  - intros env fuel lim factory loader l w0 w' Hi H.
    assert (B : bounded lim w0).
    { unfold Worker_init in Hi. destruct (lim <? 0) eqn:E; [discriminate|].
      apply Z.ltb_ge in E. injection Hi as <-. split; simpl; [reflexivity|lia]. }
    apply (steps_bounded env lim fuel l w0 w' H B).
Qed.

(** ** Failure of a dispatch *)

Lemma scan_trace c : forall n i config w, exists evs,
  trace (fst (scan n i c config w)) = evs ++ trace w.
Proof.
  induction n as [|n IH]; intros i config w; simpl; [now exists []|].
  destruct (nth_error (commands w) i) as [cmd|]; [|now exists []].
  destruct (Nat.eqb (rec_command cmd) c); [|apply IH].
  fold (scan_hit cmd w).
  destruct (IH (S i) (rec_config cmd) (scan_hit cmd w)) as [e1 H1].
  destruct (debugPrint_trace (MsgRemoving (rec_threadId cmd))
    (set_commands (Py.remove record_eqb cmd (commands w))
       (set_freeConnections (freeConnections w ++ [rec_index cmd]) w))) as [e2 H2].
  exists (e1 ++ e2). rewrite H1. unfold scan_hit. rewrite H2.
  now rewrite app_assoc.
Qed.

Lemma finish_scanned_trace c w : exists evs,
  trace (finish_scanned c w) = evs ++ EvOnFinish c :: trace w.
Proof.
  unfold finish_scanned, finish_scan.
  destruct (scan_trace c (length (commands w)) 0 None (log (EvOnFinish c) w))
    as [e1 H1].
  destruct (debugPrint_trace
    (MsgSleeping (length (waitingCommands
       (fst (scan (length (commands w)) 0 c None (log (EvOnFinish c) w))))))
    (fst (scan (length (commands w)) 0 c None (log (EvOnFinish c) w)))) as [e2 H2].
  exists (e2 ++ e1). rewrite H2, H1. simpl. now rewrite app_assoc.
Qed.

Section Failure.

Variable env : Env.

(** With nothing waiting, a dispatch whose try block raises calls the
    finish callback for the command, then gives the permit back, and
    the exception reaches the caller. *)
Lemma run_failure_handled fuel c config w e w2 :
  run_body env fuel c config w = Raised e w2 ->
  waitingCommands w = [] ->
  exists w' evs,
    run env (S fuel) c config w = Raised e w'
    /\ semaphore w' = semaphore w
    /\ trace w' = EvRelease :: evs ++ EvOnFinish c :: trace w2.
Proof.
  intros B Hw. rewrite run_S, B. simpl.
  destruct (run_body_raised env fuel c config w e w2 B) as [Fl Hs].
  unfold onFinish.
  rewrite (onFinish_idle _ c w2) by (now rewrite (f_waiting _ _ _ Fl)).
  simpl. destruct (finish_scanned_trace c w2) as [evs Ht].
  eexists. exists evs. split; [reflexivity|]. simpl.
  rewrite (s_semaphore _ _ _ (finish_scanned_scanned c w2)), Ht.
  split; [congruence|reflexivity].
Qed.

End Failure.

(** C1 as it is written fails: when a command object is submitted
    again while it runs, the first of its executors to finish drops
    both records, the second finds none and still wakes a queued
    command, and four commands are recorded as running in a pool of
    three. *)
Lemma C1_counterexample :
  ~ (forall env fuel lim factory loader l w0 w,
       Worker_init lim factory loader = Some w0 ->
       steps env fuel l w0 = Some w ->
       Z.of_nat (length (commands w)) <= lim).
Proof.
  intro H.
  destruct (steps Scenario.quiet 3 Scenario.twice (Scenario.pool 3 Scenario.generous))
    as [w|] eqn:E; [|vm_compute in E; discriminate].
  specialize (H Scenario.quiet 3%nat 3 Scenario.generous Scenario.loader
                Scenario.twice _ w eq_refl E).
  vm_compute in E. injection E as <-. vm_compute in H. now apply H.
Qed.

(** C6 as it is written fails: the description of this exception does
    not contain the words in lower case, and [fillConnection] returns
    instead of raising. *)
Lemma C6_counterexample :
  ~ (forall config w e,
       factory_raises config w e ->
       ~ contains (str e) "too many connections" ->
       exists w', fillConnection config w = Raised e w').
Proof.
  intro H.
  destruct (H None (Scenario.pool 1 Scenario.crowded)
              (Exception "421 Too many connections (8) from this IP")) as [w' E].
  - split; [vm_compute; discriminate|reflexivity].
  - intro C. apply find_contains in C; [|discriminate].
    vm_compute in C. now apply C.
  - vm_compute in E. discriminate.
Qed.

(** C7, where the code departs from it.  In a pool of one with two
    commands queued, the executor of the running command finishes and
    its callback dispatches the last one queued; the factory raises;
    the handler calls the callback for the failed command while the
    only permit is still held; that callback dispatches the other
    queued command, and its [acquire] never returns.  The exception is
    not raised to anyone and the permit is not given back, whatever
    fuel the model is given beyond what these calls need. *)
Theorem C7_handler_blocks_on_gate (fuel : nat) :
  Worker_init 1 Scenario.once Scenario.loader = Some (Scenario.pool 1 Scenario.once)
  /\ steps Scenario.quiet (3 + fuel)
       [AddCommand 1%nat None; AddCommand 2%nat None; AddCommand 3%nat None]
       (Scenario.pool 1 Scenario.once) = Some Scenario.busy
  /\ exists w,
    step Scenario.quiet (3 + fuel) (ThreadRun 1%nat) Scenario.busy = Blocked w
    /\ limit w = 1
    /\ semaphore w = O
    /\ waitingCommands w = []
    /\ commands w = []
    /\ exists earlier,
         trace w =
         EvOnFinish 3%nat :: EvMakeConnection 1 O :: EvAcquire :: earlier.
Proof.
  split; [reflexivity|]. split; [vm_compute; reflexivity|].
  eexists. split; [vm_compute; reflexivity|].
  vm_compute. repeat split. eexists. reflexivity.
Qed.

(** ** The theorems at work *)

Lemma C1_running_bounded_witness :
  exists w,
    steps Scenario.quiet 3
      [AddCommand 1%nat None; AddCommand 2%nat None; ThreadRun 1%nat;
       AddCommand 3%nat None] (Scenario.pool 1 Scenario.generous) = Some w
    /\ Z.of_nat (length (commands w)) <= 1.
Proof.
  eexists. split; [vm_compute; reflexivity|].
  apply (C1_running_bounded Scenario.quiet 3 1 Scenario.generous Scenario.loader
           [AddCommand 1%nat None; AddCommand 2%nat None; ThreadRun 1%nat;
            AddCommand 3%nat None] (Scenario.pool 1 Scenario.generous)).
  - reflexivity.
  - vm_compute. intuition discriminate.
  - vm_compute. reflexivity.
Defined.

Lemma C2_no_retry_when_debugging_witness :
  exists evs,
    trace (finished Scenario.verbose 1 0 (Scenario.pool 1 Scenario.generous))
    = evs ++ trace (Scenario.pool 1 Scenario.generous)
    /\ executions 1%nat evs = 1%nat.
Proof.
  apply (C2_no_retry_when_debugging Scenario.flaky 1 Scenario.verbose
           (fun _ w => Returned w) (Scenario.pool 1 Scenario.generous)
           (Exception "550 Permission denied") 0).
  - reflexivity.
  - reflexivity.
  - split; [reflexivity|]. intros j Hj. lia.
  - lia.
Defined.

Lemma C3_admission_witness :
  (exists w', addCommand Scenario.quiet 1 9%nat None Scenario.busy = Returned w'
     /\ waitingCommands w' = [2%nat; 3%nat; 9%nat]
     /\ commands w' = commands Scenario.busy)
  /\ (exists w' index batch,
        addCommand Scenario.quiet 1 9%nat None (Scenario.pool 1 Scenario.generous)
        = Returned w'
        /\ dispatched 9%nat None index batch (Scenario.pool 1 Scenario.generous) w').
Proof.
  split.
  - destruct (proj1 (C3_admission Scenario.quiet 1 9%nat None Scenario.busy))
      as (w' & E & Q1 & Q2 & _).
    + vm_compute. discriminate.
    + exists w'. auto.
  - destruct (proj2 (C3_admission Scenario.quiet 0 9%nat None
                       (Scenario.pool 1 Scenario.generous))) as (_ & _ & T).
    + vm_compute. reflexivity.
    + destruct (T [O]) as (w' & E & D).
      * discriminate.
      * split; [vm_compute; discriminate|]. split; [reflexivity|discriminate].
      * reflexivity.
      * reflexivity.
      * exists w', 1, [O]. auto.
Defined.

Lemma C4_wake_last_queued_witness :
  exists w',
    onFinish Scenario.quiet 1 1%nat Scenario.lively = Returned w'
    /\ waitingCommands w' = [2%nat]
    /\ dispatched 3%nat (Some 5%nat) 2 [1%nat]
         (set_waitingCommands [2%nat] (finish_scanned 1%nat Scenario.lively)) w'.
Proof.
  destruct (C4_wake_last_queued Scenario.quiet 0 1%nat 3%nat [2%nat]
              Scenario.lively eq_refl) as (_ & _ & _ & T).
  apply (T [1%nat]).
  - discriminate.
  - split; [vm_compute; discriminate|]. split; [reflexivity|discriminate].
  - reflexivity.
  - reflexivity.
Defined.

Lemma C5_fill_bounded_witness :
  fillConnection None Scenario.saturated = Returned Scenario.saturated.
Proof.
  apply (proj1 (C5_fill_bounded None Scenario.saturated)).
  vm_compute. reflexivity.
Defined.

Lemma C6_factory_failure_witness :
  exists w', fillConnection None (Scenario.pool 1 Scenario.crowded) = Returned w'
    /\ connections w' = [] /\ freeConnections w' = [].
Proof.
  destruct (C6_factory_failure None (Scenario.pool 1 Scenario.crowded)
              (Exception "421 Too many connections (8) from this IP"))
    as [(_ & w' & evs & E & C & F & _)|(_ & w' & E & _)].
  - split; [vm_compute; discriminate|reflexivity].
  - exists w'. auto.
  - vm_compute in E. discriminate.
Defined.

Lemma C8_isEmpty_witness :
  exists w',
    addCommand Scenario.quiet 1 1%nat None (Scenario.pool 1 Scenario.generous)
    = Returned w'
    /\ isEmpty w' = false.
Proof.
  eexists. split; [vm_compute; reflexivity|].
  apply (proj1 (proj2 (C8_isEmpty Scenario.quiet 1 1%nat None
                         (Scenario.pool 1 Scenario.generous)))).
  vm_compute. reflexivity.
Defined.

Lemma C9_one_index_per_batch_witness :
  exists w', fillConnection None (Scenario.pool 1 Scenario.generous) = Returned w'
    /\ connections w' = [[O]]
    /\ freeConnections w' = [1].
Proof.
  destruct (proj1 (C9_one_index_per_batch Scenario.quiet 0 1%nat None
                     (Scenario.pool 1 Scenario.generous)) [O])
    as (w' & E & C & F & _).
  - split; [vm_compute; discriminate|]. split; [reflexivity|discriminate].
  - exists w'. rewrite F, C. auto.
Defined.

Lemma C10_finish_without_record_witness :
  commands (finish_scanned 7%nat Scenario.lively) = commands Scenario.lively
  /\ freeConnections (finish_scanned 7%nat Scenario.lively) = []
  /\ exists w',
       onFinish Scenario.quiet 1 7%nat Scenario.lively = Returned w'
       /\ waitingCommands w' = [2%nat]
       /\ commands w' =
            commands Scenario.lively ++
            [mkRecord 3%nat None (mkRunningCommand 3%nat false 2%nat) 2 2%nat].
Proof.
  destruct (C10_finish_without_record Scenario.quiet 0 7%nat Scenario.lively)
    as (A & B & _ & _ & _ & T).
  - intros r H. vm_compute in H. destruct H as [<-|[]]. discriminate.
  - split; [exact A|]. split; [exact B|].
    destruct (T [2%nat] 3%nat [1%nat]) as (w' & R & W & K & _).
    + reflexivity.
    + discriminate.
    + split; [vm_compute; discriminate|]. split; [reflexivity|discriminate].
    + reflexivity.
    + reflexivity.
    + exists w'. split; [exact R|]. split; [exact W|exact K].
Defined.

(** * Further properties *)

(** ** Teardown *)

Lemma close_batch_app close dbg : forall a b k,
  close_batch close dbg k (a ++ b) =
  match close_batch close dbg k a with
  | (evs, k', Some e) => (evs, k', Some e)
  | (evs, k', None) =>
      let '(evs', k'', r) := close_batch close dbg k' b in (evs ++ evs', k'', r)
  end.
Proof.
  induction a as [|x a IH]; intros b k; simpl.
  - now destruct (close_batch close dbg k b) as [[evs k'] r].
  - destruct (close k x); [reflexivity|].
    rewrite IH.
    destruct (close_batch close dbg (S k) a) as [[evs k'] [e|]]; [reflexivity|].
    destruct (close_batch close dbg k' b) as [[evs' k''] r].
    now destruct dbg.
Qed.

(** The two loops are one loop over all the connections in order. *)
Lemma close_all_flat close dbg : forall batches k,
  close_all close dbg k batches = close_batch close dbg k (concat batches).
Proof.
  induction batches as [|b batches IH]; intro k; simpl; [reflexivity|].
  rewrite close_batch_app.
  destruct (close_batch close dbg k b) as [[evs k'] [e|]]; [reflexivity|].
  now rewrite IH.
Qed.

Lemma close_batch_ok close dbg : forall l k,
  (forall j y, nth_error l j = Some y -> close (k + j)%nat y = None) ->
  close_batch close dbg k l
  = (flat_map (close_script dbg) l, (k + length l)%nat, None).
Proof.
  induction l as [|x l IH]; intros k H; simpl.
  - now rewrite Nat.add_0_r.
  - pose proof (H O x eq_refl) as H0. rewrite Nat.add_0_r in H0. rewrite H0.
    rewrite IH.
    + unfold close_script. destruct dbg; simpl; repeat f_equal; lia.
    + intros j y Hj. replace (S k + j)%nat with (k + S j)%nat by lia.
      now apply H.
Qed.

Lemma closed_script dbg : forall l, closed (flat_map (close_script dbg) l) = l.
Proof.
  induction l as [|x l IH]; simpl; [reflexivity|].
  destruct dbg; simpl; now rewrite IH.
Qed.

Lemma printed_script dbg : forall l,
  printed (flat_map (close_script dbg) l) = if dbg then length l else O.
Proof.
  induction l as [|x l IH]; simpl; [now destruct dbg|].
  destruct dbg; simpl; now rewrite IH.
Qed.

Lemma close_batch_fail close dbg e : forall n l k x,
  nth_error l n = Some x ->
  close (k + n)%nat x = Some e ->
  (forall j y, (j < n)%nat -> nth_error l j = Some y -> close (k + j)%nat y = None) ->
  exists evs,
    close_batch close dbg k l = (evs, (k + S n)%nat, Some e)
    /\ closed evs = firstn (S n) l
    /\ printed evs = if dbg then n else O.
Proof.
  induction n as [|n IH]; intros l k x Hn He Hlt;
    destruct l as [|y l]; try discriminate; simpl in Hn.
  - injection Hn as ->. simpl. rewrite Nat.add_0_r in He. rewrite He.
    eexists. split; [f_equal; f_equal; lia|]. now destruct dbg.
  - simpl close_batch.
    pose proof (Hlt O y (Nat.lt_0_succ n) eq_refl) as H0.
    rewrite Nat.add_0_r in H0. rewrite H0.
    destruct (IH l (S k) x Hn) as (evs & E & C & P).
    + now replace (S k + n)%nat with (k + S n)%nat by lia.
    + intros j z Hj Hz. replace (S k + j)%nat with (k + S j)%nat by lia.
      apply Hlt; [lia|exact Hz].
    + rewrite E. eexists. split; [f_equal; f_equal; lia|].
      destruct dbg; simpl; rewrite C, P; auto.
Qed.

(** X1.  When no call of [close()] raises, the teardown closes every
    connection of every batch, once each and in the order of the
    connection list, and when debugging prints one line after each
    close, before the next: what it does is, connection by connection,
    the close followed by the line. *)
Theorem teardown_closes_all (close : Closer) (w : World) :
  (forall j y, nth_error (concat (connections w)) j = Some y -> close j y = None) ->
  exists evs,
    Worker_del close w = (evs, None)
    /\ evs = flat_map (close_script (debug w)) (concat (connections w))
    /\ closed evs = concat (connections w)
    /\ printed evs = if debug w then length (concat (connections w)) else O.
Proof.
  intro H. unfold Worker_del. rewrite close_all_flat.
  rewrite (close_batch_ok close (debug w) (concat (connections w)) 0 H).
  eexists. split; [reflexivity|]. split; [reflexivity|].
  split; [apply closed_script|apply printed_script].
Qed.

(** X2.  The teardown is not best effort: when the call of [close()]
    on the [n]-th connection is the first to raise, the exception
    leaves the teardown, and the connections after that one, in its
    batch and in the later batches, are not closed. *)
Theorem teardown_stops_at_failure (close : Closer) (w : World) (n : nat)
    (x : Conn) (e : Exn) :
  nth_error (concat (connections w)) n = Some x ->
  close n x = Some e ->
  (forall j y, (j < n)%nat -> nth_error (concat (connections w)) j = Some y ->
     close j y = None) ->
  exists evs,
    Worker_del close w = (evs, Some e)
    /\ closed evs = firstn (S n) (concat (connections w))
    /\ printed evs = if debug w then n else O.
Proof.
  intros Hn He Hlt. unfold Worker_del. rewrite close_all_flat.
  destruct (close_batch_fail close (debug w) e n (concat (connections w)) 0 x
              Hn He Hlt) as (evs & E & C & P).
  rewrite E. eauto.
Qed.

(** ** The executor, again *)

Section ExecutorMore.

Variable env : Env.

(** X3.  With debugging off the executor calls [execute()] once when
    the call succeeds and twice when the first call raises, polls
    until the command has stopped, and then calls the callback once;
    an exception of the second call goes on after the callback. *)
Theorem executor_retries_once (fuel : nat) (rc : RunningCommand)
    (onFinish : Command -> Action) (w : World) (n : nat) :
  rc_debug rc = false ->
  stops_running env (rc_id rc) 0 n -> (n < fuel)%nat ->
  exists tries evs,
    tries = match execute_at env (rc_id rc) 0 with None => 1%nat | Some _ => 2%nat end
    /\ trace (finished rc tries n w) = evs ++ trace w
    /\ executions (rc_command rc) evs = tries
    /\ RunningCommand_run env fuel rc onFinish w =
       match execute_at env (rc_id rc) 0, execute_at env (rc_id rc) 1 with
       | Some _, Some e2 =>
           then_reraise e2 (onFinish (rc_command rc) (finished rc tries n w))
       | _, _ => onFinish (rc_command rc) (finished rc tries n w)
       end.
Proof.
  intros Hd Hn Hf.
  pose proof (run_without_debug env fuel rc onFinish w n Hd Hn Hf) as R.
  destruct (execute_at env (rc_id rc) 0) as [e|].
  - destruct (finished_trace rc 2 n w) as (evs & T & X).
    exists 2%nat, evs. repeat split; auto.
  - destruct (finished_trace rc 1 n w) as (evs & T & X).
    exists 1%nat, evs. repeat split; auto.
Qed.

Lemma poll_endless rc :
  (forall k, isRunning_at env (rc_id rc) k = true) ->
  forall fuel k w, poll env fuel rc k w = OutOfFuel.
Proof.
  intros H. induction fuel as [|f IH]; intros k w; simpl; [reflexivity|].
  rewrite H, rc_debugPrint_text. simpl. apply IH.
Qed.

(** X4.  The polling has no time limit: for a command that never
    stops running, the executor never reaches its callback, whatever
    fuel the loop is given. *)
Theorem executor_never_finishes (fuel : nat) (rc : RunningCommand)
    (onFinish : Command -> Action) (w : World) :
  (forall k, isRunning_at env (rc_id rc) k = true) ->
  RunningCommand_run env fuel rc onFinish w = OutOfFuel.
Proof.
  intro H. unfold RunningCommand_run. fold (executor_try env rc w).
  destruct (executor_body env rc w) as (w1 & _ & [B|[e B]]); rewrite B; simpl;
    rewrite rc_debugPrint_text; simpl; now rewrite (poll_endless rc H).
Qed.

End ExecutorMore.

(** ** Filling, waiting and dispatching, again *)

Lemma debugPrint_with_trace m w : exists tr, debugPrint m w = with_trace tr w.
Proof.
  unfold debugPrint. destruct (debug w) eqn:E.
  - now exists (EvPrint m :: trace w).
  - exists (trace w). now destruct w.
Qed.

(** A soft answer of the factory costs a call and changes nothing
    else but the trace. *)
Lemma fillConnection_soft config w :
  Z.of_nat (length (connections w)) <= limit w ->
  soft (makeConnection w (factoryCalls w) (makeConfig w config)) = true ->
  exists tr,
    fillConnection config w =
    Returned (with_trace tr (set_factoryCalls (S (factoryCalls w)) w)).
Proof.
  intros Hl Hs. unfold fillConnection. apply Z.leb_le in Hl. rewrite Hl.
  assert (T : forall w1, (exists tr1, w1 = with_trace tr1 (set_factoryCalls (S (factoryCalls w)) w)) ->
              exists tr, fill_tail None w1 =
                Returned (with_trace tr (set_factoryCalls (S (factoryCalls w)) w))).
  { intros w1 [tr1 ->]. unfold fill_tail.
    destruct (debugPrint_with_trace
      (MsgCreating (length (connections (with_trace tr1 (set_factoryCalls (S (factoryCalls w)) w)))))
      (with_trace tr1 (set_factoryCalls (S (factoryCalls w)) w))) as [tr E].
    rewrite E. now exists tr. }
  destruct (makeConnection w (factoryCalls w) (makeConfig w config)) as [[batch|]|e];
    simpl in Hs.
  - destruct batch as [|x batch]; [|discriminate].
    apply T. eexists. reflexivity.
  - apply T. eexists. reflexivity.
  - rewrite Hs. apply T.
    destruct (debugPrint_with_trace MsgTooMany
      (log (EvMakeConnection (factoryCalls w) (makeConfig w config))
         (set_factoryCalls (S (factoryCalls w)) w))) as [tr E].
    rewrite E. eexists. reflexivity.
Qed.

(** X5.  When the factory returns [None] or an empty batch, or is
    refused for too many connections, [fillConnection] returns with
    the connection list, the free list, the running list and the wait
    queue as they were; only the call is counted. *)
Theorem fill_keeps_pool_on_soft_answer (config : option Config) (w : World) :
  Z.of_nat (length (connections w)) <= limit w ->
  soft (makeConnection w (factoryCalls w) (makeConfig w config)) = true ->
  exists w',
    fillConnection config w = Returned w'
    /\ connections w' = connections w
    /\ freeConnections w' = freeConnections w
    /\ commands w' = commands w
    /\ waitingCommands w' = waitingCommands w
    /\ factoryCalls w' = S (factoryCalls w).
Proof.
  intros Hl Hs. destruct (fillConnection_soft config w Hl Hs) as [tr E].
  rewrite E. eexists. split; [reflexivity|]. simpl. auto.
Qed.

(** The world after the factory delivered [batch] on its [n]-th call
    from [w] on. *)
Lemma world_eq (w1 w2 : World) :
  limit w1 = limit w2 -> connections w1 = connections w2 ->
  commands w1 = commands w2 -> waitingCommands w1 = waitingCommands w2 ->
  threadId w1 = threadId w2 -> semaphore w1 = semaphore w2 ->
  makeConnection w1 = makeConnection w2 -> makeConfig w1 = makeConfig w2 ->
  freeConnections w1 = freeConnections w2 -> debug w1 = debug w2 ->
  factoryCalls w1 = factoryCalls w2 -> live w1 = live w2 ->
  trace w1 = trace w2 -> w1 = w2.
Proof. destruct w1, w2. simpl. intros. now subst. Qed.

Lemma fillConnection_delivers config w batch :
  factory_returns config w batch ->
  exists tr,
    fillConnection config w =
    Returned (with_trace tr
      (set_freeConnections
         (freeConnections w ++ [Z.of_nat (length (connections w) + 1)])
         (set_connections (connections w ++ [batch])
            (set_factoryCalls (S (factoryCalls w)) w)))).
Proof.
  intros (Hl & Hf & Hne). unfold fillConnection.
  apply Z.leb_le in Hl. rewrite Hl, Hf. unfold fill_tail.
  destruct batch as [|x batch]; [congruence|]. simpl (0 <? _)%nat. cbv iota.
  match goal with |- exists tr, Returned (debugPrint ?m ?w0) = _ =>
    destruct (debugPrint_with_trace m w0) as [tr E]; rewrite E; exists tr end.
  f_equal. apply world_eq; simpl; try reflexivity.
  now rewrite length_app.
Qed.

Lemma wait_free_delivers config batch : forall n fuel w,
  freeConnections w = [] ->
  delivers_after config w n batch -> (n < fuel)%nat ->
  exists tr,
    wait_free fuel config w =
    Returned (with_trace tr
      (set_freeConnections [Z.of_nat (length (connections w) + 1)]
         (set_connections (connections w ++ [batch])
            (set_factoryCalls (factoryCalls w + S n) w)))).
Proof.
  induction n as [|n IH]; intros fuel w Hfree (Hl & Hs & Hd & Hne) Hfuel;
    (destruct fuel as [|f]; [lia|]); simpl; rewrite Hfree.
  - rewrite Nat.add_0_r in Hd.
    destruct (fillConnection_delivers config (log (EvSleep 1) w) batch) as [tr E];
      [repeat split; auto|].
    rewrite E. cbn [bind].
    assert (W : forall w2, freeConnections w2 <> [] -> wait_free f config w2 = Returned w2)
      by (intros w2 H2; destruct f; simpl; destruct (freeConnections w2); congruence).
    rewrite W by (simpl; rewrite Hfree; discriminate).
    exists tr. f_equal. apply world_eq; simpl; rewrite ?Hfree; try reflexivity. lia.
  - pose proof (Hs O (Nat.lt_0_succ n)) as H0. rewrite Nat.add_0_r in H0.
    destruct (fillConnection_soft config (log (EvSleep 1) w) Hl H0) as [tr E].
    rewrite E. cbn [bind].
    destruct (IH f (with_trace tr (set_factoryCalls (S (factoryCalls (log (EvSleep 1) w)))
                                     (log (EvSleep 1) w)))) as [tr' E'].
    + exact Hfree.
    + split; [exact Hl|]. simpl. split; [|split; [|exact Hne]].
      * intros j Hj. rewrite <- Nat.add_succ_r. apply Hs. lia.
      * rewrite <- Nat.add_succ_r. exact Hd.
    + lia.
    + rewrite E'. exists tr'. f_equal. apply world_eq; simpl; try reflexivity. lia.
Qed.

Lemma provision_delivers config batch n fuel w :
  freeConnections w = [] ->
  delivers_after config w n batch -> (n <= fuel)%nat ->
  exists tr,
    provision fuel config w =
    Returned (with_trace tr
      (set_freeConnections [Z.of_nat (length (connections w) + 1)]
         (set_connections (connections w ++ [batch])
            (set_factoryCalls (factoryCalls w + S n) w)))).
Proof.
  intros Hfree (Hl & Hs & Hd & Hne) Hfuel. unfold provision.
  destruct n as [|n].
  - rewrite Nat.add_0_r in Hd.
    destruct (fillConnection_delivers config w batch) as [tr E];
      [repeat split; auto|].
    rewrite E. cbn [bind].
    assert (W : forall w2, freeConnections w2 <> [] -> wait_free fuel config w2 = Returned w2)
      by (intros w2 H2; destruct fuel; simpl; destruct (freeConnections w2); congruence).
    rewrite W by (simpl; rewrite Hfree; discriminate).
    exists tr. f_equal. apply world_eq; simpl; rewrite ?Hfree; try reflexivity. lia.
  - pose proof (Hs O (Nat.lt_0_succ n)) as H0. rewrite Nat.add_0_r in H0.
    destruct (fillConnection_soft config w Hl H0) as [tr E].
    rewrite E. cbn [bind].
    destruct (wait_free_delivers config batch n fuel
                (with_trace tr (set_factoryCalls (S (factoryCalls w)) w)))
      as [tr' E'].
    + exact Hfree.
    + split; [exact Hl|]. simpl. split; [|split; [|exact Hne]].
      * intros j Hj. rewrite <- Nat.add_succ_r. apply Hs. lia.
      * rewrite <- Nat.add_succ_r. exact Hd.
    + lia.
    + rewrite E'. exists tr'. f_equal. apply world_eq; simpl; try reflexivity. lia.
Qed.

Section DispatchMore.

Variable env : Env.

(** The try block of [__run] once a free index is there. *)
Lemma run_body_provisioned fuel c config w s w3 rest index batch :
  semaphore w = S s ->
  provision fuel config (acquired s w) = Returned w3 ->
  freeConnections w3 = rest ++ [index] ->
  Py.getitem (connections w3) (index - 1) = Some batch ->
  run_body env fuel c config w =
  (setConnection env c batch
     (debugPrint (MsgScheduling (threadId w3) c index) (set_freeConnections rest w3))
   >>= fun w6 =>
       start env (mkRunningCommand c (debug w3) (threadId w3))
         (set_commands
            (commands w6 ++
             [mkRecord c config (mkRunningCommand c (debug w3) (threadId w3))
                index (threadId w6)]) w6)).
Proof.
  intros Hs P Hf G. unfold run_body. rewrite Hs.
  fold (acquired s w). fold (provision fuel config (acquired s w)).
  rewrite P. cbn [bind]. rewrite Hf, pop_app.
  cbn [debug threadId set_freeConnections].
  rewrite debugPrint_connections. cbn [connections set_freeConnections].
  now rewrite G.
Qed.

Lemma run_provisioned fuel c config w s w3 rest index batch :
  semaphore w = S s ->
  provision fuel config (acquired s w) = Returned w3 ->
  freeConnections w3 = rest ++ [index] ->
  Py.getitem (connections w3) (index - 1) = Some batch ->
  setConnection_at env (S (threadId w)) = None ->
  start_at env (S (threadId w)) = None ->
  exists w',
    run env (S fuel) c config w = Returned w'
    /\ dispatched c config index batch w w'
    /\ freeConnections w' = rest
    /\ connections w' = connections w3
    /\ factoryCalls w' = factoryCalls w3
    /\ semaphore w' = semaphore w.
Proof.
  intros Hs P Hf G Hb Ht.
  assert (Fr : frame (acquired s w) w3)
    by (apply (provision_frame fuel config); now rewrite P).
  assert (T : threadId w3 = S (threadId w)) by (now rewrite (fr_threadId _ _ Fr)).
  assert (X : exists w',
    run env (S fuel) c config w = Returned w'
    /\ freeConnections w' = rest /\ connections w' = connections w3
    /\ factoryCalls w' = factoryCalls w3
    /\ exists thread tid,
         commands w' = commands w ++ [mkRecord c config thread index tid]).
  { rewrite run_S, (run_body_provisioned fuel c config w s w3 rest index batch Hs P Hf G).
    unfold setConnection. fields. rewrite T, Hb. cbn [bind].
    unfold start. cbn [rc_id]. rewrite Ht.
    unfold try_except, try_finally, release.
    eexists. split; [reflexivity|]. fields.
    repeat split. rewrite (fr_commands _ _ Fr). eauto. }
  destruct X as (w' & E & F' & C & K & thread & tid & R).
  exists w'. split; [exact E|].
  destruct (run_returned env (S fuel) c config w w' E) as (index' & batch' & D & S').
  pose proof (d_commands _ _ _ _ _ _ D) as R'.
  rewrite R in R'. apply app_inj_tail in R'. destruct R' as [_ R'].
  injection R' as _ Hi _.
  pose proof (d_batch _ _ _ _ _ _ D) as G'.
  rewrite <- Hi, C, G in G'. injection G' as <-.
  rewrite <- Hi in D. auto.
Qed.

(** X6.  The dispatch keeps asking: with no index free, when the
    factory answers [n] calls softly and then delivers a batch, [__run]
    makes [n + 1] calls of the factory and returns with the command
    running on the new batch, given a free permit and no failure in
    binding or starting. *)
Theorem dispatch_waits_for_factory (fuel n : nat) (c : Command)
    (config : option Config) (w : World) (batch : list Conn) :
  semaphore w <> O ->
  freeConnections w = [] ->
  delivers_after config w n batch -> (n <= fuel)%nat ->
  setConnection_at env (S (threadId w)) = None ->
  start_at env (S (threadId w)) = None ->
  exists w',
    run env (S fuel) c config w = Returned w'
    /\ dispatched c config (Z.of_nat (length (connections w) + 1)) batch w w'
    /\ connections w' = connections w ++ [batch]
    /\ freeConnections w' = []
    /\ factoryCalls w' = (factoryCalls w + S n)%nat.
Proof.
  intros Hs Hfree Hd Hfuel Hb Ht.
  destruct (semaphore w) as [|s] eqn:Es; [congruence|].
  destruct (provision_delivers config batch n fuel (acquired s w) Hfree Hd Hfuel)
    as [tr P].
  destruct (run_provisioned fuel c config w s _ []
              (Z.of_nat (length (connections w) + 1)) batch Es P) as
    (w' & E & D & F & C & K & _); auto.
  - cbn [connections with_trace set_freeConnections set_connections
         set_factoryCalls acquired set_threadId log set_semaphore].
    replace (Z.of_nat (length (connections w) + 1))
      with (Z.of_nat (length (connections w ++ [batch])))
      by (rewrite length_app; reflexivity).
    apply getitem_last.
  - exists w'. auto.
Qed.

(** The wait for a free index never ends when none is free and the
    connection list is past the limit. *)
Lemma wait_free_starved config : forall fuel w,
  freeConnections w = [] ->
  limit w < Z.of_nat (length (connections w)) ->
  wait_free fuel config w = OutOfFuel.
Proof.
  induction fuel as [|f IH]; intros w Hf Hl; simpl; rewrite Hf; [reflexivity|].
  unfold fillConnection. cbn [connections limit log].
  apply Z.leb_gt in Hl. rewrite Hl. cbn [bind].
  apply IH; [exact Hf|]. now apply Z.leb_gt.
Qed.

(** X7.  A dispatch starves when no index is free and the connection
    list is already longer than [limit] (as after [addConnection], which
    adds a batch without a free index): [fillConnection] no longer
    asks the factory, and the busy wait of [__run], and with it an
    [addCommand] below the limit, does not end, whatever fuel it is
    given. *)
Theorem dispatch_starves_past_limit (fuel : nat) (c : Command)
    (config : option Config) (w : World) :
  semaphore w <> O ->
  freeConnections w = [] ->
  limit w < Z.of_nat (length (connections w)) ->
  run env fuel c config w = OutOfFuel
  /\ (Z.of_nat (length (commands w)) < limit w ->
      addCommand env fuel c config w = OutOfFuel).
Proof.
  intros Hs Hf Hl.
  assert (G : forall w0, semaphore w0 <> O -> freeConnections w0 = [] ->
              limit w0 < Z.of_nat (length (connections w0)) ->
              run env fuel c config w0 = OutOfFuel).
  { intros w0 Hs0 Hf0 Hl0. destruct fuel as [|f]; [reflexivity|].
    rewrite run_S. unfold run_body.
    destruct (semaphore w0) as [|s]; [congruence|].
    unfold fillConnection. cbn [connections limit log set_threadId set_semaphore].
    pose proof Hl0 as Hl1. apply Z.leb_gt in Hl1. rewrite Hl1. cbn [bind].
    rewrite wait_free_starved; [reflexivity|exact Hf0|exact Hl0]. }
  split; [now apply G|].
  intro Hc. rewrite addCommand_runs by exact Hc.
  apply G; unfold admitted; fields; assumption.
Qed.

(** X8.  An index is lost when [setConnection] raises: the factory has
    delivered a batch and the index was taken off the free list, the
    handler finds no record to free, and [__run] raises with the batch
    in the connection list and its index neither free nor recorded. *)
Theorem failed_binding_loses_index (fuel : nat) (c : Command)
    (config : option Config) (w : World) (batch : list Conn) (e : Exn) :
  semaphore w <> O ->
  factory_returns config w batch ->
  setConnection_at env (S (threadId w)) = Some e ->
  waitingCommands w = [] ->
  (forall r, In r (commands w) -> rec_command r <> c) ->
  exists w',
    run env (S fuel) c config w = Raised e w'
    /\ connections w' = connections w ++ [batch]
    /\ freeConnections w' = freeConnections w
    /\ commands w' = commands w
    /\ semaphore w' = semaphore w.
Proof.
  intros Hs Hf He Hw Hc.
  destruct (semaphore w) as [|s] eqn:Es; [congruence|].
  assert (Hf' : factory_returns config (acquired s w) batch) by exact Hf.
  destruct (fillConnection_delivers config _ batch Hf') as [tr E].
  set (w3 := with_trace tr
               (set_freeConnections
                  (freeConnections (acquired s w) ++
                   [Z.of_nat (length (connections (acquired s w)) + 1)])
                  (set_connections (connections (acquired s w) ++ [batch])
                     (set_factoryCalls (S (factoryCalls (acquired s w))) (acquired s w))))) in E.
  assert (P : provision fuel config (acquired s w) = Returned w3).
  { unfold provision. rewrite E. cbn [bind].
    destruct fuel; simpl;
      destruct (freeConnections w ++ [Z.of_nat (length (connections w) + 1)]) eqn:A;
      try reflexivity; now apply app_eq_nil in A. }
  assert (G : Py.getitem (connections w3) (Z.of_nat (length (connections w) + 1) - 1)
              = Some batch).
  { cbn [w3 connections with_trace set_freeConnections set_connections
         set_factoryCalls acquired set_threadId log set_semaphore].
    replace (Z.of_nat (length (connections w) + 1))
      with (Z.of_nat (length (connections w ++ [batch])))
      by (rewrite length_app; reflexivity).
    apply getitem_last. }
  assert (B : exists w2, run_body env fuel c config w = Raised e w2
                /\ connections w2 = connections w ++ [batch]
                /\ freeConnections w2 = freeConnections w
                /\ commands w2 = commands w
                /\ waitingCommands w2 = [] /\ semaphore w2 = s).
  { rewrite (run_body_provisioned fuel c config w s w3 (freeConnections w)
               _ batch Es P eq_refl G).
    unfold setConnection. fields. cbn [w3 threadId with_trace set_freeConnections
      set_connections set_factoryCalls acquired set_threadId log set_semaphore].
    rewrite He. cbn [bind]. eexists. split; [reflexivity|]. fields.
    cbn [w3 connections freeConnections commands waitingCommands semaphore
         with_trace set_freeConnections set_connections set_factoryCalls
         acquired set_threadId log set_semaphore].
    auto. }
  destruct B as (w2 & B & C2 & F2 & R2 & W2 & S2).
  rewrite run_S, B. unfold try_except, onFinish.
  rewrite (onFinish_idle _ c w2 W2).
  assert (N : finish_scan c w2 = (log (EvOnFinish c) w2, None)).
  { unfold finish_scan. apply scan_no_record.
    intros j r _ Hj. apply nth_error_In in Hj.
    cbn [commands log] in Hj. rewrite R2 in Hj. now apply Hc. }
  unfold finish_scanned. rewrite N. cbn [fst then_reraise try_finally release].
  eexists. split; [reflexivity|]. fields. auto.
Qed.

End DispatchMore.

(** ** The finish callback, again *)

Lemma provision_saturated fuel config w :
  limit w < Z.of_nat (length (connections w)) ->
  freeConnections w <> [] ->
  provision fuel config w = Returned w.
Proof.
  intros Hl Hf. unfold provision, fillConnection.
  apply Z.leb_gt in Hl. rewrite Hl. cbn [bind].
  destruct fuel; simpl; destruct (freeConnections w); congruence.
Qed.

Lemma scan_hit_step c n i config w cmd :
  nth_error (commands w) i = Some cmd -> rec_command cmd = c ->
  scan (S n) i c config w = scan n (S i) c (rec_config cmd) (scan_hit cmd w).
Proof.
  intros E Hc. simpl. rewrite E, Hc, Nat.eqb_refl. reflexivity.
Qed.

Section FinishMore.

Variable env : Env.

(** X9.  Once the connection list is past the limit, a woken command
    takes over the connection of the command that finished: the
    callback frees the index of the finished command's record, and the
    dispatch of the last queued command pops that same index, with the
    config of the finished command; no batch is created and the free
    list ends as it began. *)
Theorem finish_hands_over_connection (fuel : nat) (c x : Command)
    (ws : list Command) (r : CommandRecord) (batch : list Conn) (w : World) :
  limit w < Z.of_nat (length (connections w)) ->
  only_record r c w ->
  waitingCommands w = ws ++ [x] ->
  semaphore w <> O ->
  Py.getitem (connections w) (rec_index r - 1) = Some batch ->
  setConnection_at env (S (threadId w)) = None ->
  start_at env (S (threadId w)) = None ->
  exists w',
    onFinish env (S fuel) c w = Returned w'
    /\ dispatched x (rec_config r) (rec_index r) batch
         (set_waitingCommands ws (finish_scanned c w)) w'
    /\ freeConnections w' = freeConnections w
    /\ connections w' = connections w
    /\ waitingCommands w' = ws.
Proof.
  intros Hl Hr Hw Hs G Hb Ht.
  assert (Hr' : only_record r c (log (EvOnFinish c) w)) by exact Hr.
  destruct (scan_only_record c r _ Hr') as (w1 & E & _ & F & _).
  cbn [commands log freeConnections] in E, F.
  assert (Hc : captured_config c w = rec_config r)
    by (unfold captured_config, finish_scan; now rewrite E).
  pose proof (finish_scanned_scanned c w) as Sc.
  assert (Ff : freeConnections (finish_scanned c w) = freeConnections w ++ [rec_index r]).
  { unfold finish_scanned, finish_scan. rewrite E. cbn [fst].
    now rewrite debugPrint_freeConnections. }
  unfold onFinish. rewrite (onFinish_wake _ c w ws x Hw), Hc.
  set (w0 := set_waitingCommands ws (finish_scanned c w)).
  assert (S0 : semaphore w0 = semaphore w) by apply (s_semaphore _ _ _ Sc).
  assert (C0 : connections w0 = connections w) by apply (s_connections _ _ _ Sc).
  assert (L0 : limit w0 = limit w) by apply (s_limit _ _ _ Sc).
  assert (T0 : threadId w0 = threadId w) by apply (s_threadId _ _ _ Sc).
  destruct (semaphore w0) as [|s] eqn:Es; [congruence|].
  assert (P : provision fuel (rec_config r) (acquired s w0) = Returned (acquired s w0)).
  { apply provision_saturated.
    - cbn [acquired limit connections set_threadId log set_semaphore].
      now rewrite L0, C0.
    - cbn [acquired freeConnections set_threadId log set_semaphore w0
           set_waitingCommands].
      rewrite Ff. intro A. now apply app_eq_nil in A. }
  destruct (run_provisioned env fuel x (rec_config r) w0 s (acquired s w0)
              (freeConnections w) (rec_index r) batch Es P)
    as (w' & R & D & F' & C' & _ & _).
  - cbn [acquired freeConnections set_threadId log set_semaphore w0
         set_waitingCommands]. exact Ff.
  - cbn [acquired connections set_threadId log set_semaphore].
    now rewrite C0.
  - now rewrite T0.
  - now rewrite T0.
  - exists w'. split; [exact R|]. split; [exact D|]. split; [exact F'|].
    split; [now rewrite C'|].
    now rewrite (d_waiting _ _ _ _ _ _ D).
Qed.

(** X10.  The config given with a command that is queued is dropped:
    [addCommand] at the limit ends in the same world whatever the
    config, and the next finish callback dispatches that command, the
    last one queued, with the config captured from the finished
    command. *)
Theorem queued_config_is_dropped (fuel : nat) (c : Command)
    (config : option Config) (w : World) :
  limit w <= Z.of_nat (length (commands w)) ->
  exists w1,
    addCommand env fuel c config w = Returned w1
    /\ (forall config', addCommand env fuel c config' w = Returned w1)
    /\ forall fuel' d,
         onFinish env fuel' d w1 =
         run env fuel' c (captured_config d w1)
           (set_waitingCommands (waitingCommands w) (finish_scanned d w1)).
Proof.
  intro H. unfold addCommand. fields.
  apply Z.leb_le in H. rewrite H.
  eexists. split; [reflexivity|]. split; [reflexivity|].
  intros fuel' d. unfold onFinish. apply onFinish_wake. fields. reflexivity.
Qed.

(** X11.  The loop of the callback skips the record that follows the
    one it removes: when the first record of [c] is followed by any
    record [r2], also one of [c], and no other record is one of [c],
    the callback removes the first only, frees its index and captures
    its config; [r2] stays recorded as running. *)
Theorem finish_skips_next_record (c : Command) (r1 r2 : CommandRecord)
    (before after : list CommandRecord) (w : World) :
  commands w = before ++ r1 :: r2 :: after ->
  rec_command r1 = c ->
  (forall r', In r' (before ++ after) -> rec_command r' <> c) ->
  commands (finish_scanned c w) = before ++ r2 :: after
  /\ freeConnections (finish_scanned c w) = freeConnections w ++ [rec_index r1]
  /\ captured_config c w = rec_config r1.
Proof.
  intros Hw Hc Hne.
  assert (Hb : forall r', In r' before -> rec_command r' <> c)
    by (intros r' Hr'; apply Hne, in_or_app; now left).
  assert (Ha : forall r', In r' after -> rec_command r' <> c)
    by (intros r' Hr'; apply Hne, in_or_app; now right).
  set (w0 := log (EvOnFinish c) w).
  assert (Hw0 : commands w0 = before ++ r1 :: r2 :: after) by exact Hw.
  assert (L : length (commands w) = (length before + S (S (length after)))%nat)
    by (rewrite Hw, length_app; reflexivity).
  assert (E : nth_error (commands w0) (length before) = Some r1)
    by (rewrite Hw0, nth_error_app2, Nat.sub_diag by lia; reflexivity).
  assert (X : scan (length (commands w)) 0 c None w0
              = (scan_hit r1 w0, rec_config r1)).
  { rewrite L, (scan_skip_prefix c before _ None w0 (r1 :: r2 :: after) Hw0 Hb).
    rewrite (scan_hit_step c (S (length after)) (length before) None w0 r1 E Hc).
    apply scan_no_record.
    intros j r' Hj Hn. unfold scan_hit in Hn. rewrite debugPrint_commands in Hn.
    cbn [commands set_commands set_freeConnections] in Hn.
    rewrite Hw0, (remove_first_hit r1 c before (r2 :: after) Hc Hb) in Hn.
    rewrite nth_error_app2 in Hn by lia.
    destruct (j - length before)%nat as [|k] eqn:K; [lia|].
    simpl in Hn. apply nth_error_In in Hn. now apply Ha. }
  unfold captured_config, finish_scanned, finish_scan. fold w0. rewrite X.
  cbn [fst snd]. rewrite debugPrint_commands, debugPrint_freeConnections.
  unfold scan_hit. rewrite debugPrint_commands, debugPrint_freeConnections.
  cbn [commands freeConnections set_commands set_freeConnections].
  rewrite Hw0, (remove_first_hit r1 c before (r2 :: after) Hc Hb).
  auto.
Qed.

(** In a pool of limit zero nothing is dispatched. *)
Lemma steps_of_zero fuel : forall l w,
  limit w = 0 -> commands w = [] -> live w = [] ->
  exists w',
    steps env fuel l w = Some w'
    /\ limit w' = 0 /\ commands w' = [] /\ live w' = []
    /\ waitingCommands w' = waitingCommands w ++ submitted l
    /\ factoryCalls w' = factoryCalls w
    /\ connections w' = connections w.
Proof.
  induction l as [|s l IH]; intros w Hl Hc Hv.
  - exists w. simpl. rewrite app_nil_r. repeat split; auto.
  - destruct s as [c config|tid]; simpl.
    + unfold addCommand. fields. rewrite Hl, Hc.
      change (0 <=? Z.of_nat (length (@nil CommandRecord))) with true.
      cbv iota. cbn [world_of].
      match goal with |- context [steps env fuel l ?w1] =>
        destruct (IH w1) as (w' & E & A & B & C & D & F & G) end;
        fields; auto.
      exists w'. rewrite E, D, F, G. fields. rewrite <- app_assoc.
      repeat split; auto.
    + rewrite Hv. simpl. apply IH; auto.
Qed.

(** X12.  A pool created with limit 0 never runs anything: every
    command given to [addCommand] is queued, in order, no executor is
    started, and the factory is never called, whatever steps are
    taken. *)
Theorem pool_of_zero_only_queues (fuel : nat) (factory : Factory)
    (loader : Loader) (l : list Step) (w0 : World) :
  Worker_init 0 factory loader = Some w0 ->
  exists w,
    steps env fuel l w0 = Some w
    /\ commands w = [] /\ live w = []
    /\ waitingCommands w = submitted l
    /\ factoryCalls w = O /\ connections w = [].
Proof.
  intros [= <-].
  destruct (steps_of_zero fuel l
              (mkWorld 0 [] [] [] 0 (Z.to_nat 0) factory loader [] false 0 [] []))
    as (w & E & _ & B & C & D & F & G); auto.
  exists w. repeat split; auto.
Qed.

End FinishMore.

(** ** What every step keeps *)

Lemma rc_say_with_trace rc m w : exists tr, rc_say rc m w = with_trace tr w.
Proof.
  unfold rc_say. destruct (rc_debug rc).
  - now exists (EvPrint m :: trace w).
  - exists (trace w). now destruct w.
Qed.

Section Outcomes.

Variable env : Env.

Lemma poll_with_trace rc : forall fuel k tr w w',
  poll env fuel rc k (with_trace tr w) = Returned w' -> exists tr', w' = with_trace tr' w.
Proof.
  induction fuel as [|f IH]; intros k tr w w'; simpl; [discriminate|].
  destruct (isRunning_at env (rc_id rc) k).
  - rewrite rc_debugPrint_text. cbn [bind].
    destruct (rc_say_with_trace rc (MsgIsRunning (rc_id rc))
                (log (EvIsRunning (rc_command rc) true) (with_trace tr w))) as [t E].
    rewrite E. apply (IH (S k) (EvSleep 5 :: t) w w').
  - intros [= <-]. now eexists.
Qed.

Lemma executor_try_with_trace rc w :
  exists tr,
    executor_try env rc w = Returned (with_trace tr w)
    \/ exists e, executor_try env rc w = Raised e (with_trace tr w).
Proof.
  remember (executor_try env rc w) as o eqn:H. unfold executor_try in H.
  rewrite rc_debugPrint_text in H. cbn [bind] in H. unfold execute at 1 in H.
  destruct (rc_say_with_trace rc (MsgExecuting (rc_id rc)) w) as [t0 E0].
  rewrite E0 in H.
  destruct (execute_at env (rc_id rc) 0) as [e|]; cbn [try_except] in H.
  - unfold rc_debugPrint at 1 in H. destruct (rc_debug rc) eqn:Hd; cbn [bind] in H.
    + subst o. eexists. right. eexists. reflexivity.
    + rewrite rc_debugPrint_text in H. cbn [bind] in H. unfold execute in H.
      destruct (rc_say_with_trace rc (MsgRetrying (rc_id rc))
                  (log (EvExecute (rc_command rc)) (with_trace t0 w))) as [t1 E1].
      rewrite E1 in H.
      destruct (execute_at env (rc_id rc) 1) as [e2|]; subst o;
        eexists; [right; eexists|left]; reflexivity.
  - subst o. eexists. left. reflexivity.
Qed.

(** The executor ends as its callback does, on the world it was given
    but for the trace, with the exception of the retry after it. *)
Lemma executor_outcome fuel rc onF w :
  RunningCommand_run env fuel rc onF w = OutOfFuel
  \/ exists tr,
       RunningCommand_run env fuel rc onF w = onF (rc_command rc) (with_trace tr w)
       \/ exists e, RunningCommand_run env fuel rc onF w
                    = then_reraise e (onF (rc_command rc) (with_trace tr w)).
Proof.
  unfold RunningCommand_run. fold (executor_try env rc w).
  assert (F : forall tr,
    (rc_debugPrint rc (RcText (MsgEnding (rc_id rc))) (with_trace tr w)
       >>= poll env fuel rc 0 >>= onF (rc_command rc)) = OutOfFuel
    \/ exists tr', (rc_debugPrint rc (RcText (MsgEnding (rc_id rc))) (with_trace tr w)
                     >>= poll env fuel rc 0 >>= onF (rc_command rc))
                   = onF (rc_command rc) (with_trace tr' w)).
  { intro tr. rewrite rc_debugPrint_text. cbn [bind].
    destruct (rc_say_with_trace rc (MsgEnding (rc_id rc)) (with_trace tr w)) as [t E].
    rewrite E.
    destruct (poll_outcome env rc fuel 0 (with_trace t (with_trace tr w)))
      as [[w2 P]|P].
    - rewrite P. destruct (poll_with_trace rc fuel 0 t w w2 P) as [t' ->].
      right. now exists t'.
    - left. now rewrite P. }
  destruct (executor_try_with_trace rc w) as [tr [B|[e B]]]; rewrite B;
    cbn [try_finally]; destruct (F tr) as [O|[tr' O]]; rewrite O.
  - now left.
  - right. exists tr'. now left.
  - now left.
  - right. exists tr'. right. now exists e.
Qed.

Lemma permits_then_reraise w e o : permits_kept w o -> permits_kept w (then_reraise e o).
Proof. now destruct o. Qed.

Lemma run_permits : forall fuel c config w,
  permits_kept w (run env fuel c config w).
Proof.
  induction fuel as [|f IH]; intros c config w; [exact I|].
  rewrite run_S.
  destruct (run_body env f c config w) as [w2|e w2|w2|] eqn:B;
    cbn [try_except try_finally].
  - destruct (run_body_returned env f c config w w2 B) as (_ & _ & _ & S2).
    simpl. congruence.
  - destruct (run_body_raised env f c config w e w2 B) as [Fl S2].
    assert (K : permits_kept w2 (onFinish env f c w2)).
    { unfold onFinish.
      pose proof (finish_scanned_scanned c w2) as Sc.
      destruct (Py.pop (waitingCommands w2)) as [[x ws]|] eqn:P.
      - apply pop_some in P. rewrite (onFinish_wake _ c w2 ws x P).
        specialize (IH x (captured_config c w2)
                      (set_waitingCommands ws (finish_scanned c w2))).
        destruct (run env f x _ _); simpl in *; auto;
          rewrite IH; apply (s_semaphore _ _ _ Sc).
      - apply pop_none in P. rewrite (onFinish_idle _ c w2 P). simpl.
        apply (s_semaphore _ _ _ Sc). }
    destruct (onFinish env f c w2) as [w3|e3 w3|w3|]; simpl in *; congruence.
  - destruct (run_body_blocked env f c config w w2 B) as [S0 ->]. exact S0.
  - exact I.
Qed.

Lemma onFinish_permits fuel c w : permits_kept w (onFinish env fuel c w).
Proof.
  unfold onFinish.
  pose proof (finish_scanned_scanned c w) as Sc.
  destruct (Py.pop (waitingCommands w)) as [[x ws]|] eqn:P.
  - apply pop_some in P. rewrite (onFinish_wake _ c w ws x P).
    pose proof (run_permits fuel x (captured_config c w)
                  (set_waitingCommands ws (finish_scanned c w))) as R.
    destruct (run env fuel x _ _); simpl in *; auto;
      rewrite R; apply (s_semaphore _ _ _ Sc).
  - apply pop_none in P. rewrite (onFinish_idle _ c w P). simpl.
    apply (s_semaphore _ _ _ Sc).
Qed.

(** X13.  The permits of the gate are conserved: whatever step is
    taken, an [addCommand] or an executor running to its end, if it
    returns or raises the semaphore has the permits it had before, and
    if it blocks no permit was free where it blocked. *)
Theorem permits_conserved (fuel : nat) (s : Step) (w : World) :
  match step env fuel s w with
  | Returned w' => semaphore w' = semaphore w
  | Raised _ w' => semaphore w' = semaphore w
  | Blocked w' => semaphore w' = O
  | OutOfFuel => True
  end.
Proof.
  change (permits_kept w (step env fuel s w)).
  destruct s as [c config|tid]; simpl.
  - unfold addCommand.
    destruct (limit (debugPrint (MsgAdding c) w) <=? _).
    + simpl. fields. reflexivity.
    + match goal with |- permits_kept _ (run env fuel c config ?w1) =>
        pose proof (run_permits fuel c config w1) as R;
        destruct (run env fuel c config w1); simpl in *; auto;
        rewrite R; fields; reflexivity end.
  - destruct (take_thread tid (live w)) as [[rc rest]|]; [|reflexivity].
    destruct (executor_outcome fuel rc (onFinish env fuel) (set_live rest w))
      as [O|[tr [O|[e O]]]]; rewrite O; [exact I| |apply permits_then_reraise];
      pose proof (onFinish_permits fuel (rc_command rc)
                    (with_trace tr (set_live rest w))) as R;
      destruct (onFinish env fuel _ _); simpl in *; auto.
Qed.

End Outcomes.

(** ** The indices of the pool *)


Lemma record_eqb_eq (a b : CommandRecord) : record_eqb a b = true -> a = b.
Proof.
  destruct a as [c1 g1 [tc1 td1 ti1] i1 t1], b as [c2 g2 [tc2 td2 ti2] i2 t2].
  unfold record_eqb, thread_eqb, option_nat_eqb. simpl.
  rewrite !andb_true_iff.
  intros [[[[H1 H2] [[H3 H4] H5]] H6] H7].
  apply Nat.eqb_eq in H1, H3, H5, H7. apply Z.eqb_eq in H6.
  apply Bool.eqb_prop in H4. subst.
  destruct g1 as [x|], g2 as [y|]; try discriminate; [|reflexivity].
  apply Nat.eqb_eq in H2. now subst.
Qed.

Lemma remove_perm (x : CommandRecord) : forall l,
  In x l -> Permutation l (x :: Py.remove record_eqb x l).
Proof.
  induction l as [|a l IH]; simpl; [tauto|].
  destruct (record_eqb a x) eqn:E.
  - apply record_eqb_eq in E. subst. intros _. apply Permutation_refl.
  - intros [->|H]; [rewrite record_eqb_refl in E; discriminate|].
    eapply perm_trans; [apply perm_skip, IH, H|apply perm_swap].
Qed.

Lemma tidy_perm w w' :
  Permutation (slots w) (slots w') ->
  connections w' = connections w ->
  tidy w -> tidy w'.
Proof.
  intros P C [N R]. split.
  - eapply Permutation_NoDup; eauto.
  - intros i Hi. rewrite C. apply R.
    eapply Permutation_in; [apply Permutation_sym, P|exact Hi].
Qed.

Lemma tidy_same w w' :
  commands w' = commands w -> freeConnections w' = freeConnections w ->
  connections w' = connections w -> tidy w -> tidy w'.
Proof.
  intros C F K. apply tidy_perm; [|exact K].
  unfold slots. now rewrite C, F.
Qed.

(** What a fill does to the lists: nothing, or one batch more and its
    index, the new length, at the end of the free list. *)
Lemma fillConnection_effect config w w' :
  world_of (fillConnection config w) = Some w' ->
  commands w' = commands w
  /\ ((connections w' = connections w /\ freeConnections w' = freeConnections w)
      \/ exists batch,
           connections w' = connections w ++ [batch]
           /\ freeConnections w' =
              freeConnections w ++ [Z.of_nat (length (connections w) + 1)]).
Proof.
  unfold fillConnection.
  destruct (Z.of_nat (length (connections w)) <=? limit w).
  - assert (T : forall connection w1,
      commands w1 = commands w -> connections w1 = connections w ->
      freeConnections w1 = freeConnections w ->
      world_of (fill_tail connection w1) = Some w' ->
      commands w' = commands w
      /\ ((connections w' = connections w /\ freeConnections w' = freeConnections w)
          \/ exists batch,
               connections w' = connections w ++ [batch]
               /\ freeConnections w' =
                  freeConnections w ++ [Z.of_nat (length (connections w) + 1)])).
    { intros connection w1 C K F. unfold fill_tail. simpl. intros [= <-]. fields.
      destruct connection as [batch|]; [|now auto].
      destruct (0 <? length batch)%nat; [|now auto].
      fields. split; [exact C|]. right. exists batch.
      rewrite K, F, length_app. auto. }
    destruct (makeConnection w _ _) as [connection|e].
    + now apply T.
    + destruct (too_many e).
      * apply T; fields; reflexivity.
      * simpl. intros [= <-]. fields. auto.
  - simpl. intros [= <-]. auto.
Qed.

Lemma tidy_fillConnection config w w' :
  world_of (fillConnection config w) = Some w' -> tidy w -> tidy w'.
Proof.
  intros H T. apply fillConnection_effect in H.
  destruct H as [C [[K F]|(batch & K & F)]].
  - now apply (tidy_same w).
  - destruct T as [N R]. unfold tidy, slots in *. rewrite C, K, F, app_assoc. split.
    + apply NoDup_app; [exact N|repeat constructor; auto|].
      intros i Hi [<-|[]]. apply R in Hi. lia.
    + rewrite length_app. simpl. intros i Hi. apply in_app_or in Hi.
      destruct Hi as [Hi|[<-|[]]]; [apply R in Hi|]; lia.
Qed.

Lemma tidy_wait_free config : forall fuel w w',
  world_of (wait_free fuel config w) = Some w' -> tidy w -> tidy w'.
Proof.
  induction fuel as [|f IH]; intros w w'; simpl;
    destruct (freeConnections w) eqn:E; simpl; try discriminate;
    try (now intros [= <-]).
  destruct (fillConnection_total config (log (EvSleep 1) w)) as [[w1 H]|(e & w1 & H)];
    rewrite H; simpl; intros H' T.
  - apply (IH w1 w' H').
    apply (tidy_fillConnection config (log (EvSleep 1) w)); [now rewrite H|exact T].
  - injection H' as <-.
    apply (tidy_fillConnection config (log (EvSleep 1) w)); [now rewrite H|exact T].
Qed.

Lemma tidy_provision fuel config w w' :
  world_of (provision fuel config w) = Some w' -> tidy w -> tidy w'.
Proof.
  unfold provision.
  destruct (fillConnection_total config w) as [[w1 H]|(e & w1 & H)];
    rewrite H; simpl; intros H' T.
  - apply (tidy_wait_free config fuel w1 w' H').
    apply (tidy_fillConnection config w); [now rewrite H|exact T].
  - injection H' as <-.
    apply (tidy_fillConnection config w); [now rewrite H|exact T].
Qed.

(** Taking the last free index, and recording it. *)
Lemma tidy_pop w rest index w' :
  tidy w -> freeConnections w = rest ++ [index] ->
  commands w' = commands w -> freeConnections w' = rest ->
  connections w' = connections w -> tidy w'.
Proof.
  intros [N R] F C F' K. unfold tidy, slots in *.
  rewrite C, F', K. rewrite F, app_assoc in N, R. split.
  - now apply NoDup_app_remove_r in N.
  - intros i Hi. apply R, in_or_app. now left.
Qed.

Lemma tidy_record w rest index r w' :
  tidy w -> freeConnections w = rest ++ [index] ->
  commands w' = commands w ++ [r] -> rec_index r = index ->
  freeConnections w' = rest -> connections w' = connections w -> tidy w'.
Proof.
  intros T F C Hr F' K. apply (tidy_perm w); [|exact K|exact T].
  unfold slots. rewrite C, F', F, map_app. simpl. rewrite Hr.
  rewrite <- app_assoc. apply Permutation_app_head.
  apply Permutation_app_comm.
Qed.

Lemma tidy_scan_hit cmd w : In cmd (commands w) -> tidy w -> tidy (scan_hit cmd w).
Proof.
  intros Hin. apply tidy_perm.
  - unfold slots, scan_hit. fields.
    pose proof (remove_perm cmd (commands w) Hin) as P.
    apply (Permutation_map rec_index) in P. simpl in P.
    eapply perm_trans; [apply Permutation_app_tail, P|].
    simpl. rewrite app_assoc. apply Permutation_cons_append.
  - unfold scan_hit. fields. reflexivity.
Qed.

Lemma tidy_scan c : forall n i config w, tidy w -> tidy (fst (scan n i c config w)).
Proof.
  induction n as [|n IH]; intros i config w T; simpl; [exact T|].
  destruct (nth_error (commands w) i) as [cmd|] eqn:E; [|exact T].
  destruct (Nat.eqb (rec_command cmd) c); [|now apply IH].
  fold (scan_hit cmd w). apply IH, tidy_scan_hit; [|exact T].
  now apply nth_error_In in E.
Qed.

Lemma tidy_finish_scanned c w : tidy w -> tidy (finish_scanned c w).
Proof.
  intro T. unfold finish_scanned, finish_scan.
  eapply tidy_same; [..|apply (tidy_scan c (length (commands w)) 0 None
                                 (log (EvOnFinish c) w)); exact T];
    fields; reflexivity.
Qed.

Section Indices.

Variable env : Env.

Lemma tidy_run_body fuel c config w w' :
  world_of (run_body env fuel c config w) = Some w' -> tidy w -> tidy w'.
Proof.
  unfold run_body. destruct (semaphore w) as [|s]; [now intros [= <-]|].
  fold (acquired s w). fold (provision fuel config (acquired s w)).
  intros H T.
  assert (T0 : tidy (acquired s w)) by exact T.
  destruct (provision fuel config (acquired s w)) as [w3|e3 w3|w3|] eqn:P;
    simpl in H; try discriminate;
    (assert (T3 : tidy w3)
       by (apply (tidy_provision fuel config (acquired s w));
           [now rewrite P|exact T0]));
    try (now injection H as <-).
  destruct (Py.pop (freeConnections w3)) as [[index rest]|] eqn:Pop;
    [|now injection H as <-].
  apply pop_some in Pop.
  destruct (Py.getitem _ _) as [batch|];
    [|injection H as <-; apply (tidy_pop w3 rest index); auto; fields; reflexivity].
  unfold setConnection in H.
  destruct (setConnection_at env _); simpl in H;
    [injection H as <-; apply (tidy_pop w3 rest index); auto; fields; reflexivity|].
  unfold start in H.
  destruct (start_at env _); simpl in H; injection H as <-;
    eapply (tidy_record w3 rest index); eauto; fields; reflexivity.
Qed.

Lemma tidy_run : forall fuel c config w w',
  world_of (run env fuel c config w) = Some w' -> tidy w -> tidy w'.
Proof.
  induction fuel as [|f IH]; intros c config w w' H T; [discriminate|].
  rewrite run_S in H.
  assert (R : forall w2, tidy w2 ->
              tidy (log EvRelease (set_semaphore (S (semaphore w2)) w2)))
    by (intros w2 T2; exact T2).
  destruct (run_body env f c config w) as [w2|e w2|w2|] eqn:E; simpl in H;
    try discriminate;
    (assert (T2 : tidy w2)
       by (apply (tidy_run_body f c config w); [now rewrite E|exact T])).
  - injection H as <-. now apply R.
  - assert (K : forall w3, world_of (onFinish env f c w2) = Some w3 -> tidy w3).
    { intros w3 H3. unfold onFinish in H3.
      pose proof (tidy_finish_scanned c w2 T2) as Ts.
      destruct (Py.pop (waitingCommands w2)) as [[x ws]|] eqn:P.
      - apply pop_some in P. rewrite (onFinish_wake _ c w2 ws x P) in H3.
        apply (IH _ _ _ _ H3). exact Ts.
      - apply pop_none in P. rewrite (onFinish_idle _ c w2 P) in H3.
        now injection H3 as <-. }
    destruct (onFinish env f c w2) as [w3|e3 w3|w3|]; simpl in H;
      try discriminate; injection H as <-;
      try apply R; now apply K.
  - now injection H as <-.
Qed.

Lemma tidy_onFinish fuel c w w' :
  world_of (onFinish env fuel c w) = Some w' -> tidy w -> tidy w'.
Proof.
  intros H T. unfold onFinish in H.
  pose proof (tidy_finish_scanned c w T) as Ts.
  destruct (Py.pop (waitingCommands w)) as [[x ws]|] eqn:P.
  - apply pop_some in P. rewrite (onFinish_wake _ c w ws x P) in H.
    apply (tidy_run _ _ _ _ _ H). exact Ts.
  - apply pop_none in P. rewrite (onFinish_idle _ c w P) in H.
    now injection H as <-.
Qed.

Lemma tidy_step fuel s w w' :
  world_of (step env fuel s w) = Some w' -> tidy w -> tidy w'.
Proof.
  intros H T. destruct s as [c config|tid]; simpl in H.
  - unfold addCommand in H.
    destruct (limit (debugPrint (MsgAdding c) w) <=? _).
    + injection H as <-. eapply tidy_same; [..|exact T]; fields; reflexivity.
    + apply (tidy_run _ _ _ _ _ H).
      eapply tidy_same; [..|exact T]; fields; reflexivity.
  - destruct (take_thread tid (live w)) as [[rc rest]|]; [|now injection H as <-].
    destruct (executor_outcome env fuel rc (onFinish env fuel) (set_live rest w))
      as [O|[tr [O|[e O]]]]; rewrite O in H; [discriminate| |];
      rewrite ?world_of_then_reraise in H;
      apply (tidy_onFinish _ _ _ _ H); exact T.
Qed.

Lemma tidy_steps fuel : forall l w w',
  steps env fuel l w = Some w' -> tidy w -> tidy w'.
Proof.
  induction l as [|s l IH]; intros w w' H T; simpl in H.
  - now injection H as <-.
  - destruct (world_of (step env fuel s w)) as [w1|] eqn:E; [|discriminate].
    apply (IH w1 w' H). now apply (tidy_step fuel s w).
Qed.

(** X14.  In a pool created empty and driven by [addCommand] and its
    executors, no connection index is held twice, whether by two
    running records, twice in the free list, or by a record and the
    free list at once, and every index held lies between 1 and the
    length of the connection list, the place of a batch, so that
    [connections[index - 1]] is never out of range and never counted
    from the end. *)
Theorem indices_held_once (fuel : nat) (lim : Z) (factory : Factory)
    (loader : Loader) (l : list Step) (w0 w : World) :
  Worker_init lim factory loader = Some w0 ->
  steps env fuel l w0 = Some w ->
  NoDup (map rec_index (commands w) ++ freeConnections w)
  /\ forall i, In i (map rec_index (commands w) ++ freeConnections w) ->
       1 <= i <= Z.of_nat (length (connections w))
       /\ exists batch, Py.getitem (connections w) (i - 1) = Some batch.
Proof.
  intros Hi H.
  assert (T0 : tidy w0).
  { unfold Worker_init in Hi. destruct (lim <? 0); [discriminate|].
    injection Hi as <-. split; [constructor|intros i []]. }
  destruct (tidy_steps fuel l w0 w H T0) as [N R].
  split; [exact N|]. intros i Hin. apply R in Hin.
  split; [exact Hin|].
  unfold Py.getitem.
  replace (0 <=? i - 1) with true by (symmetry; apply Z.leb_le; lia).
  replace (i - 1 <? Z.of_nat (length (connections w))) with true
    by (symmetry; apply Z.ltb_lt; lia).
  simpl.
  destruct (nth_error (connections w) (Z.to_nat (i - 1))) as [batch|] eqn:E;
    [eauto|].
  apply nth_error_None in E. lia.
Qed.

End Indices.

(** ** The ids of the executors *)

Lemma numbered_same w w' :
  live w' = live w -> (threadId w <= threadId w')%nat -> numbered w -> numbered w'.
Proof.
  intros L T [N B]. unfold numbered. rewrite L. split; [exact N|].
  intros rc Hrc. specialize (B rc Hrc). lia.
Qed.

Lemma numbered_started w w' thread :
  live w' = live w ++ [thread] -> rc_id thread = S (threadId w) ->
  threadId w' = S (threadId w) -> numbered w -> numbered w'.
Proof.
  intros L I T [N B]. unfold numbered. rewrite L, T, map_app. simpl. split.
  - apply NoDup_app; [exact N|repeat constructor; auto|].
    intros i Hi [<-|[]]. apply in_map_iff in Hi.
    destruct Hi as (rc & E & Hrc). specialize (B rc Hrc). lia.
  - intros rc Hrc. apply in_app_or in Hrc.
    destruct Hrc as [Hrc|[<-|[]]]; [specialize (B rc Hrc)|]; lia.
Qed.

Section Ids.

Variable env : Env.

Lemma run_body_raised_threadId fuel c config w e w' :
  run_body env fuel c config w = Raised e w' -> threadId w' = S (threadId w).
Proof.
  unfold run_body. destruct (semaphore w) as [|s]; [discriminate|].
  fold (acquired s w). fold (provision fuel config (acquired s w)).
  destruct (provision fuel config (acquired s w)) as [w3|e3 w3|w3|] eqn:P;
    simpl; try discriminate;
    (assert (F : frame (acquired s w) w3)
       by (apply (provision_frame fuel config); now rewrite P));
    pose proof (fr_threadId _ _ F) as T; cbn [acquired threadId set_threadId] in T.
  - destruct (Py.pop (freeConnections w3)) as [[index rest]|];
      [|now intros [= <- <-]].
    destruct (Py.getitem _ _) as [batch|]; [|intros [= <- <-]; now fields].
    unfold setConnection. destruct (setConnection_at env _); simpl;
      [intros [= <- <-]; now fields|].
    unfold start. destruct (start_at env _); [|discriminate].
    intros [= <- <-]. now fields.
  - now intros [= <- <-].
Qed.

Lemma numbered_run : forall fuel c config w w',
  world_of (run env fuel c config w) = Some w' -> numbered w -> numbered w'.
Proof.
  induction fuel as [|f IH]; intros c config w w' H T; [discriminate|].
  rewrite run_S in H.
  assert (R : forall w2, numbered w2 ->
              numbered (log EvRelease (set_semaphore (S (semaphore w2)) w2)))
    by (intros w2 T2; exact T2).
  destruct (run_body env f c config w) as [w2|e w2|w2|] eqn:E; simpl in H;
    try discriminate.
  - injection H as <-. apply R.
    destruct (run_body_returned env f c config w w2 E) as (index & batch & D & _).
    eapply numbered_started; [apply (d_live _ _ _ _ _ _ D)|reflexivity| |exact T].
    apply (d_threadId _ _ _ _ _ _ D).
  - assert (T2 : numbered w2).
    { destruct (run_body_raised env f c config w e w2 E) as [Fl _].
      apply (numbered_same w); [apply (f_live _ _ _ Fl)| |exact T].
      rewrite (run_body_raised_threadId f c config w e w2 E). lia. }
    assert (Ts : numbered (finish_scanned c w2)).
    { pose proof (finish_scanned_scanned c w2) as Sc.
      apply (numbered_same w2); [apply (s_live _ _ _ Sc)| |exact T2].
      rewrite (s_threadId _ _ _ Sc). lia. }
    assert (K : forall w3, world_of (onFinish env f c w2) = Some w3 -> numbered w3).
    { intros w3 H3. unfold onFinish in H3.
      destruct (Py.pop (waitingCommands w2)) as [[x ws]|] eqn:P.
      - apply pop_some in P. rewrite (onFinish_wake _ c w2 ws x P) in H3.
        apply (IH _ _ _ _ H3). exact Ts.
      - apply pop_none in P. rewrite (onFinish_idle _ c w2 P) in H3.
        now injection H3 as <-. }
    destruct (onFinish env f c w2) as [w3|e3 w3|w3|]; simpl in H;
      try discriminate; injection H as <-;
      try apply R; now apply K.
  - injection H as <-.
    now destruct (run_body_blocked env f c config w w2 E) as [_ ->].
Qed.

Lemma numbered_onFinish fuel c w w' :
  world_of (onFinish env fuel c w) = Some w' -> numbered w -> numbered w'.
Proof.
  intros H T. unfold onFinish in H.
  assert (Ts : numbered (finish_scanned c w)).
  { pose proof (finish_scanned_scanned c w) as Sc.
    apply (numbered_same w); [apply (s_live _ _ _ Sc)| |exact T].
    rewrite (s_threadId _ _ _ Sc). lia. }
  destruct (Py.pop (waitingCommands w)) as [[x ws]|] eqn:P.
  - apply pop_some in P. rewrite (onFinish_wake _ c w ws x P) in H.
    apply (numbered_run _ _ _ _ _ H). exact Ts.
  - apply pop_none in P. rewrite (onFinish_idle _ c w P) in H.
    now injection H as <-.
Qed.

Lemma numbered_step fuel s w w' :
  world_of (step env fuel s w) = Some w' -> numbered w -> numbered w'.
Proof.
  intros H T. destruct s as [c config|tid]; simpl in H.
  - unfold addCommand in H.
    destruct (limit (debugPrint (MsgAdding c) w) <=? _).
    + injection H as <-. apply (numbered_same w); fields; auto.
    + apply (numbered_run _ _ _ _ _ H).
      apply (numbered_same w); fields; auto.
  - destruct (take_thread tid (live w)) as [[rc rest]|] eqn:K;
      [|now injection H as <-].
    destruct (take_thread_split tid _ _ _ K) as (l1 & l2 & L & ->).
    assert (T1 : forall tr, numbered (with_trace tr (set_live (l1 ++ l2) w))).
    { intro tr. destruct T as [N B]. unfold numbered. simpl.
      rewrite L, map_app in N. simpl in N. apply NoDup_remove_1 in N.
      rewrite map_app. split; [exact N|].
      intros x Hx. apply B. rewrite L. apply in_app_or in Hx. apply in_or_app.
      destruct Hx; [now left|right; now right]. }
    destruct (executor_outcome env fuel rc (onFinish env fuel) (set_live (l1 ++ l2) w))
      as [O|[tr [O|[e O]]]]; rewrite O in H; [discriminate| |];
      rewrite ?world_of_then_reraise in H;
      apply (numbered_onFinish _ _ _ _ H); apply T1.
Qed.

Lemma numbered_steps fuel : forall l w w',
  steps env fuel l w = Some w' -> numbered w -> numbered w'.
Proof.
  induction l as [|s l IH]; intros w w' H T; simpl in H.
  - now injection H as <-.
  - destruct (world_of (step env fuel s w)) as [w1|] eqn:E; [|discriminate].
    apply (IH w1 w' H). now apply (numbered_step fuel s w).
Qed.

(** X15.  In a pool created empty and driven by [addCommand] and its
    executors, the executors at work have ids that differ from each
    other, none above the counter [threadId]: an id names one thread. *)
Theorem executor_ids_unique (fuel : nat) (lim : Z) (factory : Factory)
    (loader : Loader) (l : list Step) (w0 w : World) :
  Worker_init lim factory loader = Some w0 ->
  steps env fuel l w0 = Some w ->
  NoDup (map rc_id (live w))
  /\ forall rc, In rc (live w) -> (rc_id rc <= threadId w)%nat.
Proof.
  intros Hi H.
  assert (T0 : numbered w0).
  { unfold Worker_init in Hi. destruct (lim <? 0); [discriminate|].
    injection Hi as <-. split; [constructor|intros rc []]. }
  exact (numbered_steps fuel l w0 w H T0).
Qed.

End Ids.

(** ** A batch added from outside *)

Lemma unused_incl base k w w' :
  (forall i, In i (slots w') -> In i (slots w)) ->
  connections w' = connections w ->
  unused base k w -> unused base k w'.
Proof.
  intros I C (E & K & N). unfold unused. rewrite C.
  split; [exact E|]. split; [exact K|].
  intro Hin. apply N, I, Hin.
Qed.

Lemma unused_fillConnection base k config w w' :
  world_of (fillConnection config w) = Some w' -> unused base k w -> unused base k w'.
Proof.
  intros H U. apply fillConnection_effect in H.
  destruct H as [C [[K F]|(batch & K & F)]].
  - apply (unused_incl base k w); [|exact K|exact U].
    unfold slots. now rewrite C, F.
  - destruct U as ([ext E] & Hk & N). unfold unused, slots in *.
    rewrite C, K, F. split; [|split; [exact Hk|]].
    + exists (ext ++ [batch]). now rewrite E, app_assoc.
    + rewrite app_assoc. intro Hin. apply in_app_or in Hin.
      destruct Hin as [Hin|[Hin|[]]]; [now apply N|].
      rewrite E, length_app in Hin. lia.
Qed.

Lemma unused_wait_free base k config : forall fuel w w',
  world_of (wait_free fuel config w) = Some w' -> unused base k w -> unused base k w'.
Proof.
  induction fuel as [|f IH]; intros w w'; simpl;
    destruct (freeConnections w) eqn:E; simpl; try discriminate;
    try (now intros [= <-]).
  destruct (fillConnection_total config (log (EvSleep 1) w)) as [[w1 H]|(e & w1 & H)];
    rewrite H; simpl; intros H' T.
  - apply (IH w1 w' H').
    apply (unused_fillConnection base k config (log (EvSleep 1) w));
      [now rewrite H|exact T].
  - injection H' as <-.
    apply (unused_fillConnection base k config (log (EvSleep 1) w));
      [now rewrite H|exact T].
Qed.

Lemma unused_provision base k fuel config w w' :
  world_of (provision fuel config w) = Some w' -> unused base k w -> unused base k w'.
Proof.
  unfold provision.
  destruct (fillConnection_total config w) as [[w1 H]|(e & w1 & H)];
    rewrite H; simpl; intros H' T.
  - apply (unused_wait_free base k config fuel w1 w' H').
    apply (unused_fillConnection base k config w); [now rewrite H|exact T].
  - injection H' as <-.
    apply (unused_fillConnection base k config w); [now rewrite H|exact T].
Qed.

Lemma unused_pop base k w rest index w' :
  unused base k w -> freeConnections w = rest ++ [index] ->
  commands w' = commands w -> freeConnections w' = rest ->
  connections w' = connections w -> unused base k w'.
Proof.
  intros U F C F' K. apply (unused_incl base k w); [|exact K|exact U].
  unfold slots. rewrite C, F', F. intros i Hi.
  apply in_app_or in Hi. apply in_or_app.
  destruct Hi; [now left|right; apply in_or_app; now left].
Qed.

Lemma unused_record base k w rest index r w' :
  unused base k w -> freeConnections w = rest ++ [index] ->
  commands w' = commands w ++ [r] -> rec_index r = index ->
  freeConnections w' = rest -> connections w' = connections w -> unused base k w'.
Proof.
  intros U F C Hr F' K. apply (unused_incl base k w); [|exact K|exact U].
  unfold slots. rewrite C, F', F, map_app. simpl. rewrite Hr. intros i Hi.
  apply in_app_or in Hi. destruct Hi as [Hi|Hi].
  - apply in_app_or in Hi. apply in_or_app.
    destruct Hi as [Hi|[<-|[]]]; [now left|].
    right. apply in_or_app. right. now left.
  - apply in_or_app. right. apply in_or_app. now left.
Qed.

Lemma unused_scan_hit base k cmd w :
  In cmd (commands w) -> unused base k w -> unused base k (scan_hit cmd w).
Proof.
  intros Hin. apply unused_incl.
  - unfold slots, scan_hit. fields. intros i Hi.
    apply in_app_or in Hi. apply in_or_app. destruct Hi as [Hi|Hi].
    + left. apply in_map_iff in Hi. destruct Hi as (r & <- & Hr).
      apply in_map. now apply remove_incl in Hr.
    + apply in_app_or in Hi. destruct Hi as [Hi|[<-|[]]]; [now right|].
      left. now apply in_map.
  - unfold scan_hit. fields. reflexivity.
Qed.

Lemma unused_scan base k c : forall n i config w,
  unused base k w -> unused base k (fst (scan n i c config w)).
Proof.
  induction n as [|n IH]; intros i config w T; simpl; [exact T|].
  destruct (nth_error (commands w) i) as [cmd|] eqn:E; [|exact T].
  destruct (Nat.eqb (rec_command cmd) c); [|now apply IH].
  fold (scan_hit cmd w). apply IH, unused_scan_hit; [|exact T].
  now apply nth_error_In in E.
Qed.

Lemma unused_finish_scanned base k c w :
  unused base k w -> unused base k (finish_scanned c w).
Proof.
  intro T. unfold finish_scanned, finish_scan.
  eapply unused_incl;
    [| |apply (unused_scan base k c (length (commands w)) 0 None
              (log (EvOnFinish c) w)); exact T].
  - unfold slots. fields. auto.
  - fields. reflexivity.
Qed.

Section Outside.

Variable env : Env.
Variable base : list (list Conn).
Variable k : Z.

Lemma unused_run_body fuel c config w w' :
  world_of (run_body env fuel c config w) = Some w' ->
  unused base k w -> unused base k w'.
Proof.
  unfold run_body. destruct (semaphore w) as [|s]; [now intros [= <-]|].
  fold (acquired s w). fold (provision fuel config (acquired s w)).
  intros H T.
  assert (T0 : unused base k (acquired s w)) by exact T.
  destruct (provision fuel config (acquired s w)) as [w3|e3 w3|w3|] eqn:P;
    simpl in H; try discriminate;
    (assert (T3 : unused base k w3)
       by (apply (unused_provision base k fuel config (acquired s w));
           [now rewrite P|exact T0]));
    try (now injection H as <-).
  destruct (Py.pop (freeConnections w3)) as [[index rest]|] eqn:Pop;
    [|now injection H as <-].
  apply pop_some in Pop.
  destruct (Py.getitem _ _) as [batch|];
    [|injection H as <-; apply (unused_pop base k w3 rest index); auto;
      fields; reflexivity].
  unfold setConnection in H.
  destruct (setConnection_at env _); simpl in H;
    [injection H as <-; apply (unused_pop base k w3 rest index); auto;
     fields; reflexivity|].
  unfold start in H.
  destruct (start_at env _); simpl in H; injection H as <-;
    eapply (unused_record base k w3 rest index); eauto; fields; reflexivity.
Qed.

Lemma unused_run : forall fuel c config w w',
  world_of (run env fuel c config w) = Some w' ->
  unused base k w -> unused base k w'.
Proof.
  induction fuel as [|f IH]; intros c config w w' H T; [discriminate|].
  rewrite run_S in H.
  assert (R : forall w2, unused base k w2 ->
              unused base k (log EvRelease (set_semaphore (S (semaphore w2)) w2)))
    by (intros w2 T2; exact T2).
  destruct (run_body env f c config w) as [w2|e w2|w2|] eqn:E; simpl in H;
    try discriminate;
    (assert (T2 : unused base k w2)
       by (apply (unused_run_body f c config w); [now rewrite E|exact T])).
  - injection H as <-. now apply R.
  - assert (K : forall w3, world_of (onFinish env f c w2) = Some w3 ->
                unused base k w3).
    { intros w3 H3. unfold onFinish in H3.
      pose proof (unused_finish_scanned base k c w2 T2) as Ts.
      destruct (Py.pop (waitingCommands w2)) as [[x ws]|] eqn:P.
      - apply pop_some in P. rewrite (onFinish_wake _ c w2 ws x P) in H3.
        apply (IH _ _ _ _ H3). exact Ts.
      - apply pop_none in P. rewrite (onFinish_idle _ c w2 P) in H3.
        now injection H3 as <-. }
    destruct (onFinish env f c w2) as [w3|e3 w3|w3|]; simpl in H;
      try discriminate; injection H as <-;
      try apply R; now apply K.
  - now injection H as <-.
Qed.

Lemma unused_onFinish fuel c w w' :
  world_of (onFinish env fuel c w) = Some w' ->
  unused base k w -> unused base k w'.
Proof.
  intros H T. unfold onFinish in H.
  pose proof (unused_finish_scanned base k c w T) as Ts.
  destruct (Py.pop (waitingCommands w)) as [[x ws]|] eqn:P.
  - apply pop_some in P. rewrite (onFinish_wake _ c w ws x P) in H.
    apply (unused_run _ _ _ _ _ H). exact Ts.
  - apply pop_none in P. rewrite (onFinish_idle _ c w P) in H.
    now injection H as <-.
Qed.

Lemma unused_step fuel s w w' :
  world_of (step env fuel s w) = Some w' -> unused base k w -> unused base k w'.
Proof.
  intros H T. destruct s as [c config|tid]; simpl in H.
  - unfold addCommand in H.
    destruct (limit (debugPrint (MsgAdding c) w) <=? _).
    + injection H as <-. eapply unused_incl; [..|exact T].
      * unfold slots. fields. auto.
      * fields. reflexivity.
    + apply (unused_run _ _ _ _ _ H). eapply unused_incl; [..|exact T].
      * unfold slots. fields. auto.
      * fields. reflexivity.
  - destruct (take_thread tid (live w)) as [[rc rest]|]; [|now injection H as <-].
    destruct (executor_outcome env fuel rc (onFinish env fuel) (set_live rest w))
      as [O|[tr [O|[e O]]]]; rewrite O in H; [discriminate| |];
      rewrite ?world_of_then_reraise in H;
      apply (unused_onFinish _ _ _ _ H); exact T.
Qed.

Lemma unused_steps fuel : forall l w w',
  steps env fuel l w = Some w' -> unused base k w -> unused base k w'.
Proof.
  induction l as [|s l IH]; intros w w' H T; simpl in H.
  - now injection H as <-.
  - destruct (world_of (step env fuel s w)) as [w1|] eqn:E; [|discriminate].
    apply (IH w1 w' H). now apply (unused_step fuel s w).
Qed.

End Outside.

(** X16.  A batch given to the pool with [addConnection] is never used:
    no index is freed for it, so whatever steps follow, the batch stays
    at its place in the connection list and its index is neither in
    the free list nor in the record of a running command. *)
Theorem added_batch_is_never_used (env : Env) (fuel : nat) (batch : list Conn)
    (l : list Step) (w w' : World) :
  tidy w ->
  steps env fuel l (addConnection batch w) = Some w' ->
  Py.getitem (connections w') (Z.of_nat (length (connections w))) = Some batch
  /\ ~ In (Z.of_nat (length (connections w)) + 1) (map rec_index (commands w'))
  /\ ~ In (Z.of_nat (length (connections w)) + 1) (freeConnections w').
Proof.
  intros [N R] H.
  assert (U : unused (connections w ++ [batch]) (Z.of_nat (length (connections w)) + 1)
                (addConnection batch w)).
  { split; [exists []; now rewrite app_nil_r|]. split.
    - rewrite length_app. simpl. lia.
    - intro Hin. apply R in Hin. lia. }
  destruct (unused_steps env _ _ fuel l _ w' H U) as ([ext E] & _ & X).
  split; [|split].
  - rewrite E. apply getitem_app; [lia|].
    replace (Z.of_nat (length (connections w)))
      with (Z.of_nat (length (connections w ++ [batch])) - 1)
      by (rewrite length_app; simpl; lia).
    apply getitem_last.
  - intro Hin. apply X, in_or_app. now left.
  - intro Hin. apply X, in_or_app. now right.
Qed.

(** ** A factory that refuses *)

Section Refusal.

Variable env : Env.

(** The try block of a dispatch the factory refuses: the permit is
    taken, the factory is called once and its exception leaves the
    block. *)
Lemma run_body_refused fuel c config w e s :
  refusing e w ->
  Z.of_nat (length (connections w)) <= limit w ->
  semaphore w = S s ->
  exists w2,
    run_body env fuel c config w = Raised e w2
    /\ limit w2 = limit w /\ connections w2 = connections w
    /\ commands w2 = commands w /\ waitingCommands w2 = waitingCommands w
    /\ semaphore w2 = s /\ makeConnection w2 = makeConnection w
    /\ live w2 = live w /\ factoryCalls w2 = S (factoryCalls w).
Proof.
  intros [T R] L Hs.
  exists (debugPrint (MsgException e) (after_factory_call config (acquired s w))).
  split.
  - unfold run_body. rewrite Hs. fold (acquired s w).
    unfold fillConnection at 1.
    replace (Z.of_nat (length (connections (acquired s w))) <=? limit (acquired s w))
      with true by (symmetry; apply Z.leb_le; exact L).
    change (makeConnection (acquired s w)) with (makeConnection w).
    rewrite R, T. reflexivity.
  - unfold debugPrint. destruct (debug _); repeat split; reflexivity.
Qed.

End Refusal.

(** X17.  One refusal of the factory costs the whole wait queue.  When
    the factory raises on every call an exception that is not the
    refusal [fillConnection] backs off from, and there are more permits
    than commands waiting, a dispatch raises that exception after the
    handlers have taken every waiting command off the queue, called
    the factory once for each and started none of them; the permits
    are all given back. *)
Theorem refusal_drops_queue (env : Env) (e : Exn) (fuel : nat) :
  forall (ws : list Command) (c : Command) (config : option Config) (w : World),
  refusing e w ->
  Z.of_nat (length (connections w)) <= limit w ->
  waitingCommands w = ws ->
  (length ws < semaphore w)%nat ->
  exists w',
    run env (S (length ws) + fuel) c config w = Raised e w'
    /\ waitingCommands w' = []
    /\ live w' = live w
    /\ (forall r, In r (commands w') -> In r (commands w))
    /\ connections w' = connections w
    /\ factoryCalls w' = (factoryCalls w + S (length ws))%nat
    /\ semaphore w' = semaphore w.
Proof.
  induction ws as [|x ws IH] using rev_ind; intros c config w R L W P.
  - destruct (semaphore w) as [|s] eqn:Hs; [simpl in P; lia|].
    destruct (run_body_refused env fuel c config w e s R L Hs)
      as (w2 & B & Hl & Hc & Hr & Hw & Hp & Hm & Hv & Hf).
    change (S (length (@nil Command)) + fuel)%nat with (S fuel).
    rewrite run_S, B. simpl try_except. unfold onFinish.
    rewrite (onFinish_idle _ c w2) by congruence.
    simpl. eexists. split; [reflexivity|].
    pose proof (finish_scanned_scanned c w2) as S2.
    destruct (finish_scanned_factory c w2) as [_ F2].
    fields.
    split; [rewrite (s_waiting _ _ _ S2); congruence|].
    split; [rewrite (s_live _ _ _ S2); congruence|].
    split; [intros r Hin; rewrite <- Hr; now apply (s_incl _ _ _ S2)|].
    split; [rewrite (s_connections _ _ _ S2); congruence|].
    split; [rewrite F2, Hf; lia|].
    rewrite (s_semaphore _ _ _ S2). congruence.
  - rewrite length_app in *. simpl in P.
    destruct (semaphore w) as [|s] eqn:Hs; [lia|].
    destruct (run_body_refused env (S (length ws) + fuel) c config w e s R L Hs)
      as (w2 & B & Hl & Hc & Hr & Hw & Hp & Hm & Hv & Hf).
    replace (S (length ws + length [x]) + fuel)%nat
      with (S (S (length ws) + fuel)) by (simpl; lia).
    rewrite run_S, B. simpl try_except. unfold onFinish.
    rewrite (onFinish_wake _ c w2 ws x) by congruence.
    pose proof (finish_scanned_scanned c w2) as S2.
    destruct (finish_scanned_factory c w2) as [M2 F2].
    destruct (IH x (captured_config c w2)
                (set_waitingCommands ws (finish_scanned c w2)))
      as (w3 & E3 & W3 & V3 & I3 & C3 & F3 & P3).
    + destruct R as [T R]. split; [exact T|]. intros k cfg. fields.
      rewrite M2, Hm. apply R.
    + fields. rewrite (s_connections _ _ _ S2), (s_limit _ _ _ S2). congruence.
    + fields. reflexivity.
    + fields. rewrite (s_semaphore _ _ _ S2). lia.
    + change (S (length ws + fuel)) with (S (length ws) + fuel)%nat.
      rewrite E3. simpl. eexists. split; [reflexivity|]. fields.
      split; [exact W3|].
      split; [rewrite V3, (s_live _ _ _ S2); congruence|].
      split; [intros r Hin; rewrite <- Hr; apply (s_incl _ _ _ S2); now apply I3|].
      split; [rewrite C3, (s_connections _ _ _ S2); congruence|].
      split; [rewrite F3, F2, Hf; simpl; lia|].
      rewrite P3, (s_semaphore _ _ _ S2). congruence.
Qed.

(** ** The further theorems at work *)

Lemma teardown_closes_all_witness :
  exists evs,
    Worker_del (fun _ _ => None) More.wired = (evs, None)
    /\ evs = [TdClose O; TdPrint; TdClose 1%nat; TdPrint;
              TdClose 2%nat; TdPrint; TdClose 3%nat; TdPrint]
    /\ closed evs = [O; 1%nat; 2%nat; 3%nat]
    /\ printed evs = 4%nat.
Proof.
  apply (teardown_closes_all (fun _ _ => None) More.wired).
  intros j y _. reflexivity.
Defined.

Lemma teardown_stops_at_failure_witness :
  exists evs,
    Worker_del More.third_fails More.wired
    = (evs, Some (Exception "connection reset"))
    /\ closed evs = [O; 1%nat; 2%nat]
    /\ printed evs = 2%nat.
Proof.
  apply (teardown_stops_at_failure More.third_fails More.wired 2 2%nat
           (Exception "connection reset")).
  - reflexivity.
  - reflexivity.
  - intros j y Hj _. destruct j as [|[|j]]; [reflexivity|reflexivity|lia].
Defined.

Lemma executor_retries_once_witness :
  exists tries evs,
    tries = 2%nat
    /\ trace (finished More.silent tries 0 (Scenario.pool 1 Scenario.generous))
       = evs ++ []
    /\ executions 1%nat evs = tries
    /\ RunningCommand_run Scenario.flaky 1 More.silent (fun _ w => Returned w)
         (Scenario.pool 1 Scenario.generous)
       = Returned (finished More.silent tries 0 (Scenario.pool 1 Scenario.generous)).
Proof.
  apply (executor_retries_once Scenario.flaky 1 More.silent (fun _ w => Returned w)
           (Scenario.pool 1 Scenario.generous) 0).
  - reflexivity.
  - split; [reflexivity|]. intros j Hj. lia.
  - lia.
Defined.

Lemma executor_never_finishes_witness :
  RunningCommand_run More.endless 100 Scenario.verbose (fun _ w => Returned w)
    (Scenario.pool 1 Scenario.generous) = OutOfFuel.
Proof.
  apply (executor_never_finishes More.endless 100 Scenario.verbose).
  intro k. reflexivity.
Defined.

Lemma fill_keeps_pool_on_soft_answer_witness :
  exists w',
    fillConnection None (Scenario.pool 1 More.barren) = Returned w'
    /\ connections w' = []
    /\ freeConnections w' = []
    /\ commands w' = []
    /\ waitingCommands w' = []
    /\ factoryCalls w' = 1%nat.
Proof.
  apply (fill_keeps_pool_on_soft_answer None (Scenario.pool 1 More.barren)).
  - vm_compute. discriminate.
  - reflexivity.
Defined.

Lemma dispatch_waits_for_factory_witness :
  exists w',
    run Scenario.quiet 3 7%nat None (Scenario.pool 1 More.patient) = Returned w'
    /\ connections w' = [[2%nat]]
    /\ factoryCalls w' = 3%nat.
Proof.
  destruct (dispatch_waits_for_factory Scenario.quiet 2 2 7%nat None
              (Scenario.pool 1 More.patient) [2%nat])
    as (w' & E & _ & C & _ & K).
  - discriminate.
  - reflexivity.
  - split; [vm_compute; discriminate|]. split; [|split; [reflexivity|discriminate]].
    intros j Hj. destruct j as [|[|j]]; [reflexivity|reflexivity|lia].
  - lia.
  - reflexivity.
  - reflexivity.
  - exists w'. auto.
Defined.

Lemma dispatch_starves_past_limit_witness :
  addCommand Scenario.quiet 1000 7%nat None Scenario.saturated = OutOfFuel.
Proof.
  destruct (dispatch_starves_past_limit Scenario.quiet 1000 7%nat None
              Scenario.saturated) as [_ A].
  - discriminate.
  - reflexivity.
  - vm_compute. reflexivity.
  - apply A. vm_compute. reflexivity.
Defined.

Lemma failed_binding_loses_index_witness :
  exists w',
    run More.unbindable 1 7%nat None (Scenario.pool 1 Scenario.generous)
    = Raised (Exception "no such connection") w'
    /\ connections w' = [[O]]
    /\ freeConnections w' = []
    /\ commands w' = [].
Proof.
  destruct (failed_binding_loses_index More.unbindable 0 7%nat None
              (Scenario.pool 1 Scenario.generous) [O]
              (Exception "no such connection"))
    as (w' & E & C & F & R & _).
  - discriminate.
  - split; [vm_compute; discriminate|]. split; [reflexivity|discriminate].
  - reflexivity.
  - reflexivity.
  - intros r [].
  - exists w'. auto.
Defined.

Lemma finish_hands_over_connection_witness :
  exists w',
    onFinish Scenario.quiet 1 1%nat More.full = Returned w'
    /\ freeConnections w' = [1]
    /\ waitingCommands w' = []
    /\ dispatched 2%nat (Some 5%nat) 2 [1%nat]
         (set_waitingCommands [] (finish_scanned 1%nat More.full)) w'.
Proof.
  destruct (finish_hands_over_connection Scenario.quiet 0 1%nat 2%nat []
              (mkRecord 1%nat (Some 5%nat) (mkRunningCommand 1%nat false 1%nat) 2 1%nat)
              [1%nat] More.full)
    as (w' & E & D & F & _ & W).
  - vm_compute. reflexivity.
  - exists [], []. split; [reflexivity|]. split; [reflexivity|]. intros r' [].
  - reflexivity.
  - discriminate.
  - reflexivity.
  - reflexivity.
  - reflexivity.
  - exists w'. auto.
Defined.

Lemma queued_config_is_dropped_witness :
  exists w1,
    addCommand Scenario.quiet 1 9%nat (Some 4%nat) Scenario.busy = Returned w1
    /\ addCommand Scenario.quiet 1 9%nat None Scenario.busy = Returned w1.
Proof.
  destruct (queued_config_is_dropped Scenario.quiet 1 9%nat (Some 4%nat)
              Scenario.busy) as (w1 & E & A & _).
  - vm_compute. discriminate.
  - exists w1. auto.
Defined.

Lemma finish_skips_next_record_witness :
  map rec_threadId (commands (finish_scanned 1%nat More.doubled)) = [2%nat]
  /\ freeConnections (finish_scanned 1%nat More.doubled) = [1].
Proof.
  destruct (finish_skips_next_record 1%nat
              (mkRecord 1%nat None (mkRunningCommand 1%nat false 1%nat) 1 1%nat)
              (mkRecord 1%nat None (mkRunningCommand 1%nat false 2%nat) 2 2%nat)
              [] [] More.doubled) as (C & F & _).
  - reflexivity.
  - reflexivity.
  - intros r' [].
  - rewrite C, F. split; reflexivity.
Defined.

Lemma pool_of_zero_only_queues_witness :
  exists w,
    steps Scenario.quiet 2 More.relay (Scenario.pool 0 Scenario.generous) = Some w
    /\ commands w = [] /\ waitingCommands w = [1%nat; 2%nat].
Proof.
  destruct (pool_of_zero_only_queues Scenario.quiet 2 Scenario.generous
              Scenario.loader More.relay (Scenario.pool 0 Scenario.generous))
    as (w & E & C & _ & W & _).
  - reflexivity.
  - exists w. auto.
Defined.

Lemma indices_held_once_witness :
  exists w,
    steps Scenario.quiet 3 More.relay (Scenario.pool 1 Scenario.generous) = Some w
    /\ NoDup (map rec_index (commands w) ++ freeConnections w)
    /\ forall i, In i (map rec_index (commands w) ++ freeConnections w) ->
         1 <= i <= Z.of_nat (length (connections w)).
Proof.
  eexists. split; [vm_compute; reflexivity|].
  match goal with
  | |- NoDup (map rec_index (commands ?w) ++ _) /\ _ =>
      destruct (indices_held_once Scenario.quiet 3 1 Scenario.generous
                  Scenario.loader More.relay (Scenario.pool 1 Scenario.generous) w)
        as [N R]
  end.
  - reflexivity.
  - vm_compute. reflexivity.
  - split; [exact N|]. intros i Hi. exact (proj1 (R i Hi)).
Defined.

Lemma executor_ids_unique_witness :
  exists w,
    steps Scenario.quiet 3 More.relay (Scenario.pool 1 Scenario.generous) = Some w
    /\ NoDup (map rc_id (live w)).
Proof.
  eexists. split; [vm_compute; reflexivity|].
  apply (executor_ids_unique Scenario.quiet 3 1 Scenario.generous Scenario.loader
           More.relay (Scenario.pool 1 Scenario.generous)).
  - reflexivity.
  - vm_compute. reflexivity.
Defined.

Lemma added_batch_is_never_used_witness :
  exists w',
    steps Scenario.quiet 3 More.relay
      (addConnection [9%nat] (Scenario.pool 1 Scenario.generous)) = Some w'
    /\ Py.getitem (connections w') 0 = Some [9%nat]
    /\ ~ In 1 (map rec_index (commands w'))
    /\ ~ In 1 (freeConnections w').
Proof.
  eexists. split; [vm_compute; reflexivity|].
  apply (added_batch_is_never_used Scenario.quiet 3 [9%nat] More.relay
           (Scenario.pool 1 Scenario.generous)).
  - split; [constructor|intros i []].
  - vm_compute. reflexivity.
Defined.

Lemma refusal_drops_queue_witness :
  exists w',
    run Scenario.quiet 3 1%nat None More.stranded
    = Raised (Exception "530 Login incorrect") w'
    /\ waitingCommands w' = []
    /\ live w' = [].
Proof.
  destruct (refusal_drops_queue Scenario.quiet (Exception "530 Login incorrect") 0
              [2%nat; 3%nat] 1%nat None More.stranded)
    as (w' & E & W & V & _).
  - split; [vm_compute; reflexivity|intros k cfg; reflexivity].
  - vm_compute. discriminate.
  - reflexivity.
  - vm_compute. lia.
  - exists w'. split; [exact E|]. split; [exact W|exact V].
Defined.
